(** * Verification of [arc_sequence_generator.py]

    A shallow embedding of [arc_shape_svg], the one function of
    [window_generator/tools/python_tools/arc_sequence_generator.py], and
    the properties its specification states about it; then the closed
    forms of a call with integer parameters, the agreement of float
    arguments with them, and the driver at the end of the file, run in
    an arbitrary environment.

    The function takes an [int] repetition count and numeric geometry
    parameters that Python lets be [int] or [float]; it computes a few
    layout constants, appends formatted path commands to a list, joins
    them and wraps them in an SVG document.  Numbers are modelled as Python
    has them: unbounded integers ([Z]) and IEEE 754 binary64 floats
    ([spec_float] with [prec = 53], [emax = 1024]), with Python's mixed
    arithmetic, exact mixed comparison, [format(x, '.2f')] rounding, and
    the limit of CPython 3.11 on the digits of an [int] converted to
    [str].  The list [cmds] is also modelled as an object of a store that
    the call changes in place, to state that the call has no other
    state. *)

From Stdlib Require Import ZArith List String Ascii Bool Lia.
From Stdlib Require Import DecimalString.
From Stdlib Require Import Floats.SpecFloat.
Import ListNotations.

Local Open Scope string_scope.
Local Open Scope Z_scope.

(** ** Exceptions and the result monad *)

(** The exceptions the function can raise: the three [assert]s, the
    [OverflowError] of an [int] too large to convert to [float], and the
    [ValueError] of an [int] of too many digits to convert to [str]. *)
Inductive exn : Type :=
| AssertionError (msg : string)
| OverflowError (msg : string)
| ValueError (msg : string).

Inductive result (A : Type) : Type :=
| Ok (a : A)
| Raise (e : exn).
Arguments Ok {A} a.
Arguments Raise {A} e.

Definition bind {A B : Type} (r : result A) (k : A -> result B) : result B :=
  match r with
  | Ok a => k a
  | Raise e => Raise e
  end.

Notation "x <- r ;; k" := (bind r (fun x => k))
  (at level 61, r at next level, right associativity).
Notation "r ;;; k" := (bind r (fun _ => k))
  (at level 61, right associativity).

(** [assert cond, msg] *)
Definition py_assert (cond : bool) (msg : string) : result unit :=
  if cond then Ok tt else Raise (AssertionError msg).

Definition is_ok {A : Type} (r : result A) : bool :=
  match r with Ok _ => true | Raise _ => false end.

(** ** Python numbers *)

(** binary64 *)
Definition prec : Z := 53.
Definition emax : Z := 1024.

Definition float : Type := spec_float.

Definition fadd : float -> float -> float := SFadd prec emax.
Definition fsub : float -> float -> float := SFsub prec emax.
Definition fmul : float -> float -> float := SFmul prec emax.

(** The float nearest to [m * 2^e] (ties to even). *)
Definition b64 (m e : Z) : float := binary_normalize prec emax m e false.

Definition is_finite (f : float) : bool :=
  match f with
  | S754_zero _ | S754_finite _ _ _ => true
  | S754_infinity _ | S754_nan => false
  end.

(** A Python number: an [int] or a [float]. *)
Inductive pynum : Type :=
| PInt (z : Z)
| PFloat (f : float).

Definition int_too_large : string := "int too large to convert to float".

(** [float(z)]: correctly rounded, [OverflowError] when the rounded value
    would not be finite. *)
Definition float_of_int (z : Z) : result float :=
  let f := b64 z 0 in
  if is_finite f then Ok f else Raise (OverflowError int_too_large).

Definition to_float (a : pynum) : result float :=
  match a with
  | PInt z => float_of_int z
  | PFloat f => Ok f
  end.

(** Binary arithmetic: [int op int] is exact, anything else converts both
    operands to [float]. *)
Definition py_binop (iop : Z -> Z -> Z) (fop : float -> float -> float)
    (a b : pynum) : result pynum :=
  match a, b with
  | PInt x, PInt y => Ok (PInt (iop x y))
  | _, _ =>
      fa <- to_float a ;;
      fb <- to_float b ;;
      Ok (PFloat (fop fa fb))
  end.

Definition py_add : pynum -> pynum -> result pynum := py_binop Z.add fadd.
Definition py_sub : pynum -> pynum -> result pynum := py_binop Z.sub fsub.
Definition py_mul : pynum -> pynum -> result pynum := py_binop Z.mul fmul.

(** Comparison of an [int] with a [float] is exact in Python: the integer
    is not rounded first.  [cmp_int_float z f] is [Some c] when
    [z ?= f] is [c], and [None] when [f] is a NaN. *)
Definition cmp_int_float (z : Z) (f : float) : option comparison :=
  match f with
  | S754_nan => None
  | S754_infinity s => Some (if s then Gt else Lt)
  | S754_zero _ => Some (z ?= 0)
  | S754_finite s m e =>
      let v := cond_Zopp s (Zpos m) in
      Some (if 0 <=? e then z ?= v * 2 ^ e else z * 2 ^ (- e) ?= v)
  end.

Definition py_compare (a b : pynum) : option comparison :=
  match a, b with
  | PInt x, PInt y => Some (x ?= y)
  | PFloat f, PFloat g => SFcompare f g
  | PInt x, PFloat g => cmp_int_float x g
  | PFloat f, PInt y => option_map CompOpp (cmp_int_float y f)
  end.

Definition py_lt (a b : pynum) : bool :=
  match py_compare a b with Some Lt => true | _ => false end.
Definition py_gt (a b : pynum) : bool :=
  match py_compare a b with Some Gt => true | _ => false end.

(** ** Number formatting *)

Definition dq : string := String "034"%char EmptyString.
Definition nl : string := String "010"%char EmptyString.

(** Decimal digits of a natural number, no leading zeros, ["0"] for zero. *)
Definition string_of_N (n : N) : string :=
  NilZero.string_of_uint (N.to_uint n).

(** [str(z)] for an [int]. *)
Definition string_of_Z (z : Z) : string :=
  (if z <? 0 then "-" else EmptyString) ++ string_of_N (Z.abs_N z).

Definition digit_char (d : Z) : ascii :=
  ascii_of_N (48 + Z.to_N (d mod 10)).

(** The last [d] decimal digits of [v], most significant first. *)
Fixpoint frac_digits (d : nat) (v : Z) : string :=
  match d with
  | O => EmptyString
  | S d' => frac_digits d' (v / 10) ++ String (digit_char v) EmptyString
  end.

(** The integer nearest to [num / den], ties to the even one
    ([0 <= num], [0 < den]). *)
Definition div_half_even (num den : Z) : Z :=
  let q := num / den in
  let r := num mod den in
  match 2 * r ?= den with
  | Lt => q
  | Gt => q + 1
  | Eq => if Z.even q then q else q + 1
  end.

(** [round_scaled d m e] is [m * 2^e * 10^d] rounded to an integer: the
    magnitude of a float in units of [10^-d]. *)
Definition round_scaled (d : nat) (m : positive) (e : Z) : Z :=
  let num := Zpos m * 10 ^ Z.of_nat d in
  if 0 <=? e then num * 2 ^ e else div_half_even num (2 ^ (- e)).

(** The digits of a magnitude [q] counted in units of [10^-d]. *)
Definition fixed_digits (d : nat) (q : Z) : string :=
  string_of_N (Z.to_N (q / 10 ^ Z.of_nat d)) ++
  match d with
  | O => EmptyString
  | _ => "." ++ frac_digits d q
  end.

Definition sign_string (s : bool) : string :=
  if s then "-" else EmptyString.

(** [format(f, '.<d>f')] for a [float]: correctly rounded from the exact
    binary value, the sign kept even when the digits are all zero. *)
Definition format_float_f (d : nat) (f : float) : string :=
  match f with
  | S754_nan => "nan"
  | S754_infinity s => sign_string s ++ "inf"
  | S754_zero s => sign_string s ++ fixed_digits d 0
  | S754_finite s m e => sign_string s ++ fixed_digits d (round_scaled d m e)
  end.

(** [format(a, '.<d>f')]: an [int] is converted to [float] first. *)
Definition format_f (d : nat) (a : pynum) : result string :=
  f <- to_float a ;;
  Ok (format_float_f d f).

(** *** [repr] of a float

    [str(f)] is the shortest decimal that reads back as [f], the closest
    to [f] among the shortest. *)

(** The float nearest to [D * 10^p], for [0 < D]. *)
Definition float_of_decimal (D p : Z) : float :=
  if 0 <=? p then b64 (D * 10 ^ p) 0
  else
    let '(q, e', l) := SFdiv_core_binary prec emax D 0 (10 ^ (- p)) 0 in
    binary_round_aux prec emax false q e' l.

Definition nb_dec_digits (z : Z) : Z :=
  Z.of_nat (Decimal.nb_digits (N.to_uint (Z.to_N z))).

(** [floor (log10 (num / den))], for [0 < num] and [0 < den]. *)
Definition dec_exponent (num den : Z) : Z :=
  if den <=? num then nb_dec_digits (num / den) - 1
  else - nb_dec_digits (den / num).

(** The [k]-digit decimals just below and above [num / den], as the digits
    [a] (and [a + 1]) at the power of ten [p]; the one chosen reads back as
    [x], and is the closer one when both do. *)
Definition repr_candidate (x : float) (num den E k : Z) : option (Z * Z) :=
  let p := E - k + 1 in
  let X := if 0 <=? p then num else num * 10 ^ (- p) in
  let U := if 0 <=? p then den * 10 ^ p else den in
  let a := X / U in
  let r := X mod U in
  let lo := (0 <? a) && SFeqb (float_of_decimal a p) x in
  let hi := SFeqb (float_of_decimal (a + 1) p) x in
  match lo, hi with
  | true, true => Some (if 2 * r <=? U then a else a + 1, p)
  | true, false => Some (a, p)
  | false, true => Some (a + 1, p)
  | false, false => None
  end.

(** Seventeen digits always read back, so the search ends within its
    fuel for every binary64 float. *)
Fixpoint repr_search (fuel : nat) (x : float) (num den E k : Z) : Z * Z :=
  match fuel with
  | O => (div_half_even (num * 10 ^ (16 - E)) den, E - 16)
  | S fuel' =>
      match repr_candidate x num den E k with
      | Some c => c
      | None => repr_search fuel' x num den E (k + 1)
      end
  end.

Definition shortest_decimal (m : positive) (e : Z) : Z * Z :=
  let num := if 0 <=? e then Zpos m * 2 ^ e else Zpos m in
  let den := if 0 <=? e then 1 else 2 ^ (- e) in
  repr_search 17 (S754_finite false m e) num den (dec_exponent num den) 1.

(** Trailing zeros go to the exponent. *)
Fixpoint strip_zeros (fuel : nat) (D p : Z) : Z * Z :=
  match fuel with
  | O => (D, p)
  | S fuel' =>
      if (D mod 10 =? 0) && (0 <? D) then strip_zeros fuel' (D / 10) (p + 1)
      else (D, p)
  end.

Fixpoint zeros (n : nat) : string :=
  match n with
  | O => EmptyString
  | S n' => String "0" (zeros n')
  end.

(** The digits [ds] with the decimal point after the first [decpt] of
    them, as [repr] lays them out. *)
Definition repr_layout (ds : string) (decpt : Z) : string :=
  let k := Z.of_nat (String.length ds) in
  if (decpt <? -3) || (16 <? decpt) then
    let ex := decpt - 1 in
    let exs := string_of_N (Z.abs_N ex) in
    substring 0 1 ds ++
    (if 1 <? k then "." ++ substring 1 (String.length ds - 1) ds
     else EmptyString) ++
    "e" ++ (if ex <? 0 then "-" else "+") ++
    (if Z.abs ex <? 10 then "0" else EmptyString) ++ exs
  else if decpt <=? 0 then
    "0." ++ zeros (Z.to_nat (- decpt)) ++ ds
  else if decpt <? k then
    substring 0 (Z.to_nat decpt) ds ++ "." ++
    substring (Z.to_nat decpt) (String.length ds - Z.to_nat decpt) ds
  else
    ds ++ zeros (Z.to_nat (decpt - k)) ++ ".0".

Definition float_repr (f : float) : string :=
  match f with
  | S754_nan => "nan"
  | S754_infinity s => sign_string s ++ "inf"
  | S754_zero s => sign_string s ++ "0.0"
  | S754_finite s m e =>
      let '(D0, p0) := shortest_decimal m e in
      let '(D, p) := strip_zeros 20 D0 p0 in
      let ds := string_of_N (Z.to_N D) in
      sign_string s ++ repr_layout ds (p + Z.of_nat (String.length ds))
  end.

(** CPython (3.11 and later) converts no [int] of more than 4300 decimal
    digits to [str]: the default of [sys.int_info.default_max_str_digits]. *)
Definition max_str_digits : Z := 4300.

Definition int_too_long : string :=
  "Exceeds the limit (4300 digits) for integer string conversion; " ++
  "use sys.set_int_max_str_digits() to increase the limit".

(** [str(a)], which is what [f"{a}"] formats: the decimal digits of an
    [int], a [ValueError] when they are more than 4300; the [repr] of a
    [float]. *)
Definition py_str (a : pynum) : result string :=
  match a with
  | PInt z =>
      if 10 ^ max_str_digits <=? Z.abs z
      then Raise (ValueError int_too_long)
      else Ok (string_of_Z z)
  | PFloat f => Ok (float_repr f)
  end.

(** ** The builder *)

(** The arguments of [arc_shape_svg]. *)
Record params : Type := {
  n_semicircles : Z;
  R : pynum;
  u_width : pynum;
  u_depth : pynum;
  ext_above : pynum;
  stroke : string;
  stroke_width : pynum;
  margin : pynum;
  linecap : string;
  linejoin : string;
  background : string
}.

(** A call with the given geometry and the defaults of the signature for
    the style: [arc_shape_svg(n, R, u_width, u_depth, ext_above,
    margin=margin)]. *)
Definition call (n : Z) (R u_width u_depth ext_above margin : pynum)
    : params := {|
  n_semicircles := n;
  R := R;
  u_width := u_width;
  u_depth := u_depth;
  ext_above := ext_above;
  stroke := "black";
  stroke_width := PFloat (b64 5 (-1));
  margin := margin;
  linecap := "round";
  linejoin := "round";
  background := "white"
|}.

(** The float [z * 2^e] as a Python number. *)
Definition fl (z e : Z) : pynum := PFloat (b64 z e).

(** [arc_shape_svg(n)]: the defaults of the signature, [R = 24.0],
    [u_width = 16.0], [u_depth = 28.0], [ext_above = 12.0],
    [margin = 16.0]. *)
Definition default_params (n : Z) : params :=
  call n (fl 24 0) (fl 16 0) (fl 28 0) (fl 12 0) (fl 16 0).

(** The layout constants computed before any command is emitted. *)
Record layout : Type := {
  top_y : pynum;
  baseline : pynum;
  arc_apex_y : pynum;
  pattern_width : pynum;
  total_width : pynum;
  total_height : pynum
}.

Definition msg_n : string := "n_semicircles must be >= 1".
Definition msg_ext : string := "ext_above must be > 0".
Definition msg_apex : string :=
  "Increase ext_above or margin to rise above the arc apex.".

(** Lines 38-55: the three assertions and the layout arithmetic, in the
    order of the source. *)
Definition compute_layout (p : params) : result layout :=
  py_assert (1 <=? n_semicircles p) msg_n ;;;
  py_assert (py_gt (ext_above p) (PInt 0)) msg_ext ;;;
  let top_y := margin p in
  t <- py_add top_y (R p) ;;
  baseline <- py_add t (ext_above p) ;;
  arc_apex_y <- py_sub baseline (R p) ;;
  py_assert (py_lt top_y arc_apex_y) msg_apex ;;;
  r2 <- py_mul (PInt 2) (R p) ;;
  period <- py_add (u_width p) r2 ;;
  reps <- py_mul (PInt (n_semicircles p)) period ;;
  pattern_width <- py_add reps (u_width p) ;;
  m2 <- py_mul (PInt 2) (margin p) ;;
  total_width <- py_add pattern_width m2 ;;
  bd <- py_add baseline (u_depth p) ;;
  total_height <- py_add bd (margin p) ;;
  Ok {| top_y := top_y; baseline := baseline; arc_apex_y := arc_apex_y;
        pattern_width := pattern_width; total_width := total_width;
        total_height := total_height |}.

(** A path command, before it is formatted.  The arc carries the five
    numbers and two flags of the SVG [A] command. *)
Inductive cmd : Type :=
| MoveTo (x y : pynum)
| VLine (y : pynum)
| HLine (x : pynum)
| Arc (rx ry : pynum) (rotation : Z) (large_arc sweep : bool) (x y : pynum).

Definition flag_string (b : bool) : string := if b then "1" else "0".

(** The f-strings of lines 61-93. *)
Definition fmt_cmd (c : cmd) : result string :=
  match c with
  | MoveTo x y =>
      sx <- format_f 2 x ;; sy <- format_f 2 y ;;
      Ok ("M " ++ sx ++ "," ++ sy)
  | VLine y => sy <- format_f 2 y ;; Ok ("V " ++ sy)
  | HLine x => sx <- format_f 2 x ;; Ok ("H " ++ sx)
  | Arc rx ry rot la sw x y =>
      srx <- format_f 2 rx ;; sry <- format_f 2 ry ;;
      sx <- format_f 2 x ;; sy <- format_f 2 y ;;
      Ok ("A " ++ srx ++ "," ++ sry ++ " " ++ string_of_Z rot ++ " " ++
          flag_string la ++ " " ++ flag_string sw ++ " " ++ sx ++ "," ++ sy)
  end.

(** The path is built once for any way [render] of storing a command in
    the list: the source stores the formatted text ([fmt_cmd]); storing the
    command itself ([Ok]) gives the sequence the text was formatted from. *)
Section Path.

Context {C : Type}.
Variable render : cmd -> result C.
Variable p : params.
Variable l : layout.

(** [cmds.append(f"...")] *)
Definition append_cmd (cmds : list C) (c : cmd) : result (list C) :=
  s <- render c ;; Ok (cmds ++ [s])%list.

(** Lines 70-73 and 83-86: one U from the cursor [x]; returns the new
    cursor. *)
Definition emit_U (st : pynum * list C) : result (pynum * list C) :=
  let '(x, cmds) := st in
  down <- py_add (baseline l) (u_depth p) ;;
  cmds <- append_cmd cmds (VLine down) ;;
  x <- py_add x (u_width p) ;;
  cmds <- append_cmd cmds (HLine x) ;;
  cmds <- append_cmd cmds (VLine (baseline l)) ;;
  Ok (x, cmds).

(** Lines 76-80: the semicircle after a U. *)
Definition emit_arc (st : pynum * list C) : result (pynum * list C) :=
  let '(x, cmds) := st in
  r2 <- py_mul (PInt 2) (R p) ;;
  x_arc_end <- py_add x r2 ;;
  cmds <- append_cmd cmds
            (Arc (R p) (R p) 0 false true x_arc_end (baseline l)) ;;
  Ok (x_arc_end, cmds).

(** Lines 68-80: [for _ in range(n_semicircles)]. *)
Fixpoint repeat_U_arc (n : nat) (st : pynum * list C)
    : result (pynum * list C) :=
  match n with
  | O => Ok st
  | S n' =>
      st <- emit_U st ;;
      st <- emit_arc st ;;
      repeat_U_arc n' st
  end.

(** Lines 57-93: the list [cmds]. *)
Definition build_path : result (list C) :=
  let x := margin p in
  cmds <- append_cmd [] (MoveTo x (baseline l)) ;;
  cmds <- append_cmd cmds (VLine (top_y l)) ;;
  cmds <- append_cmd cmds (VLine (baseline l)) ;;
  st <- repeat_U_arc (Z.to_nat (n_semicircles p)) (x, cmds) ;;
  st <- emit_U st ;;
  let '(x, cmds) := st in
  cmds <- append_cmd cmds (VLine (top_y l)) ;;
  let left_x := margin p in
  append_cmd cmds (HLine left_x).

End Path.

(** The list [cmds] of the source. *)
Definition path_strings (p : params) (l : layout) : result (list string) :=
  build_path fmt_cmd p l.

(** The commands it was formatted from. *)
Definition path_cmds (p : params) (l : layout) : result (list cmd) :=
  build_path (@Ok cmd) p l.

Definition attr (name value : string) : string :=
  name ++ "=" ++ dq ++ value ++ dq.

(** Lines 97-103: the document around the texts of the width, the height,
    the path data and the stroke width. *)
Definition svg_document (p : params) (w h path_d sw : string) : string :=
  "<svg " ++ attr "xmlns" "http://www.w3.org/2000/svg" ++ nl ++
  "     " ++ attr "width" w ++ " " ++ attr "height" h ++ nl ++
  "     " ++ attr "viewBox" ("0 0 " ++ w ++ " " ++ h) ++ ">" ++ nl ++
  "  <rect " ++ attr "x" "0" ++ " " ++ attr "y" "0" ++ " " ++
    attr "width" w ++ " " ++ attr "height" h ++ " " ++
    attr "fill" (background p) ++ "/>" ++ nl ++
  "  <path " ++ attr "d" path_d ++ " " ++ attr "fill" "none" ++ " " ++
    attr "stroke" (stroke p) ++ " " ++
    attr "stroke-width" sw ++ nl ++
  "        " ++ attr "stroke-linecap" (linecap p) ++ " " ++
    attr "stroke-linejoin" (linejoin p) ++ "/>" ++ nl ++
  "</svg>".

(** [arc_shape_svg], lines 17-104. *)
Definition arc_shape_svg (p : params) : result string :=
  l <- compute_layout p ;;
  cmds <- path_strings p l ;;
  let path_d := concat " " cmds in
  w <- format_f 0 (total_width l) ;;
  h <- format_f 0 (total_height l) ;;
  sw <- py_str (stroke_width p) ;;
  Ok (svg_document p w h path_d sw).

(** ** Vocabulary of the specification *)

(** The error conditions of the specification are the three assertions. *)
Definition InvalidParameter (e : exn) : Prop :=
  e = AssertionError msg_n \/ e = AssertionError msg_ext.

Definition GeometryError (e : exn) : Prop :=
  e = AssertionError msg_apex.

Definition py_le (a b : pynum) : bool :=
  match py_compare a b with Some (Lt | Eq) => true | _ => false end.

Definition is_float (a : pynum) : bool :=
  match a with PFloat _ => true | PInt _ => false end.

Definition is_int (a : pynum) : bool :=
  match a with PInt _ => true | PFloat _ => false end.

(** All five geometry parameters are floats, as the signature annotates
    them. *)
Definition float_params (p : params) : bool :=
  is_float (R p) && is_float (u_width p) && is_float (u_depth p) &&
  is_float (ext_above p) && is_float (margin p).

(** All five geometry parameters are ints. *)
Definition int_params (p : params) : bool :=
  is_int (R p) && is_int (u_width p) && is_int (u_depth p) &&
  is_int (ext_above p) && is_int (margin p).

(** Arithmetic on results, to write a formula as Python evaluates it. *)
Definition lift2 (op : pynum -> pynum -> result pynum)
    (a b : result pynum) : result pynum :=
  x <- a ;; y <- b ;; op x y.

Declare Scope py_scope.
Delimit Scope py_scope with py.
Notation "a + b" := (lift2 py_add a b) : py_scope.
Notation "a - b" := (lift2 py_sub a b) : py_scope.
Notation "a * b" := (lift2 py_mul a b) : py_scope.
Notation "' a" := (Ok a) (at level 5, a at level 0) : py_scope.

Fixpoint mapM {A B : Type} (f : A -> result B) (xs : list A)
    : result (list B) :=
  match xs with
  | [] => Ok []
  | x :: t => y <- f x ;; ys <- mapM f t ;; Ok (y :: ys)
  end.

(** What a successful call did: the layout it computed, the commands it
    emitted, their texts (the list [cmds] of the source), and the texts of
    the document width and height and of the stroke width. *)
Record trace : Type := {
  t_layout : layout;
  t_cmds : list cmd;
  t_texts : list string;
  t_width : string;
  t_height : string;
  t_stroke_width : string
}.

Definition emitted (p : params) (doc : string) (t : trace) : Prop :=
  compute_layout p = Ok (t_layout t) /\
  path_cmds p (t_layout t) = Ok (t_cmds t) /\
  path_strings p (t_layout t) = Ok (t_texts t) /\
  mapM fmt_cmd (t_cmds t) = Ok (t_texts t) /\
  format_f 0 (total_width (t_layout t)) = Ok (t_width t) /\
  format_f 0 (total_height (t_layout t)) = Ok (t_height t) /\
  py_str (stroke_width p) = Ok (t_stroke_width t) /\
  doc = svg_document p (t_width t) (t_height t) (concat " " (t_texts t))
          (t_stroke_width t).

(** The current point of a path, and how each (absolute) command moves
    it. *)
Definition pen : Type := (pynum * pynum)%type.

Definition step_pen (pn : pen) (c : cmd) : pen :=
  match c with
  | MoveTo x y => (x, y)
  | VLine y => (fst pn, y)
  | HLine x => (x, snd pn)
  | Arc _ _ _ _ _ x y => (x, y)
  end.

Definition run_pen (pn : pen) (cs : list cmd) : pen :=
  fold_left step_pen cs pn.

Definition origin : pen := (PInt 0, PInt 0).

Definition is_arc (c : cmd) : bool :=
  match c with Arc _ _ _ _ _ _ _ => true | _ => false end.

Definition count_arcs (cs : list cmd) : nat :=
  List.length (filter is_arc cs).

(** The number of down/right/up triples: a vertical, a horizontal and a
    vertical segment in a row. *)
Fixpoint count_U (cs : list cmd) : nat :=
  match cs with
  | [] => O
  | VLine _ :: ((HLine _ :: VLine _ :: _) as t) => S (count_U t)
  | _ :: t => count_U t
  end.

(** The same counts on the list [cmds] of the source, whose elements are
    texts: by the letter each text starts with. *)
Definition cmd_letter (c : cmd) : ascii :=
  match c with
  | MoveTo _ _ => "M"
  | VLine _ => "V"
  | HLine _ => "H"
  | Arc _ _ _ _ _ _ _ => "A"
  end%char.

Definition head_char (s : string) : ascii :=
  match s with
  | String c _ => c
  | EmptyString => " "%char
  end.

Definition count_letter (a : ascii) (ls : list ascii) : nat :=
  List.length (filter (Ascii.eqb a) ls).

Fixpoint count_VHV (ls : list ascii) : nat :=
  match ls with
  | [] => O
  | a :: t =>
      match t with
      | b :: c :: _ =>
          if ((a =? "V") && (b =? "H") && (c =? "V"))%char
          then S (count_VHV t) else count_VHV t
      | _ => count_VHV t
      end
  end.

(** [n] repetitions of a U and a semicircle, from the cursor [x] to the
    cursor [x']. *)
Inductive reps (p : params) (l : layout)
    : nat -> pynum -> list cmd -> pynum -> Prop :=
| reps_O x : reps p l O x [] x
| reps_S n x down x1 r2 x2 body x' :
    py_add (baseline l) (u_depth p) = Ok down ->
    py_add x (u_width p) = Ok x1 ->
    py_mul (PInt 2) (R p) = Ok r2 ->
    py_add x1 r2 = Ok x2 ->
    reps p l n x2 body x' ->
    reps p l (S n) x
      (VLine down :: HLine x1 :: VLine (baseline l) ::
       Arc (R p) (R p) 0 false true x2 (baseline l) :: body) x'.

(** The shape of the whole path: the left end-cap, [n] repetitions, the
    final U, the right end-cap and the closing line. *)
Definition path_shape (p : params) (l : layout) (cs : list cmd) : Prop :=
  exists body xe down xf,
    reps p l (Z.to_nat (n_semicircles p)) (margin p) body xe /\
    py_add (baseline l) (u_depth p) = Ok down /\
    py_add xe (u_width p) = Ok xf /\
    cs = ([MoveTo (margin p) (baseline l); VLine (top_y l);
           VLine (baseline l)] ++ body ++
          [VLine down; HLine xf; VLine (baseline l);
           VLine (top_y l); HLine (margin p)])%list.

(** A property of every point of a path: [P pn rest] at each pen position
    [pn], with the commands [rest] still to come. *)
Fixpoint all_suffixes (P : pen -> list cmd -> Prop) (pn : pen)
    (cs : list cmd) : Prop :=
  P pn cs /\
  match cs with
  | [] => True
  | c :: t => all_suffixes P (step_pen pn c) t
  end.

(** Where a U and where an arc may stand: a down/right/up triple starts
    on the baseline, goes down by the depth, right by the width and back
    up; an arc is a half-circle of radius [R] from the baseline to the
    baseline, [2 * R] to the right, with fixed flags. *)
Definition U_here (p : params) (l : layout) (pn : pen) (rest : list cmd)
    : Prop :=
  match rest with
  | VLine y1 :: HLine x2 :: VLine y3 :: _ =>
      snd pn = baseline l /\
      py_add (baseline l) (u_depth p) = Ok y1 /\
      py_add (fst pn) (u_width p) = Ok x2 /\
      y3 = baseline l
  | _ => True
  end.

Definition arc_here (p : params) (l : layout) (pn : pen) (rest : list cmd)
    : Prop :=
  match rest with
  | Arc rx ry rot la sw x y :: _ =>
      rx = R p /\ ry = R p /\ rot = 0 /\ la = false /\ sw = true /\
      snd pn = baseline l /\ y = baseline l /\
      (r2 <- py_mul (PInt 2) (R p) ;; py_add (fst pn) r2) = Ok x
  | _ => True
  end.

Definition well_placed (p : params) (l : layout) (pn : pen)
    (rest : list cmd) : Prop :=
  U_here p l pn rest /\ arc_here p l pn rest.

(** The numbers a command formats, in the order of its text. *)
Definition coords (c : cmd) : list pynum :=
  match c with
  | MoveTo x y => [x; y]
  | VLine y => [y]
  | HLine x => [x]
  | Arc rx ry _ _ _ x y => [rx; ry; x; y]
  end.

(** The text of a command around the texts of its numbers. *)
Definition cmd_text (c : cmd) (ts : list string) : string :=
  match c, ts with
  | MoveTo _ _, [sx; sy] => "M " ++ sx ++ "," ++ sy
  | VLine _, [sy] => "V " ++ sy
  | HLine _, [sx] => "H " ++ sx
  | Arc _ _ rot la sw _ _, [srx; sry; sx; sy] =>
      "A " ++ srx ++ "," ++ sry ++ " " ++ string_of_Z rot ++ " " ++
      flag_string la ++ " " ++ flag_string sw ++ " " ++ sx ++ "," ++ sy
  | _, _ => EmptyString
  end.

Definition is_digit (c : ascii) : bool :=
  ((48 <=? N_of_ascii c) && (N_of_ascii c <=? 57))%N.

Fixpoint all_digits (s : string) : bool :=
  match s with
  | EmptyString => true
  | String c t => is_digit c && all_digits t
  end.

Definition is_digits (s : string) : bool :=
  match s with
  | EmptyString => false
  | _ => all_digits s
  end.

Fixpoint split_dot (s : string) : option (string * string) :=
  match s with
  | EmptyString => None
  | String c t =>
      if (c =? ".")%char then Some (EmptyString, t)
      else match split_dot t with
           | Some (a, b) => Some (String c a, b)
           | None => None
           end
  end.

Definition strip_minus (s : string) : string :=
  match s with
  | String c t => if (c =? "-")%char then t else s
  | EmptyString => s
  end.

(** Fixed notation with [d] decimals: an optional minus sign, one or more
    digits and, when [d] is not zero, a point and exactly [d] digits. *)
Definition is_fixed (d : nat) (s : string) : bool :=
  let u := strip_minus s in
  match d with
  | O => is_digits u
  | _ =>
      match split_dot u with
      | Some (a, b) =>
          is_digits a && all_digits b && (String.length b =? d)%nat
      | None => false
      end
  end.

(** [q] is the integer nearest to [num / den], the even one of two. *)
Definition nearest_even (num den q : Z) : Prop :=
  Z.abs (2 * (q * den - num)) <= den /\
  (Z.abs (2 * (q * den - num)) = den -> Z.even q = true).

(** The magnitude of a finite float as a fraction. *)
Definition mag_num (m : positive) (e : Z) : Z :=
  if 0 <=? e then Zpos m * 2 ^ e else Zpos m.
Definition mag_den (e : Z) : Z :=
  if 0 <=? e then 1 else 2 ^ (- e).

(** [s] is the text of the float [f] in fixed notation with [d] decimals,
    rounded to the nearest. *)
Definition fixed_text_of (d : nat) (f : float) (s : string) : Prop :=
  match f with
  | S754_zero sg => s = sign_string sg ++ fixed_digits d 0
  | S754_finite sg m e =>
      exists q,
        nearest_even (mag_num m e * 10 ^ Z.of_nat d) (mag_den e) q /\
        s = sign_string sg ++ fixed_digits d q
  | _ => False
  end.

Definition int_of (a : pynum) : Z :=
  match a with PInt z => z | PFloat _ => 0 end.

(** All the numbers of a command are ints. *)
Definition int_cmd (c : cmd) : bool := forallb is_int (coords c).

(** An int below [2^53] in magnitude: it converts to a float as it is. *)
Definition small (a : pynum) : bool :=
  is_int a && (Z.abs (int_of a) <? 2 ^ 53).

Definition small_cmd (c : cmd) : bool := forallb small (coords c).

(** How far the path of integer parameters can reach from the origin,
    horizontally and vertically. *)
Definition width_bound (p : params) : Z :=
  n_semicircles p * (Z.abs (int_of (u_width p)) + 2 * Z.abs (int_of (R p)))
  + Z.abs (int_of (u_width p)) + 2 * Z.abs (int_of (margin p)).

Definition height_bound (p : params) : Z :=
  2 * Z.abs (int_of (margin p)) + Z.abs (int_of (R p))
  + Z.abs (int_of (ext_above p)) + Z.abs (int_of (u_depth p)).

(** The one [OverflowError] of the function. *)
Definition overflow : exn := OverflowError int_too_large.

(** The one [ValueError] of the function, and the numbers that do not
    raise it: every float, and an int of at most 4300 digits. *)
Definition too_long : exn := ValueError int_too_long.

Definition printable (a : pynum) : Prop :=
  match a with
  | PInt z => Z.abs z < 10 ^ max_str_digits
  | PFloat _ => True
  end.

(** ** Sample calls *)

(** The scenario of the specification, with the numbers as the integers it
    writes; [default_params 1] is the same call with the float defaults. *)
Definition scenario_int : params :=
  call 1 (PInt 24) (PInt 16) (PInt 28) (PInt 12) (PInt 16).

Definition path_1 : string :=
  "M 16.00,52.00 V 16.00 V 52.00 V 80.00 H 32.00 V 52.00 " ++
  "A 24.00,24.00 0 0 1 80.00,52.00 V 80.00 H 96.00 V 52.00 V 16.00 H 16.00".

(** The document of [arc_shape_svg(1)]. *)
Definition doc_1 : string :=
  svg_document (default_params 1) "112" "96" path_1 "2.5".

(** [arc_shape_svg(1, ext_above=2.0**-70)] *)
Definition tiny_ext_params : params :=
  call 1 (fl 24 0) (fl 16 0) (fl 28 0) (fl 1 (-70)) (fl 16 0).

(** [arc_shape_svg(1, ext_above=0.0)] *)
Definition zero_ext_params : params :=
  call 1 (fl 24 0) (fl 16 0) (fl 28 0) (PFloat (S754_zero false)) (fl 16 0).

(** [arc_shape_svg(1, R=2.0**70)] *)
Definition big_radius_params : params :=
  call 1 (fl 1 70) (fl 16 0) (fl 28 0) (fl 12 0) (fl 16 0).

(** [arc_shape_svg(1, u_width=2.0**1023)] *)
Definition wide_U_params : params :=
  call 1 (fl 24 0) (fl 1 1023) (fl 28 0) (fl 12 0) (fl 16 0).

(** [arc_shape_svg(1, R=-24.0, margin=-16.0)] *)
Definition negative_params : params :=
  call 1 (fl (-24) 0) (fl 16 0) (fl 28 0) (fl 12 0) (fl (-16) 0).

(** [arc_shape_svg(1, R=-24, u_width=16, u_depth=28, ext_above=12,
    margin=-16)] *)
Definition negative_int_params : params :=
  call 1 (PInt (-24)) (PInt 16) (PInt 28) (PInt 12) (PInt (-16)).

(** ** Integer calls in closed form *)

(** The decimals [format(z, '.<d>f')] prints after an integer. *)
Definition decimals (d : nat) : string :=
  match d with
  | O => EmptyString
  | _ => "." ++ zeros d
  end.

(** The text of an integer coordinate. *)
Definition int_text (d : nat) (a : pynum) : string :=
  string_of_Z (int_of a) ++ decimals d.

(** The layout of integer parameters, as integers. *)
Definition int_baseline (p : params) : Z :=
  int_of (margin p) + int_of (R p) + int_of (ext_above p).

Definition int_pattern_width (p : params) : Z :=
  n_semicircles p * (int_of (u_width p) + 2 * int_of (R p))
  + int_of (u_width p).

Definition int_total_width (p : params) : Z :=
  int_pattern_width p + 2 * int_of (margin p).

Definition int_total_height (p : params) : Z :=
  int_baseline p + int_of (u_depth p) + int_of (margin p).

Definition int_period (p : params) : Z :=
  int_of (u_width p) + 2 * int_of (R p).

Definition int_down (p : params) : Z :=
  int_baseline p + int_of (u_depth p).

(** The U that starts at the cursor [x]. *)
Definition int_U (p : params) (x : Z) : list cmd :=
  [VLine (PInt (int_down p)); HLine (PInt (x + int_of (u_width p)));
   VLine (PInt (int_baseline p))].

(** The [k]-th repetition counted from the cursor [x0]: a U at
    [x0 + k * period] and a semicircle that ends where the next one
    starts. *)
Definition int_unit_from (p : params) (x0 k : Z) : list cmd :=
  (int_U p (x0 + k * int_period p) ++
   [Arc (PInt (int_of (R p))) (PInt (int_of (R p))) 0 false true
      (PInt (x0 + (k + 1) * int_period p)) (PInt (int_baseline p))])%list.

Definition indices (n : nat) : list Z := map Z.of_nat (seq 0 n).

(** The whole path of integer parameters. *)
Definition int_path (p : params) : list cmd :=
  let m := int_of (margin p) in
  ([MoveTo (PInt m) (PInt (int_baseline p)); VLine (PInt m);
    VLine (PInt (int_baseline p))] ++
   flat_map (int_unit_from p m) (indices (Z.to_nat (n_semicircles p))) ++
   int_U p (m + n_semicircles p * int_period p) ++
   [VLine (PInt m); HLine (PInt m)])%list.

(** The layout of integer parameters. *)
Definition int_layout (p : params) : layout := {|
  top_y := PInt (int_of (margin p));
  baseline := PInt (int_baseline p);
  arc_apex_y := PInt (int_of (margin p) + int_of (ext_above p));
  pattern_width := PInt (int_pattern_width p);
  total_width := PInt (int_total_width p);
  total_height := PInt (int_total_height p)
|}.

(** The text of a command of integer coordinates. *)
Definition int_cmd_text (c : cmd) : string :=
  cmd_text c (map (int_text 2) (coords c)).

(** The document of integer parameters, around the text [sw] of the stroke
    width. *)
Definition int_document (p : params) (sw : string) : string :=
  svg_document p (string_of_Z (int_total_width p))
    (string_of_Z (int_total_height p))
    (concat " " (map int_cmd_text (int_path p))) sw.

(** The points a path visits: the current point after each command. *)
Fixpoint vertices (pn : pen) (cs : list cmd) : list pen :=
  match cs with
  | [] => []
  | c :: t => step_pen pn c :: vertices (step_pen pn c) t
  end.

(** An integer point within [x0, x1] by [y0, y1]. *)
Definition in_box (x0 x1 y0 y1 : Z) (pn : pen) : Prop :=
  exists x y, pn = (PInt x, PInt y) /\ x0 <= x <= x1 /\ y0 <= y <= y1.

(** ** Floats that are integers *)

(** The 53-bit mantissa of a positive integer below [2^53]. *)
Definition canon_m (z : positive) : positive :=
  match (Zpos (digits2_pos z) - 53)%Z with
  | Zneg k => Pos.iter xO z k
  | _ => z
  end.

(** The float of a non-zero integer below [2^53], written out. *)
Definition int_m (z : Z) : positive := canon_m (Z.to_pos (Z.abs z)).
Definition int_e (z : Z) : Z := Zpos (digits2_pos (Z.to_pos (Z.abs z))) - 53.

(** ** The arguments written as floats *)

(** The float nearest to an integer argument: [24.0] for [24]. *)
Definition as_float (a : pynum) : pynum :=
  match a with
  | PInt z => PFloat (b64 z 0)
  | PFloat f => PFloat f
  end.

(** The same call with the five geometry arguments written as floats, as
    the signature annotates them. *)
Definition as_floats (p : params) : params := {|
  n_semicircles := n_semicircles p;
  R := as_float (R p);
  u_width := as_float (u_width p);
  u_depth := as_float (u_depth p);
  ext_above := as_float (ext_above p);
  stroke := stroke p;
  stroke_width := stroke_width p;
  margin := as_float (margin p);
  linecap := linecap p;
  linejoin := linejoin p;
  background := background p
|}.

Definition as_float_cmd (c : cmd) : cmd :=
  match c with
  | MoveTo x y => MoveTo (as_float x) (as_float y)
  | VLine y => VLine (as_float y)
  | HLine x => HLine (as_float x)
  | Arc rx ry rot la sw x y =>
      Arc (as_float rx) (as_float ry) rot la sw (as_float x) (as_float y)
  end.

Definition as_float_layout (l : layout) : layout := {|
  top_y := as_float (top_y l);
  baseline := as_float (baseline l);
  arc_apex_y := as_float (arc_apex_y l);
  pattern_width := as_float (pattern_width l);
  total_width := as_float (total_width l);
  total_height := as_float (total_height l)
|}.

(** ** One continuous path *)

Definition is_move (c : cmd) : bool :=
  match c with MoveTo _ _ => true | _ => false end.

(** ** Another repetition count *)

(** The same call with the repetition count [n]. *)
Definition with_repetitions (p : params) (n : Z) : params := {|
  n_semicircles := n;
  R := R p;
  u_width := u_width p;
  u_depth := u_depth p;
  ext_above := ext_above p;
  stroke := stroke p;
  stroke_width := stroke_width p;
  margin := margin p;
  linecap := linecap p;
  linejoin := linejoin p;
  background := background p
|}.

(** [arc_shape_svg(n)] with the numbers of the defaults as integers. *)
Definition default_ints (n : Z) : params :=
  call n (PInt 24) (PInt 16) (PInt 28) (PInt 12) (PInt 16).

(** ** The driver *)

(** What the driver (lines 108-131) asks of its environment: the file
    system and the standard output. *)
Inductive effect : Type :=
| Mkdir (dir : string)
| WriteText (dir file content : string)
| Print (line : string).

(** How a run of the driver ends: normally, with an exception of
    [arc_shape_svg], or with the exception the environment raised on a
    request. *)
Inductive ending (E : Type) : Type :=
| Finished
| Raised (e : exn)
| Failed (x : E).
Arguments Finished {E}.
Arguments Raised {E} e.
Arguments Failed {E} x.

Definition out_dir : string := ".".

Definition examples : list (string * Z) :=
  [("arc_out_1.svg", 1); ("arc_out_3.svg", 3); ("arc_out_6.svg", 6)].

(** Lines 120-129: the call of the loop body; [stroke] and [stroke_width]
    are passed the values of their defaults. *)
Definition example_params (n : Z) : params :=
  call n (fl 24 0) (fl 18 0) (fl 30 0) (fl 14 0) (fl 20 0).

Section Driver.

(** The environment is any: [perform] is its answer to a request, the
    world afterwards and the exception it raised, if any (an [OSError] of
    [write_text], say). *)
Variable world : Type.
Variable E : Type.
Variable perform : effect -> world -> world * option E.

(** Lines 119-131: the loop.  An exception, of [arc_shape_svg] or of the
    environment, ends the run; what was written and printed before it
    stays. *)
Fixpoint write_examples (exs : list (string * Z)) (w : world)
    : world * ending E :=
  match exs with
  | [] => (w, Finished)
  | (fname, n) :: rest =>
      match arc_shape_svg (example_params n) with
      | Raise e => (w, Raised e)
      | Ok content =>
          match perform (WriteText out_dir fname content) w with
          | (w1, Some x) => (w1, Failed x)
          | (w1, None) =>
              match perform (Print ("Wrote " ++ fname)) w1 with
              | (w2, Some x) => (w2, Failed x)
              | (w2, None) => write_examples rest w2
              end
          end
      end
  end.

(** Lines 108-131. *)
Definition main (w : world) : world * ending E :=
  match perform (Mkdir out_dir) w with
  | (w0, Some x) => (w0, Failed x)
  | (w0, None) => write_examples examples w0
  end.

(** A sequence of requests, up to the first one that fails. *)
Fixpoint perform_all (es : list effect) (w : world) : world * ending E :=
  match es with
  | [] => (w, Finished)
  | e :: rest =>
      match perform e w with
      | (w', Some x) => (w', Failed x)
      | (w', None) => perform_all rest w'
      end
  end.

End Driver.

Arguments write_examples {world E} perform exs w.
Arguments main {world E} perform w.
Arguments perform_all {world E} perform es w.

(** The loop body's call with the numbers as integers, and what the
    driver asks for an example whose call returns. *)
Definition example_ints (n : Z) : params :=
  call n (PInt 24) (PInt 18) (PInt 30) (PInt 14) (PInt 20).

Definition example_effects (ex : string * Z) : list effect :=
  [WriteText out_dir (fst ex) (int_document (example_ints (snd ex)) "2.5");
   Print ("Wrote " ++ fst ex)].

(** A sample environment: it keeps a log of what it did, and refuses to
    write to the empty file name, which names the directory itself. *)
Definition sample_perform (e : effect) (log : list effect)
    : list effect * option string :=
  match e with
  | WriteText _ EmptyString _ => (log, Some "IsADirectoryError")
  | _ => ((log ++ [e])%list, None)
  end.

(** ** The list [cmds] as an object *)

(** The list objects of the interpreter, by address.  [cmds = []] makes a
    new one, [cmds.append(s)] changes it in place, and [" ".join(cmds)]
    reads it. *)
Definition store : Type := list (list string).

Fixpoint set_nth {A : Type} (n : nat) (x : A) (l : list A) : list A :=
  match l, n with
  | [], _ => []
  | _ :: t, O => x :: t
  | h :: t, S n' => h :: set_nth n' x t
  end.

(** A statement may change the store, and returns or raises; the changes
    made before an exception stay. *)
Definition stmt (A : Type) : Type := store -> result A * store.

Definition ret {A : Type} (a : A) : stmt A := fun st => (Ok a, st).

(** An expression: it leaves the store alone. *)
Definition lift {A : Type} (r : result A) : stmt A := fun st => (r, st).

Definition seq_stmt {A B : Type} (m : stmt A) (k : A -> stmt B) : stmt B :=
  fun st =>
    match m st with
    | (Ok a, st') => k a st'
    | (Raise e, st') => (Raise e, st')
    end.

Notation "x <~ m ;; k" := (seq_stmt m (fun x => k))
  (at level 61, m at next level, right associativity).
Notation "m ;;~ k" := (seq_stmt m (fun _ => k))
  (at level 61, right associativity).

(** [[]] *)
Definition new_list : stmt nat :=
  fun st => (Ok (List.length st), (st ++ [[]])%list).

(** [cmds.append(s)] *)
Definition list_append (cmds : nat) (s : string) : stmt unit :=
  fun st => (Ok tt, set_nth cmds (nth cmds st [] ++ [s])%list st).

(** The items of [cmds], as [join] reads them. *)
Definition list_items (cmds : nat) : stmt (list string) :=
  fun st => (Ok (nth cmds st []), st).

(** [cmds.append(f"...")]: the text is formatted, then appended. *)
Definition append_text (cmds : nat) (c : cmd) : stmt unit :=
  s <~ lift (fmt_cmd c) ;; list_append cmds s.

Section InStore.

Variable p : params.
Variable l : layout.
Variable cmds : nat.

(** Lines 70-73 and 83-86. *)
Definition emit_U_in (x : pynum) : stmt pynum :=
  down <~ lift (py_add (baseline l) (u_depth p)) ;;
  append_text cmds (VLine down) ;;~
  x <~ lift (py_add x (u_width p)) ;;
  append_text cmds (HLine x) ;;~
  append_text cmds (VLine (baseline l)) ;;~
  ret x.

(** Lines 76-80. *)
Definition emit_arc_in (x : pynum) : stmt pynum :=
  r2 <~ lift (py_mul (PInt 2) (R p)) ;;
  x_arc_end <~ lift (py_add x r2) ;;
  append_text cmds (Arc (R p) (R p) 0 false true x_arc_end (baseline l)) ;;~
  ret x_arc_end.

(** Lines 68-80. *)
Fixpoint repeat_U_arc_in (n : nat) (x : pynum) : stmt pynum :=
  match n with
  | O => ret x
  | S n' =>
      x <~ emit_U_in x ;;
      x <~ emit_arc_in x ;;
      repeat_U_arc_in n' x
  end.

End InStore.

(** [arc_shape_svg], lines 17-104, with the list [cmds] in the store. *)
Definition arc_shape_svg_in (p : params) : stmt string :=
  l <~ lift (compute_layout p) ;;
  let x := margin p in
  cmds <~ new_list ;;
  append_text cmds (MoveTo x (baseline l)) ;;~
  append_text cmds (VLine (top_y l)) ;;~
  append_text cmds (VLine (baseline l)) ;;~
  x <~ repeat_U_arc_in p l cmds (Z.to_nat (n_semicircles p)) x ;;
  x <~ emit_U_in p l cmds x ;;
  append_text cmds (VLine (top_y l)) ;;~
  let left_x := margin p in
  append_text cmds (HLine left_x) ;;~
  items <~ list_items cmds ;;
  let path_d := concat " " items in
  w <~ lift (format_f 0 (total_width l)) ;;
  h <~ lift (format_f 0 (total_height l)) ;;
  sw <~ lift (py_str (stroke_width p)) ;;
  ret (svg_document p w h path_d sw).

(** The value of a step of the builder, without its list. *)
Definition value_of {A B : Type} (r : result (A * B)) : result A :=
  match r with
  | Ok (a, _) => Ok a
  | Raise e => Raise e
  end.

(** A step in the store does to the newest list object what the step of
    the builder does to its list, and returns what it returns; the older
    objects stay as they are, also when it raises. *)
Definition refines {A : Type} (st0 : store) (cs : list string)
    (run : result A * store) (pure : result (A * list string)) : Prop :=
  fst run = value_of pure /\
  exists cs', snd run = (st0 ++ [cs'])%list /\
    forall a cs2, pure = Ok (a, cs2) -> cs' = cs2.

(** [arc_shape_svg(1, R=24, u_width=16, u_depth=28, ext_above=12,
    stroke_width=10**5000, margin=16)] *)
Definition huge_stroke_params : params := {|
  n_semicircles := 1;
  R := PInt 24;
  u_width := PInt 16;
  u_depth := PInt 28;
  ext_above := PInt 12;
  stroke := "black";
  stroke_width := PInt (10 ^ 5000);
  margin := PInt 16;
  linecap := "round";
  linejoin := "round";
  background := "white"
|}.

(** ** The result monad *)

Lemma bind_Ok_inv {A B : Type} (r : result A) (k : A -> result B) (b : B) :
  bind r k = Ok b -> exists a, r = Ok a /\ k a = Ok b.
Proof.
  destruct r as [a | e]; simpl; intros H; [eauto | discriminate].
Qed.

Lemma bind_Raise_inv {A B : Type} (r : result A) (k : A -> result B) e :
  bind r k = Raise e -> r = Raise e \/ exists a, r = Ok a /\ k a = Raise e.
Proof.
  destruct r as [a | e']; simpl; intros H; [right; eauto | left; congruence].
Qed.

(** Inversion of a successful chain of binds. *)
Ltac inv_ok :=
  repeat match goal with
  | H : bind ?r _ = Ok _ |- _ =>
      let E := fresh "E" in
      destruct r eqn:E; cbn [bind] in H; [| discriminate H]
  | H : Ok _ = Ok _ |- _ => inversion H; subst; clear H
  | H : Raise _ = Ok _ |- _ => discriminate H
  end.

Lemma mapM_app {A B : Type} (f : A -> result B) (xs ys : list A) ts :
  mapM f (xs ++ ys) = Ok ts <->
  exists ta tb, mapM f xs = Ok ta /\ mapM f ys = Ok tb /\ ts = (ta ++ tb)%list.
Proof.
  revert ts. induction xs as [| x xs IH]; intros ts; simpl.
  - split.
    + intros H. exists [], ts. auto.
    + intros (ta & tb & Ha & Hb & ->). inv_ok. exact Hb.
  - split.
    + intros H. inv_ok.
      destruct (proj1 (IH _) eq_refl) as (ta & tb & Ha & Hb & ->).
      rewrite Ha. cbn [bind]. exists (a :: ta), tb. auto.
    + intros (ta & tb & Ha & Hb & ->). inv_ok.
      assert (Hx : mapM f (xs ++ ys) = Ok (a0 ++ tb)%list)
        by (apply IH; eauto).
      rewrite Hx. reflexivity.
Qed.

Lemma mapM_cons_inv {A B : Type} (f : A -> result B) x (xs : list A) ts :
  mapM f (x :: xs) = Ok ts ->
  exists y ys, f x = Ok y /\ mapM f xs = Ok ys /\ ts = y :: ys.
Proof.
  cbn [mapM]. intros H.
  apply bind_Ok_inv in H as (y & Hy & H).
  apply bind_Ok_inv in H as (ys & Hys & H).
  exists y, ys. repeat split; congruence.
Qed.

Lemma mapM_Ok {A : Type} (xs : list A) : mapM (@Ok A) xs = Ok xs.
Proof.
  induction xs as [| x xs IH]; simpl; [| rewrite IH]; reflexivity.
Qed.

Lemma mapM_In {A B : Type} (f : A -> result B) (xs : list A) ts x :
  mapM f xs = Ok ts -> In x xs -> exists t, f x = Ok t /\ In t ts.
Proof.
  revert ts. induction xs as [| y xs IH]; intros ts H Hin; [destruct Hin |].
  simpl in H. inv_ok. destruct Hin as [-> | Hin].
  - exists a. split; [assumption | left; reflexivity].
  - destruct (IH _ eq_refl Hin) as (t & Ht & Hin').
    exists t. split; [assumption | right; assumption].
Qed.

(** ** The path, command by command *)

Section PathSpec.

Context {C : Type}.
Variable render : cmd -> result C.
Variable p : params.
Variable l : layout.

Lemma emit_U_spec x ss x1 ss1 :
  emit_U render p l (x, ss) = Ok (x1, ss1) <->
  exists down t1 t2 t3,
    py_add (baseline l) (u_depth p) = Ok down /\
    py_add x (u_width p) = Ok x1 /\
    render (VLine down) = Ok t1 /\
    render (HLine x1) = Ok t2 /\
    render (VLine (baseline l)) = Ok t3 /\
    ss1 = (ss ++ [t1; t2; t3])%list.
Proof.
  unfold emit_U, append_cmd. split.
  - intros H. inv_ok. do 4 eexists. repeat split; eauto.
    rewrite <- !app_assoc. reflexivity.
  - intros (down & t1 & t2 & t3 & Hd & Hx & H1 & H2 & H3 & ->).
    rewrite Hd; cbn [bind]. rewrite H1; cbn [bind].
    rewrite Hx; cbn [bind]. rewrite H2; cbn [bind].
    rewrite H3; cbn [bind]. rewrite <- !app_assoc. reflexivity.
Qed.

Lemma emit_arc_spec x ss x2 ss2 :
  emit_arc render p l (x, ss) = Ok (x2, ss2) <->
  exists r2 t,
    py_mul (PInt 2) (R p) = Ok r2 /\
    py_add x r2 = Ok x2 /\
    render (Arc (R p) (R p) 0 false true x2 (baseline l)) = Ok t /\
    ss2 = (ss ++ [t])%list.
Proof.
  unfold emit_arc, append_cmd. split.
  - intros H. inv_ok. do 2 eexists. repeat split; eauto.
  - intros (r2 & t & Hr & Hx & Ht & ->).
    rewrite Hr; cbn [bind]. rewrite Hx; cbn [bind].
    rewrite Ht; cbn [bind]. reflexivity.
Qed.

Lemma repeat_U_arc_spec n : forall x ss x' ss',
  repeat_U_arc render p l n (x, ss) = Ok (x', ss') <->
  exists body ts,
    reps p l n x body x' /\ mapM render body = Ok ts /\
    ss' = (ss ++ ts)%list.
Proof.
  induction n as [| n IH]; intros x ss x' ss'; cbn [repeat_U_arc].
  - split.
    + intros H. inv_ok. exists [], []. repeat split.
      * constructor.
      * rewrite app_nil_r. reflexivity.
    + intros (body & ts & Hr & Hm & ->). inversion Hr; subst.
      simpl in Hm. inv_ok. rewrite app_nil_r. reflexivity.
  - split.
    + intros H.
      destruct (emit_U render p l (x, ss)) as [[x1 ss1] | ?] eqn:EU;
        cbn [bind] in H; [| discriminate].
      destruct (emit_arc render p l (x1, ss1)) as [[x2 ss2] | ?] eqn:EA;
        cbn [bind] in H; [| discriminate].
      apply emit_U_spec in EU.
      destruct EU as (down & t1 & t2 & t3 & Hd & Hx & H1 & H2 & H3 & ->).
      apply emit_arc_spec in EA.
      destruct EA as (r2 & t & Hr & Hx2 & Ht & ->).
      apply IH in H. destruct H as (body & ts & Hb & Hm & ->).
      exists (VLine down :: HLine x1 :: VLine (baseline l) ::
              Arc (R p) (R p) 0 false true x2 (baseline l) :: body),
             (t1 :: t2 :: t3 :: t :: ts).
      repeat split.
      * econstructor; eauto.
      * cbn [mapM]. rewrite H1, H2, H3, Ht, Hm. reflexivity.
      * rewrite <- !app_assoc. reflexivity.
    + intros (body & ts & Hr & Hm & ->).
      inversion Hr as [| n0 x0 down x1 r2 x2 body0 x0' Hd Hx1 Hr2 Hx2 Hb];
        subst.
      apply mapM_cons_inv in Hm as (t1 & tl1 & H1 & Hm & ->).
      apply mapM_cons_inv in Hm as (t2 & tl2 & H2 & Hm & ->).
      apply mapM_cons_inv in Hm as (t3 & tl3 & H3 & Hm & ->).
      apply mapM_cons_inv in Hm as (t4 & tl4 & H4 & Hm & ->).
      assert (EU : emit_U render p l (x, ss) =
                   Ok (x1, (ss ++ [t1; t2; t3])%list)).
      { apply emit_U_spec. do 4 eexists. repeat split; eauto. }
      assert (EA : emit_arc render p l (x1, (ss ++ [t1; t2; t3])%list) =
                   Ok (x2, ((ss ++ [t1; t2; t3]) ++ [t4])%list)).
      { apply emit_arc_spec. do 2 eexists. repeat split; eauto. }
      rewrite EU; cbn [bind]. rewrite EA; cbn [bind].
      apply IH. exists body0, tl4. repeat split; auto.
      rewrite <- !app_assoc. reflexivity.
Qed.

(** The list built is the rendering of a path of the expected shape. *)
Lemma build_path_spec ss :
  build_path render p l = Ok ss <->
  exists cs, path_shape p l cs /\ mapM render cs = Ok ss.
Proof.
  unfold build_path, path_shape. split.
  - intros H. unfold append_cmd at 1 2 3 in H.
    destruct (render (MoveTo (margin p) (baseline l))) as [t1 | ?] eqn:E1;
      cbn [bind] in H; [| discriminate].
    destruct (render (VLine (top_y l))) as [t2 | ?] eqn:E2;
      cbn [bind] in H; [| discriminate].
    destruct (render (VLine (baseline l))) as [t3 | ?] eqn:E3;
      cbn [bind] in H; [| discriminate].
    cbn [app] in H.
    destruct (repeat_U_arc render p l (Z.to_nat (n_semicircles p))
                (margin p, [t1; t2; t3])) as [[xe sse] | ?] eqn:ER;
      cbn [bind] in H; [| discriminate].
    destruct (emit_U render p l (xe, sse)) as [[xf ssf] | ?] eqn:EU;
      cbn [bind] in H; [| discriminate].
    unfold append_cmd in H. rewrite E2 in H. cbn [bind] in H.
    destruct (render (HLine (margin p))) as [t5 | ?] eqn:E5;
      cbn [bind] in H; [| discriminate].
    inv_ok.
    apply repeat_U_arc_spec in ER.
    destruct ER as (body & ts & Hr & Hm & ->).
    apply emit_U_spec in EU.
    destruct EU as (down & u1 & u2 & u3 & Hd & Hx & H1 & H2 & H3 & ->).
    eexists. split.
    + exists body, xe, down, xf. repeat split; eauto.
    + apply mapM_app. exists [t1; t2; t3], (ts ++ [u1; u2; u3; t2; t5])%list.
      repeat split.
      * cbn [mapM]. rewrite E1, E2, E3. reflexivity.
      * apply mapM_app. exists ts, [u1; u2; u3; t2; t5]. repeat split; auto.
        cbn [mapM]. rewrite H1, H2, H3, E2, E5. reflexivity.
      * cbn [app]. rewrite <- !app_assoc. reflexivity.
  - intros (cs & (body & xe & down & xf & Hr & Hd & Hx & ->) & Hm).
    apply mapM_app in Hm. destruct Hm as (ta & tb & Ha & Hb & ->).
    apply mapM_app in Hb. destruct Hb as (ts & tc & Hb & Hc & ->).
    cbn [mapM] in Ha, Hc.
    destruct (render (MoveTo (margin p) (baseline l))) as [t1 | ?] eqn:E1;
      cbn [bind] in Ha; [| discriminate].
    destruct (render (VLine (top_y l))) as [t2 | ?] eqn:E2;
      cbn [bind] in Ha, Hc; [| discriminate].
    destruct (render (VLine (baseline l))) as [t3 | ?] eqn:E3;
      cbn [bind] in Ha, Hc; [| discriminate].
    destruct (render (VLine down)) as [u1 | ?] eqn:E4;
      cbn [bind] in Hc; [| discriminate].
    destruct (render (HLine xf)) as [u2 | ?] eqn:E5;
      cbn [bind] in Hc; [| discriminate].
    destruct (render (HLine (margin p))) as [t5 | ?] eqn:E6;
      cbn [bind] in Hc; [| discriminate].
    inv_ok.
    unfold append_cmd at 1 2 3.
    rewrite E1; cbn [bind]. rewrite E2; cbn [bind]. rewrite E3; cbn [bind].
    cbn [app].
    assert (ER : repeat_U_arc render p l (Z.to_nat (n_semicircles p))
                   (margin p, [t1; t2; t3]) =
                 Ok (xe, ([t1; t2; t3] ++ ts)%list)).
    { apply repeat_U_arc_spec. exists body, ts. auto. }
    rewrite ER; cbn [bind].
    assert (EU : emit_U render p l (xe, ([t1; t2; t3] ++ ts)%list) =
                 Ok (xf, (([t1; t2; t3] ++ ts) ++ [u1; u2; t3])%list)).
    { apply emit_U_spec. do 4 eexists. repeat split; eauto. }
    rewrite EU; cbn [bind]. unfold append_cmd.
    rewrite E2; cbn [bind]. rewrite E6; cbn [bind].
    rewrite <- !app_assoc. reflexivity.
Qed.

End PathSpec.

Lemma path_cmds_shape p l cs :
  path_cmds p l = Ok cs <-> path_shape p l cs.
Proof.
  unfold path_cmds. rewrite build_path_spec. split.
  - intros (cs' & Hs & Hm). rewrite mapM_Ok in Hm. congruence.
  - intros Hs. exists cs. split; [assumption | apply mapM_Ok].
Qed.

(** A call returns a document exactly when it leaves a trace. *)
Lemma arc_shape_svg_emitted p doc :
  arc_shape_svg p = Ok doc <-> exists t, emitted p doc t.
Proof.
  unfold arc_shape_svg, emitted. split.
  - intros H.
    apply bind_Ok_inv in H as (l & Hl & H).
    apply bind_Ok_inv in H as (ss & Hss & H).
    apply bind_Ok_inv in H as (w & Hw & H).
    apply bind_Ok_inv in H as (h & Hh & H).
    apply bind_Ok_inv in H as (sw & Hsw & H).
    destruct (proj1 (build_path_spec fmt_cmd p l ss) Hss) as (cs & Hs & Hm).
    exists {| t_layout := l; t_cmds := cs; t_texts := ss;
              t_width := w; t_height := h; t_stroke_width := sw |}.
    injection H as <-.
    repeat split;
      cbn [t_layout t_cmds t_texts t_width t_height t_stroke_width];
      try assumption.
    apply path_cmds_shape. assumption.
  - intros (t & Hl & _ & Hss & _ & Hw & Hh & Hsw & ->).
    rewrite Hl; cbn [bind]. rewrite Hss; cbn [bind].
    rewrite Hw; cbn [bind]. rewrite Hh; cbn [bind].
    rewrite Hsw; cbn [bind]. reflexivity.
Qed.

(** ** The shape of the path *)

Lemma all_suffixes_app P pre : forall pn suf,
  all_suffixes P pn (pre ++ suf) -> P (run_pen pn pre) suf.
Proof.
  induction pre as [| c pre IH]; intros pn suf H.
  - destruct suf; apply H.
  - cbn in H. destruct H as [_ H]. apply (IH _ _ H).
Qed.

Lemma run_pen_app pn cs1 cs2 :
  run_pen pn (cs1 ++ cs2) = run_pen (run_pen pn cs1) cs2.
Proof. apply fold_left_app. Qed.

Lemma count_arcs_app cs1 cs2 :
  count_arcs (cs1 ++ cs2) = (count_arcs cs1 + count_arcs cs2)%nat.
Proof. unfold count_arcs. rewrite filter_app, length_app. reflexivity. Qed.

Section Reps.

Variable p : params.
Variable l : layout.

Lemma reps_count_arcs n x body x' :
  reps p l n x body x' -> count_arcs body = n.
Proof.
  induction 1 as [| n x down x1 r2 x2 body x' _ _ _ _ _ IH];
    [reflexivity |].
  unfold count_arcs in *. cbn. rewrite IH. reflexivity.
Qed.

(** Whatever follows the repetitions starts, like each of them, with a
    vertical line. *)
Lemma reps_head n x body x' y rest :
  reps p l n x body x' ->
  exists y' rest', (body ++ VLine y :: rest)%list = VLine y' :: rest'.
Proof. destruct 1; cbn; eauto. Qed.

Lemma reps_count_U n x body x' y rest :
  reps p l n x body x' ->
  count_U (body ++ VLine y :: rest) = (n + count_U (VLine y :: rest))%nat.
Proof.
  induction 1 as [| n x down x1 r2 x2 body x' _ _ _ _ Hr IH];
    [reflexivity |].
  cbn [app]. cbn [count_U]. rewrite IH. reflexivity.
Qed.

Lemma reps_run_pen n x body x' :
  reps p l n x body x' ->
  run_pen (x, baseline l) body = (x', baseline l).
Proof.
  induction 1 as [| n x down x1 r2 x2 body x' _ _ _ _ _ IH];
    [reflexivity |].
  cbn. exact IH.
Qed.

Lemma reps_well_placed n x body x' rest :
  reps p l n x body x' ->
  all_suffixes (well_placed p l) (x', baseline l) rest ->
  all_suffixes (well_placed p l) (x, baseline l) (body ++ rest).
Proof.
  induction 1 as [| n x down x1 r2 x2 body x' Hd Hx Hr Hx2 _ IH];
    intros Hrest; [exact Hrest |].
  specialize (IH Hrest). cbn [app all_suffixes step_pen fst snd].
  unfold well_placed at 1 2 3 4. cbn [U_here arc_here fst snd].
  rewrite Hr. cbn [bind].
  repeat split; auto.
  (* the window starting at the upward stroke is followed by the arc *)
  all: try exact IH.
Qed.

End Reps.

(** What a computed layout is made of. *)
Lemma compute_layout_inv p l :
  compute_layout p = Ok l ->
  1 <= n_semicircles p /\
  py_gt (ext_above p) (PInt 0) = true /\
  top_y l = margin p /\
  ('(margin p) + '(R p) + '(ext_above p))%py = Ok (baseline l) /\
  py_sub (baseline l) (R p) = Ok (arc_apex_y l) /\
  py_lt (top_y l) (arc_apex_y l) = true /\
  ('(PInt (n_semicircles p)) * ('(u_width p) + '(PInt 2) * '(R p))
     + '(u_width p))%py = Ok (pattern_width l) /\
  ('(pattern_width l) + '(PInt 2) * '(margin p))%py = Ok (total_width l) /\
  ('(baseline l) + '(u_depth p) + '(margin p))%py = Ok (total_height l).
Proof.
  unfold compute_layout. intros H.
  destruct (1 <=? n_semicircles p) eqn:Hn; cbn [py_assert bind] in H;
    [| discriminate].
  destruct (py_gt (ext_above p) (PInt 0)) eqn:He; cbn [py_assert bind] in H;
    [| discriminate].
  apply bind_Ok_inv in H as (t & Ht & H).
  apply bind_Ok_inv in H as (b & Hb & H).
  apply bind_Ok_inv in H as (a & Ha & H).
  destruct (py_lt (margin p) a) eqn:Hlt; cbn [py_assert bind] in H;
    [| discriminate].
  apply bind_Ok_inv in H as (r2 & Hr2 & H).
  apply bind_Ok_inv in H as (per & Hper & H).
  apply bind_Ok_inv in H as (rp & Hrp & H).
  apply bind_Ok_inv in H as (pw & Hpw & H).
  apply bind_Ok_inv in H as (m2 & Hm2 & H).
  apply bind_Ok_inv in H as (tw & Htw & H).
  apply bind_Ok_inv in H as (bd & Hbd & H).
  apply bind_Ok_inv in H as (th & Hth & H).
  injection H as <-. cbn [top_y baseline arc_apex_y pattern_width
                          total_width total_height].
  unfold lift2. cbn [bind].
  rewrite Ht; cbn [bind]. rewrite Hr2; cbn [bind].
  rewrite Hper; cbn [bind]. rewrite Hrp; cbn [bind].
  rewrite Hm2; cbn [bind]. rewrite Hbd; cbn [bind].
  repeat split; auto. apply Z.leb_le. exact Hn.
Qed.

Section Shape.

Variable p : params.
Variable l : layout.
Variable cs : list cmd.
Hypothesis Hshape : path_shape p l cs.

Lemma shape_count_arcs : count_arcs cs = Z.to_nat (n_semicircles p).
Proof.
  destruct Hshape as (body & xe & down & xf & Hr & _ & _ & ->).
  rewrite !count_arcs_app, (reps_count_arcs _ _ _ _ _ _ Hr).
  unfold count_arcs. cbn. lia.
Qed.

Lemma shape_count_U : count_U cs = S (Z.to_nat (n_semicircles p)).
Proof.
  destruct Hshape as (body & xe & down & xf & Hr & _ & _ & ->).
  destruct (reps_head _ _ _ _ _ _ down
              [HLine xf; VLine (baseline l); VLine (top_y l);
               HLine (margin p)] Hr) as (y' & rest' & Hhd).
  cbn [app]. rewrite Hhd.
  change (count_U (MoveTo (margin p) (baseline l) :: VLine (top_y l) ::
                   VLine (baseline l) :: VLine y' :: rest'))
    with (count_U (VLine y' :: rest')).
  rewrite <- Hhd, (reps_count_U _ _ _ _ _ _ _ _ Hr). cbn. lia.
Qed.

Lemma shape_well_placed : all_suffixes (well_placed p l) origin cs.
Proof.
  destruct Hshape as (body & xe & down & xf & Hr & Hd & Hx & ->).
  destruct (reps_head _ _ _ _ _ _ down
              [HLine xf; VLine (baseline l); VLine (top_y l);
               HLine (margin p)] Hr) as (y' & rest' & Hhd).
  cbn [app all_suffixes step_pen origin fst snd].
  split; [split; exact I |].
  split; [split; exact I |].
  split; [rewrite Hhd; split; exact I |].
  apply (reps_well_placed _ _ _ _ _ _ _ Hr).
  cbn [all_suffixes step_pen fst snd].
  unfold well_placed. cbn [U_here arc_here fst snd].
  repeat split; auto.
Qed.

Lemma shape_ends :
  exists mid xr,
    cs = (MoveTo (margin p) (baseline l) :: VLine (top_y l) :: mid ++
          [VLine (top_y l); HLine (margin p)])%list /\
    run_pen origin
      (MoveTo (margin p) (baseline l) :: VLine (top_y l) :: mid ++
       [VLine (top_y l)]) = (xr, top_y l).
Proof.
  destruct Hshape as (body & xe & down & xf & Hr & Hd & Hx & ->).
  exists (VLine (baseline l) :: body ++
          [VLine down; HLine xf; VLine (baseline l)])%list, xf.
  split.
  - cbn [app]. rewrite <- !app_assoc. reflexivity.
  - cbn [app]. unfold run_pen. cbn [fold_left step_pen origin fst snd].
    rewrite <- app_assoc, fold_left_app.
    fold (run_pen (margin p, baseline l) body).
    rewrite (reps_run_pen _ _ _ _ _ _ Hr). reflexivity.
Qed.

End Shape.

(** ** The letters of the texts *)

Lemma fmt_cmd_head c s : fmt_cmd c = Ok s -> head_char s = cmd_letter c.
Proof.
  destruct c; cbn [fmt_cmd]; intros H;
    repeat (let a := fresh "a" in
            apply bind_Ok_inv in H as (a & _ & H));
    injection H as <-; reflexivity.
Qed.

Lemma mapM_fmt_cmd_letters cs : forall ss,
  mapM fmt_cmd cs = Ok ss -> map head_char ss = map cmd_letter cs.
Proof.
  induction cs as [| c cs IH]; intros ss H.
  - cbn in H. injection H as <-. reflexivity.
  - apply mapM_cons_inv in H as (s & ss' & Hs & Hss & ->).
    cbn [map]. rewrite (fmt_cmd_head _ _ Hs), (IH _ Hss). reflexivity.
Qed.

Lemma count_arcs_letters cs :
  count_arcs cs = count_letter "A" (map cmd_letter cs).
Proof.
  unfold count_arcs, count_letter.
  induction cs as [| c cs IH]; [reflexivity |].
  destruct c; cbn in *; rewrite ?IH; reflexivity.
Qed.

Lemma count_U_letters cs : count_U cs = count_VHV (map cmd_letter cs).
Proof.
  induction cs as [| c1 cs IH]; [reflexivity |].
  destruct cs as [| c2 [| c3 cs]].
  - destruct c1; reflexivity.
  - destruct c1, c2; reflexivity.
  - destruct c1, c2, c3;
      cbn [count_U map cmd_letter count_VHV Ascii.eqb Bool.eqb andb] in *;
      rewrite IH; reflexivity.
Qed.

(** ** The claims about the path *)

Lemma emitted_shape p doc t :
  emitted p doc t -> path_shape p (t_layout t) (t_cmds t).
Proof. intros (_ & Hc & _). apply path_cmds_shape. exact Hc. Qed.

Lemma emitted_n p doc t :
  emitted p doc t -> Z.of_nat (Z.to_nat (n_semicircles p)) = n_semicircles p.
Proof.
  intros (Hl & _). apply compute_layout_inv in Hl. lia.
Qed.

(** C3: a call with repetition count [n] that returns emitted exactly [n]
    arc commands and exactly [n + 1] down/right/up triples, in the commands
    as in their texts (by their letters [A] and [V], [H], [V]), and every
    such triple is a U: it starts on the baseline at the cursor [x0], goes
    down to [baseline + u_depth], right to [x0 + u_width] and back up to
    the baseline. *)
Theorem C3_arcs_and_U_shapes p doc :
  arc_shape_svg p = Ok doc ->
  exists t, emitted p doc t /\
    Z.of_nat (count_arcs (t_cmds t)) = n_semicircles p /\
    Z.of_nat (count_U (t_cmds t)) = n_semicircles p + 1 /\
    Z.of_nat (count_letter "A" (map head_char (t_texts t)))
      = n_semicircles p /\
    Z.of_nat (count_VHV (map head_char (t_texts t)))
      = n_semicircles p + 1 /\
    forall pre y1 x2 y3 post,
      t_cmds t = (pre ++ VLine y1 :: HLine x2 :: VLine y3 :: post)%list ->
      exists x0,
        run_pen origin pre = (x0, baseline (t_layout t)) /\
        ('(baseline (t_layout t)) + '(u_depth p))%py = Ok y1 /\
        ('x0 + '(u_width p))%py = Ok x2 /\
        y3 = baseline (t_layout t).
Proof.
  intros H. apply arc_shape_svg_emitted in H as (t & Ht).
  exists t. split; [exact Ht |].
  pose proof (emitted_shape _ _ _ Ht) as Hs.
  pose proof (emitted_n _ _ _ Ht) as Hn.
  assert (Hletters : map head_char (t_texts t) = map cmd_letter (t_cmds t))
    by (apply mapM_fmt_cmd_letters; apply Ht).
  rewrite Hletters, <- count_arcs_letters, <- count_U_letters.
  repeat split.
  - rewrite (shape_count_arcs _ _ _ Hs). exact Hn.
  - rewrite (shape_count_U _ _ _ Hs). lia.
  - rewrite (shape_count_arcs _ _ _ Hs). exact Hn.
  - rewrite (shape_count_U _ _ _ Hs). lia.
  - intros pre y1 x2 y3 post Hcs.
    pose proof (shape_well_placed _ _ _ Hs) as Hw. rewrite Hcs in Hw.
    apply all_suffixes_app in Hw. destruct Hw as [HU _].
    destruct (run_pen origin pre) as [x0 y0].
    cbn [U_here fst snd] in HU. destruct HU as (Hy0 & Hd & Hx & Hy3).
    exists x0. subst y0. repeat split; assumption.
Qed.

Lemma C3_arcs_and_U_shapes_witness :
  exists t, emitted (default_params 1) doc_1 t /\
    Z.of_nat (count_arcs (t_cmds t)) = 1 /\
    Z.of_nat (count_U (t_cmds t)) = 1 + 1 /\
    Z.of_nat (count_letter "A" (map head_char (t_texts t))) = 1 /\
    Z.of_nat (count_VHV (map head_char (t_texts t))) = 1 + 1 /\
    forall pre y1 x2 y3 post,
      t_cmds t = (pre ++ VLine y1 :: HLine x2 :: VLine y3 :: post)%list ->
      exists x0,
        run_pen origin pre = (x0, baseline (t_layout t)) /\
        ('(baseline (t_layout t)) + '(PFloat (b64 28 0)))%py = Ok y1 /\
        ('x0 + '(PFloat (b64 16 0)))%py = Ok x2 /\
        y3 = baseline (t_layout t).
Proof.
  apply (C3_arcs_and_U_shapes (default_params 1) doc_1).
  vm_compute. reflexivity.
Defined.

(** C4: the first command of a returned path is a move to
    [(margin, baseline)]; the second raises the left end-cap to
    [(margin, top)]; the last is a horizontal line to [x = margin], drawn
    from the top of the right end-cap, so it ends at [(margin, top)].  In
    the text the first command reads [M margin,baseline] and the last
    [H margin], both with two decimals. *)
Theorem C4_first_and_last_command p doc :
  arc_shape_svg p = Ok doc ->
  exists t, emitted p doc t /\
    let l := t_layout t in
    hd_error (t_cmds t) = Some (MoveTo (margin p) (baseline l)) /\
    run_pen origin (firstn 2 (t_cmds t)) = (margin p, top_y l) /\
    (exists front xr,
       t_cmds t = (front ++ [HLine (margin p)])%list /\
       run_pen origin front = (xr, top_y l) /\
       run_pen origin (t_cmds t) = (margin p, top_y l)) /\
    (exists sm sb,
       format_f 2 (margin p) = Ok sm /\
       format_f 2 (baseline l) = Ok sb /\
       hd_error (t_texts t) = Some ("M " ++ sm ++ "," ++ sb) /\
       last (t_texts t) EmptyString = "H " ++ sm).
Proof.
  intros H. apply arc_shape_svg_emitted in H as (t & Ht).
  exists t. split; [exact Ht |]. cbn zeta.
  pose proof (emitted_shape _ _ _ Ht) as Hs.
  destruct (shape_ends _ _ _ Hs) as (mid & xr & Hcs & Hpen).
  destruct Ht as (_ & _ & _ & Hm & _).
  set (l := t_layout t) in *.
  assert (Hsplit : t_cmds t =
            ((MoveTo (margin p) (baseline l) :: VLine (top_y l) ::
              mid ++ [VLine (top_y l)]) ++ [HLine (margin p)])%list).
  { rewrite Hcs. cbn [app]. rewrite <- app_assoc. reflexivity. }
  split; [rewrite Hcs; reflexivity |].
  split; [rewrite Hcs; reflexivity |].
  split.
  - do 2 eexists. split; [exact Hsplit |]. split; [exact Hpen |].
    rewrite Hsplit, run_pen_app, Hpen. reflexivity.
  - rewrite Hsplit in Hm.
    apply mapM_app in Hm as (ta & tb & Ha & Hb & Htexts).
    apply mapM_cons_inv in Ha as (t1 & ta' & H1 & _ & ->).
    apply mapM_cons_inv in Hb as (t4 & tb' & H4 & Hnil & ->).
    cbn [mapM] in Hnil. injection Hnil as <-.
    cbn [fmt_cmd] in H1, H4.
    apply bind_Ok_inv in H1 as (sm & Hsm & H1).
    apply bind_Ok_inv in H1 as (sb & Hsb & H1).
    rewrite Hsm in H4. cbn [bind] in H4.
    injection H1 as <-. injection H4 as <-.
    exists sm, sb. rewrite Htexts.
    repeat split; auto. apply last_last.
Qed.

Lemma C4_first_and_last_command_witness :
  exists t, emitted (default_params 1) doc_1 t /\
    let l := t_layout t in
    hd_error (t_cmds t) = Some (MoveTo (PFloat (b64 16 0)) (baseline l)) /\
    run_pen origin (firstn 2 (t_cmds t)) = (PFloat (b64 16 0), top_y l) /\
    (exists front xr,
       t_cmds t = (front ++ [HLine (PFloat (b64 16 0))])%list /\
       run_pen origin front = (xr, top_y l) /\
       run_pen origin (t_cmds t) = (PFloat (b64 16 0), top_y l)) /\
    (exists sm sb,
       format_f 2 (PFloat (b64 16 0)) = Ok sm /\
       format_f 2 (baseline l) = Ok sb /\
       hd_error (t_texts t) = Some ("M " ++ sm ++ "," ++ sb) /\
       last (t_texts t) EmptyString = "H " ++ sm).
Proof.
  apply (C4_first_and_last_command (default_params 1) doc_1).
  vm_compute. reflexivity.
Defined.

(** C7: a returned path has one arc command per semicircle, in the
    commands as in their texts, and every arc command in it has both radii equal to [R], rotation 0, large-arc flag
    0 and sweep flag 1, starts on the baseline at the cursor [x0] and ends
    on the baseline at [x0 + 2 * R]; its text is
    [A R,R 0 0 1 x,baseline].  The flags are constants of the code: they
    do not depend on the parameters. *)
Theorem C7_arc_command p doc :
  arc_shape_svg p = Ok doc ->
  exists t, emitted p doc t /\
    let l := t_layout t in
    Z.of_nat (count_arcs (t_cmds t)) = n_semicircles p /\
    Z.of_nat (count_letter "A" (map head_char (t_texts t)))
      = n_semicircles p /\
    forall pre rx ry rot la sw x y post,
      t_cmds t = (pre ++ Arc rx ry rot la sw x y :: post)%list ->
      rx = R p /\ ry = R p /\ rot = 0 /\ la = false /\ sw = true /\
      y = baseline l /\
      (exists x0,
         run_pen origin pre = (x0, baseline l) /\
         ('x0 + '(PInt 2) * '(R p))%py = Ok x) /\
      (exists sr sx sy,
         format_f 2 (R p) = Ok sr /\
         format_f 2 x = Ok sx /\
         format_f 2 (baseline l) = Ok sy /\
         fmt_cmd (Arc rx ry rot la sw x y) =
           Ok ("A " ++ sr ++ "," ++ sr ++ " 0 0 1 " ++ sx ++ "," ++ sy)).
Proof.
  intros H. apply arc_shape_svg_emitted in H as (t & Ht).
  exists t. split; [exact Ht |]. cbn zeta.
  pose proof (emitted_shape _ _ _ Ht) as Hs.
  pose proof (emitted_n _ _ _ Ht) as Hn.
  split; [| split].
  - rewrite (shape_count_arcs _ _ _ Hs). exact Hn.
  - rewrite (mapM_fmt_cmd_letters (t_cmds t)) by apply Ht.
    rewrite <- count_arcs_letters, (shape_count_arcs _ _ _ Hs). exact Hn.
  - intros pre rx ry rot la sw x y post Hcs.
    pose proof (shape_well_placed _ _ _ Hs) as Hw. rewrite Hcs in Hw.
    apply all_suffixes_app in Hw. destruct Hw as [_ HA].
    destruct (run_pen origin pre) as [x0 y0].
    cbn [arc_here fst snd] in HA.
    destruct HA as (-> & -> & -> & -> & -> & Hy0 & -> & Hx).
    subst y0. do 6 (split; [reflexivity |]). split.
    + exists x0. split; [reflexivity | exact Hx].
    + destruct Ht as (_ & _ & _ & Hm & _). rewrite Hcs in Hm.
      apply mapM_app in Hm as (ta & tb & _ & Hb & _).
      apply mapM_cons_inv in Hb as (ta' & tb' & Harc & _).
      cbn [fmt_cmd] in Harc |- *.
      apply bind_Ok_inv in Harc as (sr & Hsr & Harc).
      rewrite Hsr in Harc |- *. cbn [bind] in Harc |- *.
      apply bind_Ok_inv in Harc as (sx & Hsx & Harc).
      apply bind_Ok_inv in Harc as (sy & Hsy & Harc).
      rewrite Hsx, Hsy. cbn [bind].
      exists sr, sx, sy. repeat split; reflexivity.
Qed.

Lemma C7_arc_command_witness :
  exists t, emitted (default_params 1) doc_1 t /\
    let l := t_layout t in
    Z.of_nat (count_arcs (t_cmds t)) = 1 /\
    Z.of_nat (count_letter "A" (map head_char (t_texts t))) = 1 /\
    forall pre rx ry rot la sw x y post,
      t_cmds t = (pre ++ Arc rx ry rot la sw x y :: post)%list ->
      rx = PFloat (b64 24 0) /\ ry = PFloat (b64 24 0) /\ rot = 0 /\
      la = false /\ sw = true /\
      y = baseline l /\
      (exists x0,
         run_pen origin pre = (x0, baseline l) /\
         ('x0 + '(PInt 2) * '(PFloat (b64 24 0)))%py = Ok x) /\
      (exists sr sx sy,
         format_f 2 (PFloat (b64 24 0)) = Ok sr /\
         format_f 2 x = Ok sx /\
         format_f 2 (baseline l) = Ok sy /\
         fmt_cmd (Arc rx ry rot la sw x y) =
           Ok ("A " ++ sr ++ "," ++ sr ++ " 0 0 1 " ++ sx ++ "," ++ sy)).
Proof.
  apply (C7_arc_command (default_params 1) doc_1).
  vm_compute. reflexivity.
Defined.

(** ** The layout *)

(** C1: the scenario of the specification.  With the numbers as integers
    and with the same numbers as floats (the defaults of the signature),
    the layout is top 16, baseline 52, apex 28, and the document is 112
    wide and 96 high. *)
Theorem C1_concrete_scenario :
  compute_layout scenario_int =
    Ok {| top_y := PInt 16; baseline := PInt 52; arc_apex_y := PInt 28;
          pattern_width := PInt 80; total_width := PInt 112;
          total_height := PInt 96 |} /\
  arc_shape_svg scenario_int =
    Ok (svg_document scenario_int "112" "96" path_1 "2.5") /\
  compute_layout (default_params 1) =
    Ok {| top_y := PFloat (b64 16 0); baseline := PFloat (b64 52 0);
          arc_apex_y := PFloat (b64 28 0);
          pattern_width := PFloat (b64 80 0);
          total_width := PFloat (b64 112 0);
          total_height := PFloat (b64 96 0) |} /\
  arc_shape_svg (default_params 1) = Ok doc_1.
Proof. repeat split; vm_compute; reflexivity. Qed.

Lemma py_binop_int iop fop a b :
  is_int a = true -> is_int b = true ->
  py_binop iop fop a b = Ok (PInt (iop (int_of a) (int_of b))).
Proof. destruct a, b; cbn; congruence. Qed.

(** C2: in a call that returns, the total width is
    [n * (u_width + 2 * R) + u_width + 2 * margin] and the total height is
    [baseline + u_depth + margin] with
    [baseline = margin + R + ext_above], as Python evaluates these
    formulas; the document carries both rounded to integers.  When the
    parameters are integers the formulas are exact integer arithmetic. *)
Theorem C2_total_width_and_height p doc :
  arc_shape_svg p = Ok doc ->
  exists t, emitted p doc t /\
    let l := t_layout t in
    ('(PInt (n_semicircles p)) * ('(u_width p) + '(PInt 2) * '(R p))
       + '(u_width p) + '(PInt 2) * '(margin p))%py = Ok (total_width l) /\
    ('(margin p) + '(R p) + '(ext_above p))%py = Ok (baseline l) /\
    ('(baseline l) + '(u_depth p) + '(margin p))%py = Ok (total_height l) /\
    format_f 0 (total_width l) = Ok (t_width t) /\
    format_f 0 (total_height l) = Ok (t_height t) /\
    (int_params p = true ->
     total_width l =
       PInt (n_semicircles p * (int_of (u_width p) + 2 * int_of (R p))
             + int_of (u_width p) + 2 * int_of (margin p)) /\
     total_height l =
       PInt (int_of (margin p) + int_of (R p) + int_of (ext_above p)
             + int_of (u_depth p) + int_of (margin p))).
Proof.
  intros H. apply arc_shape_svg_emitted in H as (t & Ht).
  exists t. split; [exact Ht |]. cbn zeta.
  destruct Ht as (Hl & _ & _ & _ & Hw & Hh & _).
  apply compute_layout_inv in Hl.
  destruct Hl as (_ & _ & _ & Hb & _ & _ & Hpw & Htw & Hth).
  assert (Hwidth :
    ('(PInt (n_semicircles p)) * ('(u_width p) + '(PInt 2) * '(R p))
       + '(u_width p) + '(PInt 2) * '(margin p))%py
    = Ok (total_width (t_layout t))).
  { rewrite Hpw. exact Htw. }
  repeat split; try assumption.
  - unfold int_params in H. repeat (apply andb_prop in H as [H ?]).
    unfold lift2 in Hwidth.
    cbn [bind] in Hwidth. unfold py_mul, py_add in Hwidth.
    repeat (rewrite py_binop_int in Hwidth by (cbn; auto);
            cbn [bind int_of] in Hwidth).
    congruence.
  - unfold int_params in H. repeat (apply andb_prop in H as [H ?]).
    rewrite <- Hb in Hth. unfold lift2 in Hth.
    cbn [bind] in Hth. unfold py_add in Hth.
    repeat (rewrite py_binop_int in Hth by (cbn; auto);
            cbn [bind int_of] in Hth).
    congruence.
Qed.

Lemma C2_total_width_and_height_witness :
  exists t, emitted scenario_int
              (svg_document scenario_int "112" "96" path_1 "2.5") t /\
    let l := t_layout t in
    ('(PInt 1) * ('(PInt 16) + '(PInt 2) * '(PInt 24))
       + '(PInt 16) + '(PInt 2) * '(PInt 16))%py = Ok (total_width l) /\
    ('(PInt 16) + '(PInt 24) + '(PInt 12))%py = Ok (baseline l) /\
    ('(baseline l) + '(PInt 28) + '(PInt 16))%py = Ok (total_height l) /\
    format_f 0 (total_width l) = Ok (t_width t) /\
    format_f 0 (total_height l) = Ok (t_height t) /\
    (int_params scenario_int = true ->
     total_width l = PInt (1 * (16 + 2 * 24) + 16 + 2 * 16) /\
     total_height l = PInt (16 + 24 + 12 + 28 + 16)).
Proof.
  apply (C2_total_width_and_height scenario_int
           (svg_document scenario_int "112" "96" path_1 "2.5")).
  vm_compute. reflexivity.
Defined.

(** ** Errors *)

Lemma to_float_Raise a e : to_float a = Raise e -> e = overflow.
Proof.
  destruct a as [z | f]; cbn [to_float]; [| discriminate].
  unfold float_of_int, overflow. destruct (is_finite _); congruence.
Qed.

Lemma py_binop_Raise iop fop a b e :
  py_binop iop fop a b = Raise e -> e = overflow.
Proof.
  unfold py_binop. intros H.
  destruct a as [x | f], b as [y | g]; try discriminate;
    apply bind_Raise_inv in H as [H | (fa & _ & H)];
    try (apply to_float_Raise in H; exact H);
    apply bind_Raise_inv in H as [H | (fb & _ & H)];
    try (apply to_float_Raise in H; exact H); discriminate.
Qed.

Lemma format_f_Raise d a e : format_f d a = Raise e -> e = overflow.
Proof.
  unfold format_f. intros H.
  apply bind_Raise_inv in H as [H | (f & _ & H)];
    [apply to_float_Raise in H; exact H | discriminate].
Qed.

(** Peels one bind off a failing chain; where the head is the one that
    fails, [H] becomes the error it raised. *)
Ltac raise_step H :=
  let a := fresh "a" in
  let E := fresh "E" in
  apply bind_Raise_inv in H as [H | (a & E & H)];
  [ first [ apply py_binop_Raise in H
          | apply format_f_Raise in H
          | idtac ] | ].

Lemma fmt_cmd_Raise c e : fmt_cmd c = Raise e -> e = overflow.
Proof.
  destruct c; cbn [fmt_cmd]; intros H;
    repeat (raise_step H; [exact H |]); discriminate.
Qed.

Section PathErrors.

Variable p : params.
Variable l : layout.

Lemma append_cmd_Raise (ss : list string) c e :
  append_cmd fmt_cmd ss c = Raise e -> e = overflow.
Proof.
  unfold append_cmd. intros H.
  apply bind_Raise_inv in H as [H | (s & _ & H)];
    [apply fmt_cmd_Raise in H; exact H | discriminate].
Qed.

Ltac path_step H :=
  let a := fresh "a" in
  let E := fresh "E" in
  apply bind_Raise_inv in H as [H | (a & E & H)];
  [ first [ apply py_binop_Raise in H
          | apply append_cmd_Raise in H
          | idtac ] | ].

Lemma emit_U_Raise st e :
  emit_U fmt_cmd p l st = Raise e -> e = overflow.
Proof.
  destruct st as [x ss]. unfold emit_U. intros H.
  repeat (path_step H; [exact H |]). discriminate.
Qed.

Lemma emit_arc_Raise st e :
  emit_arc fmt_cmd p l st = Raise e -> e = overflow.
Proof.
  destruct st as [x ss]. unfold emit_arc. intros H.
  repeat (path_step H; [exact H |]). discriminate.
Qed.

Lemma repeat_U_arc_Raise n : forall st e,
  repeat_U_arc fmt_cmd p l n st = Raise e -> e = overflow.
Proof.
  induction n as [| n IH]; intros st e H; cbn [repeat_U_arc] in H.
  - discriminate.
  - apply bind_Raise_inv in H as [H | (st1 & _ & H)];
      [apply emit_U_Raise in H; exact H |].
    apply bind_Raise_inv in H as [H | (st2 & _ & H)];
      [apply emit_arc_Raise in H; exact H |].
    apply (IH _ _ H).
Qed.

Lemma path_strings_Raise e : path_strings p l = Raise e -> e = overflow.
Proof.
  unfold path_strings, build_path. intros H.
  do 3 (path_step H; [exact H |]).
  apply bind_Raise_inv in H as [H | (st & _ & H)];
    [apply repeat_U_arc_Raise in H; exact H |].
  apply bind_Raise_inv in H as [H | ([x ss] & _ & H)];
    [apply emit_U_Raise in H; exact H |].
  path_step H; [exact H |]. apply append_cmd_Raise in H. exact H.
Qed.

End PathErrors.

(** How the layout can fail: one of the three assertions, in this order,
    or an overflow. *)
Lemma compute_layout_Raise p e :
  compute_layout p = Raise e ->
  (n_semicircles p < 1 /\ e = AssertionError msg_n) \/
  (1 <= n_semicircles p /\ py_gt (ext_above p) (PInt 0) = false /\
   e = AssertionError msg_ext) \/
  (1 <= n_semicircles p /\ py_gt (ext_above p) (PInt 0) = true /\
   e = AssertionError msg_apex /\
   exists a, ('(margin p) + '(R p) + '(ext_above p) - '(R p))%py = Ok a /\
             py_lt (margin p) a = false) \/
  e = overflow.
Proof.
  unfold compute_layout. intros H.
  destruct (1 <=? n_semicircles p) eqn:Hn; cbn [py_assert bind] in H.
  2:{ left. apply Z.leb_gt in Hn. split; [lia | congruence]. }
  apply Z.leb_le in Hn.
  destruct (py_gt (ext_above p) (PInt 0)) eqn:He; cbn [py_assert bind] in H.
  2:{ right; left. repeat split; [assumption | congruence]. }
  raise_step H; [right; right; right; assumption |].
  raise_step H; [right; right; right; assumption |].
  raise_step H; [right; right; right; assumption |].
  destruct (py_lt (margin p) a1) eqn:Hlt; cbn [py_assert bind] in H.
  - right; right; right.
    repeat (raise_step H; [assumption |]). discriminate.
  - right; right; left. repeat split; try assumption; [congruence |].
    exists a1. unfold lift2. cbn [bind]. rewrite E; cbn [bind].
    rewrite E0; cbn [bind]. split; assumption.
Qed.

(** [str] fails on an int of more than 4300 digits, and on nothing
    else. *)
Lemma py_str_Raise a e :
  py_str a = Raise e -> e = too_long /\ ~ printable a.
Proof.
  destruct a as [z | f]; cbn [py_str printable]; [| discriminate].
  destruct (10 ^ max_str_digits <=? Z.abs z) eqn:E; [| discriminate].
  apply Z.leb_le in E. intros H. injection H as <-.
  split; [reflexivity | lia].
Qed.

Lemma py_str_printable a : printable a -> exists s, py_str a = Ok s.
Proof.
  destruct a as [z | f]; cbn [py_str printable]; intros H; [| eauto].
  apply Z.leb_gt in H. rewrite H. eauto.
Qed.

Lemma py_str_Ok a s : py_str a = Ok s -> printable a.
Proof.
  destruct a as [z | f]; cbn [py_str printable]; [| trivial].
  destruct (10 ^ max_str_digits <=? Z.abs z) eqn:E; [discriminate |].
  apply Z.leb_gt in E. intros _. exact E.
Qed.

(** The only exceptions of [arc_shape_svg]. *)
Lemma arc_shape_svg_Raise p e :
  arc_shape_svg p = Raise e ->
  compute_layout p = Raise e \/ e = overflow \/
  (e = too_long /\ ~ printable (stroke_width p)).
Proof.
  unfold arc_shape_svg. intros H.
  apply bind_Raise_inv in H as [H | (l & _ & H)]; [left; exact H |].
  right.
  apply bind_Raise_inv in H as [H | (ss & _ & H)];
    [left; apply path_strings_Raise in H; exact H |].
  raise_step H; [left; assumption |].
  raise_step H; [left; assumption |].
  apply bind_Raise_inv in H as [H | (sw & _ & H)]; [| discriminate].
  right. apply py_str_Raise. exact H.
Qed.

(** C6: a call with a repetition count below 1, or with an extension
    height that compares [<= 0], raises one of the two parameter
    assertions.  It is raised by the layout step, before any command is
    formatted, and the call returns no document. *)
Theorem C6_invalid_parameter p :
  n_semicircles p < 1 \/ py_le (ext_above p) (PInt 0) = true ->
  exists e,
    InvalidParameter e /\
    compute_layout p = Raise e /\
    arc_shape_svg p = Raise e /\
    (n_semicircles p < 1 -> e = AssertionError msg_n) /\
    (1 <= n_semicircles p -> e = AssertionError msg_ext) /\
    forall doc, arc_shape_svg p <> Ok doc.
Proof.
  intros H.
  destruct (1 <=? n_semicircles p) eqn:Hn.
  - apply Z.leb_le in Hn. destruct H as [H | H]; [lia |].
    assert (Hgt : py_gt (ext_above p) (PInt 0) = false).
    { unfold py_le in H. unfold py_gt.
      destruct (py_compare (ext_above p) (PInt 0)) as [[| |] |];
        congruence. }
    assert (Hl : compute_layout p = Raise (AssertionError msg_ext)).
    { unfold compute_layout.
      rewrite (proj2 (Z.leb_le _ _) Hn), Hgt. reflexivity. }
    exists (AssertionError msg_ext). unfold arc_shape_svg. rewrite Hl.
    repeat split; auto; try (right; reflexivity); try lia.
    discriminate.
  - assert (Hl : compute_layout p = Raise (AssertionError msg_n)).
    { unfold compute_layout. rewrite Hn. reflexivity. }
    apply Z.leb_gt in Hn.
    exists (AssertionError msg_n). unfold arc_shape_svg. rewrite Hl.
    repeat split; auto; try (left; reflexivity); try lia.
    discriminate.
Qed.

Lemma C6_invalid_parameter_witness :
  (exists e,
     InvalidParameter e /\
     compute_layout (default_params 0) = Raise e /\
     arc_shape_svg (default_params 0) = Raise e /\
     (0 < 1 -> e = AssertionError msg_n) /\
     (1 <= 0 -> e = AssertionError msg_ext) /\
     forall doc, arc_shape_svg (default_params 0) <> Ok doc) /\
  (exists e,
     InvalidParameter e /\
     compute_layout zero_ext_params = Raise e /\
     arc_shape_svg zero_ext_params = Raise e /\
     (1 < 1 -> e = AssertionError msg_n) /\
     (1 <= 1 -> e = AssertionError msg_ext) /\
     forall doc, arc_shape_svg zero_ext_params <> Ok doc).
Proof.
  split.
  - apply (C6_invalid_parameter (default_params 0)). left. cbn. lia.
  - apply (C6_invalid_parameter zero_ext_params). right. reflexivity.
Defined.

(** ** The list [cmds] in the store *)

Lemma set_nth_last {A : Type} (st : list A) (x y : A) :
  set_nth (List.length st) y (st ++ [x])%list = (st ++ [y])%list.
Proof.
  induction st as [| h st IH]; [reflexivity |].
  cbn [List.length app set_nth]. rewrite IH. reflexivity.
Qed.

Lemma nth_last {A : Type} (st : list A) (x d : A) :
  nth (List.length st) (st ++ [x])%list d = x.
Proof.
  induction st as [| h st IH]; [reflexivity |]. exact IH.
Qed.

Section InStoreSpec.

Variable p : params.
Variable l : layout.

Lemma append_text_spec st0 cs c :
  append_text (List.length st0) c (st0 ++ [cs])%list =
    match fmt_cmd c with
    | Ok s => (Ok tt, (st0 ++ [(cs ++ [s])%list])%list)
    | Raise e => (Raise e, (st0 ++ [cs])%list)
    end.
Proof.
  unfold append_text, seq_stmt, lift, list_append.
  destruct (fmt_cmd c) as [s | e]; [| reflexivity].
  rewrite nth_last, set_nth_last. reflexivity.
Qed.

Lemma emit_U_in_spec st0 cs x :
  refines st0 cs (emit_U_in p l (List.length st0) x (st0 ++ [cs])%list)
    (emit_U fmt_cmd p l (x, cs)).
Proof.
  unfold refines, emit_U_in, emit_U, append_cmd, seq_stmt, lift, ret.
  destruct (py_add (baseline l) (u_depth p)) as [down | e]; cbn [bind];
    [| split; [reflexivity | eexists; split; [reflexivity | discriminate]]].
  rewrite append_text_spec.
  destruct (fmt_cmd (VLine down)) as [s1 | e]; cbn [bind];
    [| split; [reflexivity | eexists; split; [reflexivity | discriminate]]].
  destruct (py_add x (u_width p)) as [x1 | e]; cbn [bind];
    [| split; [reflexivity | eexists; split; [reflexivity | discriminate]]].
  rewrite append_text_spec.
  destruct (fmt_cmd (HLine x1)) as [s2 | e]; cbn [bind];
    [| split; [reflexivity | eexists; split; [reflexivity | discriminate]]].
  rewrite append_text_spec.
  destruct (fmt_cmd (VLine (baseline l))) as [s3 | e]; cbn [bind];
    [| split; [reflexivity | eexists; split; [reflexivity | discriminate]]].
  split; [reflexivity |]. eexists. split; [reflexivity |].
  intros a cs2 H. injection H as _ <-. reflexivity.
Qed.

Lemma emit_arc_in_spec st0 cs x :
  refines st0 cs (emit_arc_in p l (List.length st0) x (st0 ++ [cs])%list)
    (emit_arc fmt_cmd p l (x, cs)).
Proof.
  unfold refines, emit_arc_in, emit_arc, append_cmd, seq_stmt, lift, ret.
  destruct (py_mul (PInt 2) (R p)) as [r2 | e]; cbn [bind];
    [| split; [reflexivity | eexists; split; [reflexivity | discriminate]]].
  destruct (py_add x r2) as [x2 | e]; cbn [bind];
    [| split; [reflexivity | eexists; split; [reflexivity | discriminate]]].
  rewrite append_text_spec.
  destruct (fmt_cmd (Arc (R p) (R p) 0 false true x2 (baseline l)))
    as [s | e]; cbn [bind];
    [| split; [reflexivity | eexists; split; [reflexivity | discriminate]]].
  split; [reflexivity |]. eexists. split; [reflexivity |].
  intros a cs2 H. injection H as _ <-. reflexivity.
Qed.

(** Two steps in a row. *)
Lemma refines_seq {A B : Type} st0 cs (m : stmt A) (k : A -> stmt B)
    (f : result (A * list string)) (g : A * list string -> result (B * list string)) :
  refines st0 cs (m (st0 ++ [cs])%list) f ->
  (forall a cs1, refines st0 cs1 (k a (st0 ++ [cs1])%list) (g (a, cs1))) ->
  refines st0 cs (seq_stmt m k (st0 ++ [cs])%list) (bind f g).
Proof.
  unfold refines, seq_stmt. intros (Hv & cs' & Hs & Hc) Hk.
  destruct (m (st0 ++ [cs])%list) as [r st1]. cbn [fst snd] in Hv, Hs.
  subst st1.
  destruct f as [[a cs1] | e]; cbn [value_of bind] in *; subst r.
  - rewrite (Hc a cs1 eq_refl). apply Hk.
  - split; [reflexivity |]. eexists. split; [reflexivity | discriminate].
Qed.

Lemma repeat_U_arc_in_spec n : forall st0 cs x,
  refines st0 cs (repeat_U_arc_in p l (List.length st0) n x (st0 ++ [cs])%list)
    (repeat_U_arc fmt_cmd p l n (x, cs)).
Proof.
  induction n as [| n IH]; intros st0 cs x.
  - cbn [repeat_U_arc_in repeat_U_arc]. unfold refines, ret.
    split; [reflexivity |]. eexists. split; [reflexivity |].
    intros a cs2 H. injection H as _ <-. reflexivity.
  - cbn [repeat_U_arc_in repeat_U_arc].
    apply refines_seq; [apply emit_U_in_spec |]. intros x1 cs1.
    apply refines_seq; [apply emit_arc_in_spec |]. intros x2 cs2.
    apply IH.
Qed.

End InStoreSpec.

(** A call in the store has the outcome of [arc_shape_svg], whatever the
    store holds, and leaves every object of the store as it was: it adds
    one list, its own. *)
Lemma arc_shape_svg_in_spec p st :
  exists st',
    arc_shape_svg_in p st = (arc_shape_svg p, st') /\
    (st' = st \/ exists cs, st' = (st ++ [cs])%list).
Proof.
  unfold arc_shape_svg_in, arc_shape_svg, path_strings, build_path.
  unfold seq_stmt at 1. unfold lift at 1.
  destruct (compute_layout p) as [l | e]; cbn [bind];
    [| eexists; split; [reflexivity | left; reflexivity]].
  cbn zeta. unfold seq_stmt at 1. unfold new_list. unfold append_cmd at 1 2 3.
  cbn [app].
  unfold seq_stmt at 1. rewrite append_text_spec.
  destruct (fmt_cmd (MoveTo (margin p) (baseline l))) as [s1 | e];
    cbn [bind]; [| eexists; split; [reflexivity | right; eexists; reflexivity]].
  unfold seq_stmt at 1. rewrite append_text_spec.
  destruct (fmt_cmd (VLine (top_y l))) as [s2 | e];
    cbn [bind]; [| eexists; split; [reflexivity | right; eexists; reflexivity]].
  unfold seq_stmt at 1. rewrite append_text_spec.
  destruct (fmt_cmd (VLine (baseline l))) as [s3 | e];
    cbn [bind]; [| eexists; split; [reflexivity | right; eexists; reflexivity]].
  cbn [app].
  unfold seq_stmt at 1.
  destruct (repeat_U_arc_in_spec p l (Z.to_nat (n_semicircles p)) st
              [s1; s2; s3] (margin p)) as (Hv & cs1 & Hs & Hc).
  destruct (repeat_U_arc_in p l (List.length st)
              (Z.to_nat (n_semicircles p)) (margin p)
              (st ++ [[s1; s2; s3]])%list) as [r st1].
  cbn [fst snd] in Hv, Hs. subst st1 r.
  destruct (repeat_U_arc fmt_cmd p l (Z.to_nat (n_semicircles p))
              (margin p, [s1; s2; s3])) as [[x1 cs1'] | e];
    cbn [value_of bind]; [| eexists; split; [reflexivity | right; eexists; reflexivity]].
  rewrite (Hc x1 cs1' eq_refl). clear Hc cs1.
  unfold seq_stmt at 1.
  destruct (emit_U_in_spec p l st cs1' x1) as (Hv & cs2 & Hs & Hc).
  destruct (emit_U_in p l (List.length st) x1 (st ++ [cs1'])%list)
    as [r st2].
  cbn [fst snd] in Hv, Hs. subst st2 r.
  destruct (emit_U fmt_cmd p l (x1, cs1')) as [[x2 cs2'] | e];
    cbn [value_of bind]; [| eexists; split; [reflexivity | right; eexists; reflexivity]].
  rewrite (Hc x2 cs2' eq_refl). clear Hc cs2.
  unfold append_cmd.
  unfold seq_stmt at 1. rewrite append_text_spec.
  destruct (fmt_cmd (VLine (top_y l))) as [s4 | e];
    cbn [bind]; [| eexists; split; [reflexivity | right; eexists; reflexivity]].
  unfold seq_stmt at 1. rewrite append_text_spec.
  destruct (fmt_cmd (HLine (margin p))) as [s5 | e];
    cbn [bind]; [| eexists; split; [reflexivity | right; eexists; reflexivity]].
  unfold seq_stmt, list_items, lift, ret. rewrite nth_last.
  destruct (format_f 0 (total_width l)) as [w | e];
    cbn [bind]; [| eexists; split; [reflexivity | right; eexists; reflexivity]].
  destruct (format_f 0 (total_height l)) as [h | e];
    cbn [bind]; [| eexists; split; [reflexivity | right; eexists; reflexivity]].
  destruct (py_str (stroke_width p)) as [sw | e];
    cbn [bind];
    (eexists; split; [reflexivity | right; eexists; reflexivity]).
Qed.

(** C8: two calls with identical parameters have identical outcomes, the
    same document or the same exception, whatever the store of the
    interpreter holds at each of them, and so also when one follows the
    other.  The call has no hidden state: its outcome is that of
    [arc_shape_svg], a function of the parameters, and the one object it
    changes, the list [cmds], is its own; every object that existed
    before the call is as it was after it. *)
Theorem C8_deterministic p1 p2 st1 st2 :
  p1 = p2 ->
  fst (arc_shape_svg_in p1 st1) = fst (arc_shape_svg_in p2 st2) /\
  fst (arc_shape_svg_in p2 (snd (arc_shape_svg_in p1 st1)))
    = fst (arc_shape_svg_in p1 st1) /\
  fst (arc_shape_svg_in p1 st1) = arc_shape_svg p1 /\
  firstn (List.length st1) (snd (arc_shape_svg_in p1 st1)) = st1.
Proof.
  intros <-.
  destruct (arc_shape_svg_in_spec p1 st1) as (st1' & H1 & Hst1).
  destruct (arc_shape_svg_in_spec p1 st2) as (st2' & H2 & _).
  destruct (arc_shape_svg_in_spec p1 st1') as (st3 & H3 & _).
  rewrite H1, H2. cbn [fst snd]. rewrite H3. cbn [fst].
  repeat split.
  destruct Hst1 as [-> | (cs & ->)].
  - apply firstn_all.
  - rewrite firstn_app, firstn_all, Nat.sub_diag. cbn [firstn].
    apply app_nil_r.
Qed.

Lemma C8_deterministic_witness :
  fst (arc_shape_svg_in (default_params 1) [])
    = fst (arc_shape_svg_in (default_params 1) [["M 0.00,0.00"]]) /\
  fst (arc_shape_svg_in (default_params 1)
         (snd (arc_shape_svg_in (default_params 1) [])))
    = fst (arc_shape_svg_in (default_params 1) []) /\
  fst (arc_shape_svg_in (default_params 1) [])
    = arc_shape_svg (default_params 1) /\
  firstn (List.length (@nil (list string)))
    (snd (arc_shape_svg_in (default_params 1) [])) = [].
Proof.
  apply (C8_deterministic (default_params 1) (default_params 1) []
           [["M 0.00,0.00"]]).
  reflexivity.
Defined.

(** The geometry assertion is decided by the computed apex. *)
Lemma compute_layout_apex p a :
  1 <= n_semicircles p ->
  py_gt (ext_above p) (PInt 0) = true ->
  ('(margin p) + '(R p) + '(ext_above p) - '(R p))%py = Ok a ->
  py_lt (margin p) a = false ->
  compute_layout p = Raise (AssertionError msg_apex).
Proof.
  intros Hn He Ha Hlt. unfold compute_layout.
  rewrite (proj2 (Z.leb_le _ _) Hn), He. cbn [py_assert bind].
  unfold lift2 in Ha. cbn [bind] in Ha.
  apply bind_Ok_inv in Ha as (b & Hb & Ha).
  apply bind_Ok_inv in Hb as (t & Ht & Hb).
  rewrite Ht; cbn [bind]. rewrite Hb; cbn [bind]. rewrite Ha; cbn [bind].
  rewrite Hlt. reflexivity.
Qed.

(** C5, counterexample: with the defaults and an extension of [2^-70],
    both parameter checks pass, the computed apex is 16.0, the top itself,
    and the call raises the geometry assertion. *)
Lemma C5_counterexample :
  1 <= n_semicircles tiny_ext_params /\
  py_gt (ext_above tiny_ext_params) (PInt 0) = true /\
  ('(margin tiny_ext_params) + '(R tiny_ext_params)
     + '(ext_above tiny_ext_params) - '(R tiny_ext_params))%py
    = Ok (margin tiny_ext_params) /\
  py_lt (margin tiny_ext_params) (margin tiny_ext_params) = false /\
  arc_shape_svg tiny_ext_params = Raise (AssertionError msg_apex).
Proof. repeat split; vm_compute; try reflexivity; discriminate. Qed.

(** C5, amended: for parameters that pass the two parameter checks, the
    call raises the geometry assertion exactly when the computed top is
    not strictly less than the computed apex
    [margin + R + ext_above - R].  With integer parameters the inequality
    always holds; in float arithmetic it can fail. *)
Theorem C5_geometry_check p a :
  1 <= n_semicircles p ->
  py_gt (ext_above p) (PInt 0) = true ->
  ('(margin p) + '(R p) + '(ext_above p) - '(R p))%py = Ok a ->
  ((exists e, arc_shape_svg p = Raise e /\ GeometryError e) <->
   py_lt (margin p) a = false) /\
  (int_params p = true -> py_lt (margin p) a = true).
Proof.
  intros Hn He Ha. split; [split |].
  - intros (e & H & ->).
    apply arc_shape_svg_Raise in H as [H | [H | [H _]]];
      [| discriminate | discriminate].
    apply compute_layout_Raise in H
      as [(Hlt & _) | [(_ & Hgt & _) | [(_ & _ & _ & a' & Ha' & Hlt) | H]]].
    + lia.
    + congruence.
    + congruence.
    + discriminate.
  - intros Hlt. exists (AssertionError msg_apex). split; [| reflexivity].
    unfold arc_shape_svg.
    rewrite (compute_layout_apex p a Hn He Ha Hlt). reflexivity.
  - unfold int_params. intros H. repeat (apply andb_prop in H as [H ?]).
    unfold lift2 in Ha. cbn [bind] in Ha. unfold py_add, py_sub in Ha.
    repeat (rewrite py_binop_int in Ha by (cbn; auto);
            cbn [bind int_of] in Ha).
    injection Ha as <-.
    destruct (ext_above p) as [e |]; [| discriminate].
    destruct (margin p) as [m |]; [| discriminate].
    unfold py_gt in He. unfold py_lt. cbn [py_compare int_of] in *.
    destruct (e ?= 0) eqn:Hc; try discriminate.
    apply Z.compare_gt_iff in Hc.
    assert (Hm : (m ?= m + int_of (R p) + e - int_of (R p)) = Lt)
      by (apply Z.compare_lt_iff; lia).
    rewrite Hm. reflexivity.
Qed.

Lemma C5_geometry_check_witness :
  ((exists e, arc_shape_svg scenario_int = Raise e /\ GeometryError e) <->
   py_lt (margin scenario_int) (PInt 28) = false) /\
  (int_params scenario_int = true ->
   py_lt (margin scenario_int) (PInt 28) = true).
Proof.
  apply (C5_geometry_check scenario_int (PInt 28)).
  - cbn. lia.
  - reflexivity.
  - reflexivity.
Defined.

(** ** Float parameters: when a call returns *)

Lemma float_of_int_2 : float_of_int 2 = Ok (b64 2 0).
Proof. reflexivity. Qed.

Lemma py_add_float a b : py_add (PFloat a) (PFloat b) = Ok (PFloat (fadd a b)).
Proof. reflexivity. Qed.

Lemma py_sub_float a b : py_sub (PFloat a) (PFloat b) = Ok (PFloat (fsub a b)).
Proof. reflexivity. Qed.

Lemma py_mul_2_float r :
  py_mul (PInt 2) (PFloat r) = Ok (PFloat (fmul (b64 2 0) r)).
Proof. unfold py_mul, py_binop, to_float. rewrite float_of_int_2. reflexivity. Qed.

Lemma format_f_float d f : format_f d (PFloat f) = Ok (format_float_f d f).
Proof. reflexivity. Qed.

Lemma is_float_inv a : is_float a = true -> exists f, a = PFloat f.
Proof. destruct a; [discriminate | eauto]. Qed.

Section FloatPath.

Variable p : params.
Variable l : layout.
Variables r uw ud m b tp : float.
Hypothesis HR : R p = PFloat r.
Hypothesis Huw : u_width p = PFloat uw.
Hypothesis Hud : u_depth p = PFloat ud.
Hypothesis Hm : margin p = PFloat m.
Hypothesis Hb : baseline l = PFloat b.
Hypothesis Htp : top_y l = PFloat tp.

Lemma emit_U_float x ss :
  exists ss',
    emit_U fmt_cmd p l (PFloat x, ss) = Ok (PFloat (fadd x uw), ss').
Proof.
  unfold emit_U, append_cmd. rewrite Hb, Hud, Huw.
  rewrite !py_add_float. cbn [bind fmt_cmd].
  rewrite !format_f_float. cbn [bind]. eauto.
Qed.

Lemma emit_arc_float x ss :
  exists ss',
    emit_arc fmt_cmd p l (PFloat x, ss) =
      Ok (PFloat (fadd x (fmul (b64 2 0) r)), ss').
Proof.
  unfold emit_arc, append_cmd. rewrite Hb, HR.
  rewrite py_mul_2_float. cbn [bind]. rewrite py_add_float.
  cbn [bind fmt_cmd]. rewrite !format_f_float. cbn [bind]. eauto.
Qed.

Lemma repeat_U_arc_float n : forall x ss,
  exists x' ss',
    repeat_U_arc fmt_cmd p l n (PFloat x, ss) = Ok (PFloat x', ss').
Proof.
  induction n as [| n IH]; intros x ss; cbn [repeat_U_arc]; [eauto |].
  destruct (emit_U_float x ss) as (ss1 & ->). cbn [bind].
  destruct (emit_arc_float (fadd x uw) ss1) as (ss2 & ->). cbn [bind].
  apply IH.
Qed.

(** With float parameters no command fails to format: the path is
    always built. *)
Lemma path_strings_float : exists ss, path_strings p l = Ok ss.
Proof.
  unfold path_strings, build_path, append_cmd. rewrite Hm, Hb, Htp.
  cbn [bind fmt_cmd]. rewrite !format_f_float. cbn [bind app].
  match goal with
  | |- context [repeat_U_arc fmt_cmd p l ?n (PFloat m, ?ss)] =>
      destruct (repeat_U_arc_float n m ss) as (x' & ss' & ->)
  end.
  cbn [bind].
  destruct (emit_U_float x' ss') as (ss1 & ->). cbn [bind].
  rewrite ?format_f_float. cbn [bind]. eauto.
Qed.

End FloatPath.

(** ** Integer parameters: when a call returns *)

Lemma digits2_pos_size m : digits2_pos m = Pos.size m.
Proof. induction m; cbn; congruence. Qed.

Lemma digits2_pos_iter m k :
  Zpos (digits2_pos (Pos.iter xO m k)) = Zpos (digits2_pos m) + Zpos k.
Proof.
  induction k using Pos.peano_ind.
  - cbn. lia.
  - rewrite Pos.iter_succ. cbn [digits2_pos]. lia.
Qed.

Lemma digits2_pos_le m : Zpos m < 2 ^ 53 -> Zpos (digits2_pos m) <= 53.
Proof.
  intros H. rewrite digits2_pos_size.
  pose proof (Pos.size_le m) as Hle.
  assert (H2 : 2 ^ Zpos (Pos.size m) <= 2 * Zpos m).
  { rewrite <- Pos2Z.inj_pow. change (2 * Z.pos m) with (Z.pos m~0). lia. }
  destruct (Z_le_gt_dec (Zpos (Pos.size m)) 53) as [Hs | Hs]; [exact Hs |].
  exfalso.
  assert (H54 : 2 ^ 54 <= 2 ^ Zpos (Pos.size m))
    by (apply Z.pow_le_mono_r; lia).
  change (2 ^ 54) with (2 * 2 ^ 53) in H54. lia.
Qed.

(** A mantissa of at most 53 bits is aligned to exactly 53 bits. *)
Lemma shl_align_small m :
  Zpos (digits2_pos m) <= 53 ->
  exists mz,
    shl_align m 0 (Zpos (digits2_pos m) - 53) =
      (mz, Zpos (digits2_pos m) - 53) /\
    Zpos (digits2_pos mz) = 53.
Proof.
  intros Hd. unfold shl_align.
  destruct (Zpos (digits2_pos m) - 53 - 0) as [| k | k] eqn:E.
  - exists m. split; [f_equal; lia | lia].
  - lia.
  - exists (Pos.iter xO m k). split; [reflexivity |].
    rewrite digits2_pos_iter. lia.
Qed.

(** A 53-bit mantissa with a small exponent is not rounded. *)
Lemma binary_round_aux_exact sx mz ez :
  Zpos (digits2_pos mz) = 53 -> -52 <= ez <= 0 ->
  binary_round_aux prec emax sx (Zpos mz) ez loc_Exact = S754_finite sx mz ez.
Proof.
  intros Hd He.
  assert (Hshift : fexp prec emax (Zdigits2 (Zpos mz) + ez) - ez = 0).
  { cbn [Zdigits2]. rewrite Hd. unfold fexp, emin, prec, emax. lia. }
  unfold binary_round_aux, shr_fexp. rewrite Hshift.
  cbn [shr shr_record_of_loc shr_m loc_of_shr_record round_nearest_even].
  rewrite Hshift. cbn [shr shr_record_of_loc shr_m].
  destruct (ez <=? emax - prec) eqn:Hle; [reflexivity |].
  apply Z.leb_gt in Hle. unfold emax, prec in Hle. lia.
Qed.

(** [float(z)] raises nothing below [2^53]. *)
Lemma float_of_int_small z :
  Z.abs z < 2 ^ 53 -> exists f, float_of_int z = Ok f.
Proof.
  intros Hz. unfold float_of_int, b64, binary_normalize.
  destruct z as [| m | m]; [eexists; reflexivity | |];
    (assert (Hm : Zpos m < 2 ^ 53) by lia;
     pose proof (digits2_pos_le m Hm) as Hd;
     destruct (shl_align_small m Hd) as (mz & Hsh & Hdz);
     unfold binary_round;
     replace (fexp prec emax (Zpos (digits2_pos m) + 0))
       with (Zpos (digits2_pos m) - 53)
       by (unfold fexp, emin, prec, emax; lia);
     rewrite Hsh, binary_round_aux_exact by (auto; lia);
     eexists; reflexivity).
Qed.

Lemma small_PInt z : Z.abs z < 2 ^ 53 -> small (PInt z) = true.
Proof.
  intros H. unfold small. cbn [is_int int_of andb].
  apply Z.ltb_lt. exact H.
Qed.

Lemma format_f_small d a : small a = true -> exists s, format_f d a = Ok s.
Proof.
  unfold small. intros H. apply andb_prop in H as [Hi Hs].
  destruct a as [z |]; [| discriminate]. cbn [int_of] in Hs.
  apply Z.ltb_lt in Hs.
  destruct (float_of_int_small z Hs) as (f & Hf).
  unfold format_f. cbn [to_float]. rewrite Hf. cbn [bind]. eauto.
Qed.

Lemma fmt_cmd_small c : small_cmd c = true -> exists s, fmt_cmd c = Ok s.
Proof.
  unfold small_cmd.
  destruct c; cbn [coords forallb fmt_cmd]; intros H;
    repeat (apply andb_prop in H as [? H]);
    repeat match goal with
    | Hs : small ?a = true |- context [format_f 2 ?a] =>
        let s := fresh "s" in
        let E := fresh "E" in
        destruct (format_f_small 2 a Hs) as (s & E); rewrite E;
        cbn [bind]; clear Hs
    end; eauto.
Qed.

Lemma mapM_fmt_cmd_small cs :
  Forall (fun c => small_cmd c = true) cs ->
  exists ss, mapM fmt_cmd cs = Ok ss.
Proof.
  induction 1 as [| c cs Hc _ (ss & IH)]; [exists []; reflexivity |].
  destruct (fmt_cmd_small c Hc) as (s & Hs).
  exists (s :: ss). cbn [mapM]. rewrite Hs, IH. reflexivity.
Qed.

Section IntReturns.

Variable p : params.
Variable l : layout.
Variables r uw ud m b tp : Z.
Hypothesis HR : R p = PInt r.
Hypothesis Huw : u_width p = PInt uw.
Hypothesis Hud : u_depth p = PInt ud.
Hypothesis Hm : margin p = PInt m.
Hypothesis Hb : baseline l = PInt b.
Hypothesis Htp : top_y l = PInt tp.
Hypothesis Hr_small : Z.abs r < 2 ^ 53.
Hypothesis Hb_small : Z.abs b < 2 ^ 53.
Hypothesis Htp_small : Z.abs tp < 2 ^ 53.
Hypothesis Hdown_small : Z.abs (b + ud) < 2 ^ 53.

(** From an integer cursor the repetitions stay on integers, and within
    reach. *)
Lemma reps_int_exists n : forall x,
  Z.abs x + Z.of_nat n * (Z.abs uw + 2 * Z.abs r) < 2 ^ 53 ->
  exists body,
    reps p l n (PInt x) body (PInt (x + Z.of_nat n * (uw + 2 * r))) /\
    Forall (fun c => small_cmd c = true) body.
Proof.
  induction n as [| n IH]; intros x Hx.
  - exists []. replace (x + Z.of_nat 0 * (uw + 2 * r)) with x by (cbn; lia).
    split; constructor.
  - rewrite Nat2Z.inj_succ, Z.mul_succ_l in Hx.
    destruct (IH (x + uw + 2 * r)) as (body & Hreps & Hsmall); [lia |].
    exists (VLine (PInt (b + ud)) :: HLine (PInt (x + uw)) ::
            VLine (baseline l) ::
            Arc (R p) (R p) 0 false true (PInt (x + uw + 2 * r))
                (baseline l) :: body).
    split.
    + replace (x + Z.of_nat (S n) * (uw + 2 * r))
        with (x + uw + 2 * r + Z.of_nat n * (uw + 2 * r))
        by (rewrite Nat2Z.inj_succ, Z.mul_succ_l; lia).
      apply reps_S with (r2 := PInt (2 * r)); try assumption;
        rewrite ?Hb, ?Hud, ?Huw, ?HR; reflexivity.
    + repeat constructor; try assumption;
        unfold small_cmd; cbn [coords forallb]; rewrite ?Hb, ?HR;
        rewrite ?small_PInt by lia; reflexivity.
Qed.

Lemma path_strings_int :
  Z.abs m + n_semicircles p * (Z.abs uw + 2 * Z.abs r) + Z.abs uw < 2 ^ 53 ->
  0 <= n_semicircles p ->
  exists ss, path_strings p l = Ok ss.
Proof.
  intros Hw Hn.
  set (n := Z.to_nat (n_semicircles p)).
  assert (Hnn : Z.of_nat n = n_semicircles p) by (apply Z2Nat.id; exact Hn).
  destruct (reps_int_exists n m) as (body & Hreps & Hsmall);
    [rewrite Hnn; lia |].
  set (xe := m + Z.of_nat n * (uw + 2 * r)) in *.
  assert (Hxe : Z.abs xe + Z.abs uw < 2 ^ 53).
  { unfold xe. rewrite Hnn. nia. }
  set (cs := ([MoveTo (margin p) (baseline l); VLine (top_y l);
               VLine (baseline l)] ++ body ++
              [VLine (PInt (b + ud)); HLine (PInt (xe + uw));
               VLine (baseline l); VLine (top_y l);
               HLine (margin p)])%list).
  assert (Hshape : path_shape p l cs).
  { exists body, (PInt xe), (PInt (b + ud)), (PInt (xe + uw)).
    repeat split; try reflexivity.
    - rewrite Hm. exact Hreps.
    - rewrite Hb, Hud. reflexivity.
    - rewrite Huw. reflexivity. }
  assert (Hall : Forall (fun c => small_cmd c = true) cs).
  { unfold cs. apply Forall_app. split; [| apply Forall_app; split];
      [| exact Hsmall |];
      repeat constructor; unfold small_cmd; cbn [coords forallb];
      rewrite ?Hm, ?Hb, ?Htp; rewrite ?small_PInt by lia; reflexivity. }
  destruct (mapM_fmt_cmd_small cs Hall) as (ss & Hss).
  exists ss. unfold path_strings. apply build_path_spec.
  exists cs. split; assumption.
Qed.

End IntReturns.

Lemma py_gt_int e : py_gt (PInt e) (PInt 0) = true -> 0 < e.
Proof.
  unfold py_gt. cbn [py_compare].
  destruct (e ?= 0) eqn:Hc; try discriminate. intros _.
  apply Z.compare_gt_iff in Hc. exact Hc.
Qed.

Lemma py_lt_int x y : x < y -> py_lt (PInt x) (PInt y) = true.
Proof.
  intros H. unfold py_lt. cbn [py_compare].
  apply Z.compare_lt_iff in H. rewrite H. reflexivity.
Qed.

(** With integer parameters of moderate size and a stroke width that can
    be printed, a call that passes the two parameter checks returns a
    document, whatever their signs. *)
Lemma int_params_returns p :
  int_params p = true ->
  1 <= n_semicircles p ->
  py_gt (ext_above p) (PInt 0) = true ->
  width_bound p < 2 ^ 53 ->
  height_bound p < 2 ^ 53 ->
  printable (stroke_width p) ->
  exists doc, arc_shape_svg p = Ok doc.
Proof.
  unfold int_params, width_bound, height_bound.
  intros H Hn He Hw Hh Hsw. repeat (apply andb_prop in H as [H ?]).
  destruct (R p) as [r |] eqn:ER; [| discriminate].
  destruct (u_width p) as [uw |] eqn:Euw; [| discriminate].
  destruct (u_depth p) as [ud |] eqn:Eud; [| discriminate].
  destruct (ext_above p) as [ex |] eqn:Eex; [| discriminate].
  destruct (margin p) as [m |] eqn:Em; [| discriminate].
  cbn [int_of] in Hw, Hh.
  pose proof (py_gt_int _ He) as Hex.
  assert (Hnw : 0 <= n_semicircles p * (Z.abs uw + 2 * Z.abs r)) by nia.
  unfold arc_shape_svg, compute_layout.
  rewrite (proj2 (Z.leb_le _ _) Hn), ER, Euw, Eud, Eex, Em, He.
  cbn [py_assert py_add py_sub py_mul py_binop bind].
  rewrite (py_lt_int m (m + r + ex - r)) by lia.
  cbn [py_assert bind].
  match goal with
  | |- context [path_strings p ?l] =>
      destruct (path_strings_int p l r uw ud m (m + r + ex) m
                  ER Euw Eud Em eq_refl eq_refl) as (ss & ->);
        try lia
  end.
  cbn [bind total_width total_height].
  destruct (format_f_small 0
              (PInt (n_semicircles p * (uw + 2 * r) + uw + 2 * m)))
    as (w & ->); [apply small_PInt; nia |].
  destruct (format_f_small 0 (PInt (m + r + ex + ud + m)))
    as (h & ->); [apply small_PInt; lia |].
  destruct (py_str_printable _ Hsw) as (sw & ->).
  cbn [bind]. eauto.
Qed.

(** C10, counterexample: with the defaults and a radius of [2^70] both
    parameter checks pass and the call raises the geometry assertion: the
    computed apex is 0.0. *)
Lemma C10_counterexample :
  1 <= n_semicircles big_radius_params /\
  py_gt (ext_above big_radius_params) (PInt 0) = true /\
  arc_shape_svg big_radius_params = Raise (AssertionError msg_apex).
Proof. repeat split; vm_compute; try reflexivity; discriminate. Qed.

(** The exceptions of the function, and when it returns on float
    parameters. *)
Lemma arc_shape_svg_outcomes p :
  (forall e, arc_shape_svg p = Raise e ->
     InvalidParameter e \/ GeometryError e \/ e = overflow \/
     (e = too_long /\ ~ printable (stroke_width p))) /\
  (float_params p = true ->
   (is_ok (arc_shape_svg p) = true <->
    1 <= n_semicircles p /\
    is_ok (float_of_int (n_semicircles p)) = true /\
    py_gt (ext_above p) (PInt 0) = true /\
    (exists a,
       ('(margin p) + '(R p) + '(ext_above p) - '(R p))%py = Ok a /\
       py_lt (margin p) a = true) /\
    printable (stroke_width p))).
Proof.
  split.
  - intros e H. unfold InvalidParameter, GeometryError.
    apply arc_shape_svg_Raise in H as [H | [H | H]]; [| auto | auto].
    apply compute_layout_Raise in H
      as [(_ & ->) | [(_ & _ & ->) | [(_ & _ & -> & _) | ->]]]; auto.
  - unfold float_params. intros H. repeat (apply andb_prop in H as [H ?]).
    destruct (is_float_inv _ H) as (r & HR).
    destruct (is_float_inv _ H3) as (uw & Huw).
    destruct (is_float_inv _ H2) as (ud & Hud).
    destruct (is_float_inv _ H1) as (ex & Hex).
    destruct (is_float_inv _ H0) as (m & Hm).
    split.
    + intros Hok.
      destruct (arc_shape_svg p) as [doc |] eqn:Hdoc; [| discriminate].
      apply arc_shape_svg_emitted in Hdoc
        as (t & Hl & _ & _ & _ & _ & _ & Hsw & _).
      apply py_str_Ok in Hsw.
      apply compute_layout_inv in Hl.
      destruct Hl as (Hn & He & Htop & Hbase & Hapex & Hlt & Hpw & _).
      split; [exact Hn |]. split; [| split; [exact He |]].
      2: split; [| exact Hsw].
      * rewrite Huw, HR in Hpw. unfold lift2 in Hpw. cbn [bind] in Hpw.
        rewrite py_mul_2_float in Hpw. cbn [bind] in Hpw.
        rewrite py_add_float in Hpw. cbn [bind] in Hpw.
        unfold py_mul, py_binop, to_float in Hpw.
        destruct (float_of_int (n_semicircles p)); [reflexivity |].
        discriminate.
      * exists (arc_apex_y (t_layout t)).
        split; [| rewrite <- Htop; exact Hlt].
        unfold lift2 at 1. rewrite Hbase. cbn [bind]. exact Hapex.
    + intros (Hn & Hfn & He & (a & Ha & Hlt) & Hsw).
      destruct (py_str_printable _ Hsw) as (sw & Esw).
      unfold arc_shape_svg, compute_layout.
      rewrite (proj2 (Z.leb_le _ _) Hn), He. cbn [py_assert bind].
      unfold lift2 in Ha. cbn [bind] in Ha.
      rewrite Hm, HR, Hex, Hud, Huw in *.
      rewrite py_add_float in Ha |- *. cbn [bind] in Ha |- *.
      rewrite py_add_float in Ha |- *. cbn [bind] in Ha |- *.
      rewrite py_sub_float in Ha |- *. injection Ha as <-. cbn [bind].
      rewrite Hlt. cbn [py_assert bind].
      rewrite py_mul_2_float. cbn [bind].
      rewrite py_add_float. cbn [bind].
      unfold py_mul at 1. unfold py_binop, to_float.
      destruct (float_of_int (n_semicircles p)) as [fn |]; [| discriminate].
      cbn [bind]. rewrite py_add_float. cbn [bind].
      rewrite py_mul_2_float. cbn [bind].
      repeat (rewrite py_add_float; cbn [bind]).
      match goal with
      | |- context [path_strings p ?l] =>
          destruct (path_strings_float p l r uw ud m
                      (fadd (fadd m r) ex) m HR Huw Hud Hm eq_refl eq_refl)
            as (ss & ->)
      end.
      cbn [bind total_width total_height]. rewrite !format_f_float.
      cbn [bind]. rewrite Esw. reflexivity.
Qed.

(** C10, amended: a call that passes the two parameter checks returns a
    document, or raises the geometry assertion, or raises the overflow of
    an int too large for a float, or raises the [ValueError] of a stroke
    width that is an int of more than 4300 digits; nothing else.  With
    float geometry parameters it returns a document exactly when the
    repetition count converts to a float, the computed top [margin] is
    strictly less than the computed apex [margin + R + ext_above - R], and
    the stroke width can be printed.  With integer parameters whose reach
    stays below [2^53] and a stroke width that can be printed it always
    returns a document.  Nothing else is checked, whatever the sign of the
    radius, the widths, the depth and the margin. *)
Theorem C10_accepted_inputs p :
  1 <= n_semicircles p ->
  py_gt (ext_above p) (PInt 0) = true ->
  ((exists doc, arc_shape_svg p = Ok doc) \/
   arc_shape_svg p = Raise (AssertionError msg_apex) \/
   arc_shape_svg p = Raise overflow \/
   (arc_shape_svg p = Raise too_long /\ ~ printable (stroke_width p))) /\
  (float_params p = true ->
   ((exists doc, arc_shape_svg p = Ok doc) <->
    is_ok (float_of_int (n_semicircles p)) = true /\
    (exists a,
       ('(margin p) + '(R p) + '(ext_above p) - '(R p))%py = Ok a /\
       py_lt (margin p) a = true) /\
    printable (stroke_width p))) /\
  (int_params p = true ->
   width_bound p < 2 ^ 53 -> height_bound p < 2 ^ 53 ->
   printable (stroke_width p) ->
   exists doc, arc_shape_svg p = Ok doc).
Proof.
  intros Hn He. split; [| split].
  - destruct (arc_shape_svg p) as [doc | e] eqn:H; [left; eauto | right].
    apply arc_shape_svg_Raise in H as [H | [-> | [-> Hsw]]];
      [| right; left; reflexivity | right; right; split; auto].
    apply compute_layout_Raise in H
      as [(Hlt & _) | [(_ & Hgt & _) | [(_ & _ & -> & _) | ->]]].
    + lia.
    + congruence.
    + left. reflexivity.
    + right. left. reflexivity.
  - intros Hf.
    destruct (arc_shape_svg_outcomes p) as [_ Hiff].
    specialize (Hiff Hf). split.
    + intros (doc & Hdoc).
      assert (Hok : is_ok (arc_shape_svg p) = true)
        by (rewrite Hdoc; reflexivity).
      apply Hiff in Hok. tauto.
    + intros (Hfn & Ha & Hsw).
      assert (Hok : is_ok (arc_shape_svg p) = true)
        by (apply Hiff; auto).
      destruct (arc_shape_svg p) as [doc | e]; [eauto | discriminate].
  - intros Hi Hw Hh Hsw. apply int_params_returns; assumption.
Qed.

(** A negative radius and a negative margin are accepted, as floats and
    as ints. *)
Lemma C10_accepted_inputs_witness :
  (exists doc, arc_shape_svg negative_params = Ok doc) /\
  (exists doc, arc_shape_svg negative_int_params = Ok doc).
Proof.
  split.
  - destruct (C10_accepted_inputs negative_params) as (_ & Hfloat & _).
    + cbn. lia.
    + reflexivity.
    + apply Hfloat; [reflexivity |]. split; [reflexivity |].
      split; [| exact I].
      eexists. split; [vm_compute; reflexivity | reflexivity].
  - apply (C10_accepted_inputs negative_int_params).
    + cbn. lia.
    + reflexivity.
    + reflexivity.
    + vm_compute. reflexivity.
    + vm_compute. reflexivity.
    + exact I.
Defined.

(** ** Number formats *)

Lemma all_digits_app a b :
  all_digits (a ++ b) = all_digits a && all_digits b.
Proof.
  induction a as [| c a IH]; cbn; [reflexivity |].
  rewrite IH, andb_assoc. reflexivity.
Qed.

Lemma length_app_string a b :
  String.length (a ++ b) = (String.length a + String.length b)%nat.
Proof. induction a as [| c a IH]; cbn; [| rewrite IH]; reflexivity. Qed.

Lemma all_digits_uint d : all_digits (NilEmpty.string_of_uint d) = true.
Proof. induction d; cbn; auto. Qed.

Lemma is_digits_string_of_N n : is_digits (string_of_N n) = true.
Proof.
  unfold string_of_N, NilZero.string_of_uint.
  destruct (N.to_uint n) eqn:E; try reflexivity;
    cbn; apply all_digits_uint.
Qed.

Lemma is_digit_digit_char v : is_digit (digit_char v) = true.
Proof.
  unfold digit_char.
  assert (H : 0 <= v mod 10 < 10) by (apply Z.mod_pos_bound; lia).
  assert (Hk : v mod 10 = 0 \/ v mod 10 = 1 \/ v mod 10 = 2 \/
               v mod 10 = 3 \/ v mod 10 = 4 \/ v mod 10 = 5 \/
               v mod 10 = 6 \/ v mod 10 = 7 \/ v mod 10 = 8 \/
               v mod 10 = 9) by lia.
  repeat (destruct Hk as [-> | Hk]; [reflexivity |]).
  rewrite Hk. reflexivity.
Qed.

Lemma frac_digits_spec d : forall v,
  all_digits (frac_digits d v) = true /\
  String.length (frac_digits d v) = d.
Proof.
  induction d as [| d IH]; intros v; cbn [frac_digits]; [split; reflexivity |].
  destruct (IH (v / 10)) as [Ha Hl].
  rewrite all_digits_app, length_app_string, Ha, Hl. cbn.
  rewrite is_digit_digit_char. split; [reflexivity | lia].
Qed.

Lemma digit_not_dot c : is_digit c = true -> (c =? ".")%char = false.
Proof.
  intros H. destruct (Ascii.eqb_spec c "."%char) as [-> | _];
    [discriminate | reflexivity].
Qed.

Lemma digit_not_minus c : is_digit c = true -> (c =? "-")%char = false.
Proof.
  intros H. destruct (Ascii.eqb_spec c "-"%char) as [-> | _];
    [discriminate | reflexivity].
Qed.

Lemma split_dot_digits a b :
  all_digits a = true -> split_dot (a ++ String "." b) = Some (a, b).
Proof.
  induction a as [| c a IH]; cbn; intros H; [reflexivity |].
  apply andb_prop in H as [Hc Ha].
  rewrite (digit_not_dot _ Hc), (IH Ha). reflexivity.
Qed.

Lemma strip_minus_sign sg u :
  is_digits u = true -> strip_minus (sign_string sg ++ u) = u.
Proof.
  intros H. destruct sg; cbn; [reflexivity |].
  destruct u as [| c u]; [discriminate |].
  cbn in H |- *. apply andb_prop in H as [Hc _].
  rewrite (digit_not_minus _ Hc). reflexivity.
Qed.

Lemma is_digits_app_nonempty a b :
  is_digits a = true -> all_digits b = true -> is_digits (a ++ b) = true.
Proof.
  destruct a as [| c a]; [discriminate |]. cbn. intros H Hb.
  apply andb_prop in H as [Hc Ha].
  rewrite Hc, all_digits_app, Ha, Hb. reflexivity.
Qed.

(** The digits of a magnitude are in fixed notation, behind any sign. *)
Lemma is_fixed_fixed_digits d sg q :
  is_fixed d (sign_string sg ++ fixed_digits d q) = true.
Proof.
  unfold is_fixed, fixed_digits.
  set (int_part := string_of_N (Z.to_N (q / 10 ^ Z.of_nat d))).
  assert (Hi : is_digits int_part = true) by apply is_digits_string_of_N.
  destruct d as [| d].
  - rewrite strip_minus_sign.
    + apply is_digits_app_nonempty; [exact Hi | reflexivity].
    + apply is_digits_app_nonempty; [exact Hi | reflexivity].
  - destruct (frac_digits_spec (S d) q) as [Ha Hl].
    assert (Hall : all_digits int_part = true).
    { destruct int_part; [discriminate | exact Hi]. }
    assert (Hsplit : split_dot (int_part ++ "." ++ frac_digits (S d) q) =
                     Some (int_part, frac_digits (S d) q))
      by (apply split_dot_digits; exact Hall).
    assert (Hs : strip_minus
                   (sign_string sg ++ int_part ++ "." ++ frac_digits (S d) q)
                 = int_part ++ "." ++ frac_digits (S d) q).
    { destruct sg; cbn [sign_string append]; [reflexivity |].
      destruct int_part as [| c u]; [discriminate |].
      cbn in Hi |- *. apply andb_prop in Hi as [Hc _].
      rewrite (digit_not_minus _ Hc). reflexivity. }
    rewrite Hs, Hsplit, Hi, Ha, Hl, Nat.eqb_refl. reflexivity.
Qed.

Lemma div_half_even_nearest num den :
  0 <= num -> 0 < den -> nearest_even num den (div_half_even num den).
Proof.
  intros Hnum Hden. unfold nearest_even, div_half_even.
  pose proof (Z.div_mod num den ltac:(lia)) as Hdm.
  pose proof (Z.mod_pos_bound num den Hden) as Hr.
  set (q := num / den) in *. set (r := num mod den) in *.
  assert (Hd : q * den - num = - r) by (rewrite Hdm at 1; ring).
  assert (Hd1 : (q + 1) * den - num = den - r) by (rewrite Hdm at 1; ring).
  destruct (2 * r ?= den) eqn:Hc.
  - apply Z.compare_eq in Hc.
    destruct (Z.even q) eqn:Hev.
    + rewrite Hd. split; [lia | intros _; exact Hev].
    + rewrite Hd1. split; [lia |]. intros _.
      rewrite Z.even_add, Hev. reflexivity.
  - assert (Hlt : 2 * r < den) by (apply Z.compare_lt_iff; exact Hc).
    rewrite Hd. split; [lia | intros Habs; exfalso; lia].
  - assert (Hgt : den < 2 * r) by (apply Z.compare_gt_iff; exact Hc).
    rewrite Hd1. split; [lia | intros Habs; exfalso; lia].
Qed.

Lemma round_scaled_nearest d m e :
  nearest_even (mag_num m e * 10 ^ Z.of_nat d) (mag_den e)
    (round_scaled d m e).
Proof.
  unfold round_scaled, mag_num, mag_den.
  destruct (0 <=? e) eqn:He.
  - unfold nearest_even.
    replace (2 * (Z.pos m * 10 ^ Z.of_nat d * 2 ^ e * 1
                  - Z.pos m * 2 ^ e * 10 ^ Z.of_nat d)) with 0 by ring.
    cbn. split; [lia | intros H; discriminate].
  - apply div_half_even_nearest.
    + apply Z.mul_nonneg_nonneg; [lia | apply Z.pow_nonneg; lia].
    + apply Z.pow_pos_nonneg; [lia |]. apply Z.leb_gt in He. lia.
Qed.

(** A finite float formats as its nearest decimal in fixed notation. *)
Lemma format_float_f_fixed d f :
  is_finite f = true ->
  is_fixed d (format_float_f d f) = true /\
  fixed_text_of d f (format_float_f d f).
Proof.
  destruct f as [sg | sg | | sg m e]; try discriminate; intros _;
    cbn [format_float_f fixed_text_of].
  - split; [apply is_fixed_fixed_digits | reflexivity].
  - split; [apply is_fixed_fixed_digits |].
    exists (round_scaled d m e).
    split; [apply round_scaled_nearest | reflexivity].
Qed.

(** What is not finite formats as a word. *)
Lemma format_float_f_not_finite d f :
  is_finite f = false ->
  format_float_f d f = "inf" \/ format_float_f d f = "-inf" \/
  format_float_f d f = "nan".
Proof.
  destruct f as [sg | [|] | | sg m e]; try discriminate; intros _;
    cbn; auto.
Qed.

(** The text of a command is its letter and flags around the two-decimal
    texts of its numbers. *)
Lemma fmt_cmd_text c s :
  fmt_cmd c = Ok s ->
  exists fs,
    mapM to_float (coords c) = Ok fs /\
    s = cmd_text c (map (format_float_f 2) fs).
Proof.
  destruct c; cbn [fmt_cmd coords mapM]; unfold format_f; intros H;
    repeat match goal with
    | H : bind (bind (to_float ?a) _) _ = Ok _ |- _ =>
        let f := fresh "f" in
        let E := fresh "E" in
        destruct (to_float a) as [f |] eqn:E; cbn [bind] in H |- *;
        [| discriminate H]
    end;
    injection H as <-; eexists; split; reflexivity.
Qed.

(** C9, counterexample: with the defaults and a U width of [2^1023] the
    call returns a document; the cursor overflows to infinity at the final
    U, whose horizontal line reads [H inf], and the document width reads
    [inf]: neither a two-decimal number nor an integer. *)
Lemma C9_counterexample :
  exists l cs,
    compute_layout wide_U_params = Ok l /\
    path_cmds wide_U_params l = Ok cs /\
    is_ok (arc_shape_svg wide_U_params) = true /\
    In (HLine (PFloat (S754_infinity false))) cs /\
    fmt_cmd (HLine (PFloat (S754_infinity false))) = Ok "H inf" /\
    is_fixed 2 "inf" = false /\
    format_f 0 (total_width l) = Ok "inf" /\
    is_fixed 0 "inf" = false.
Proof.
  eexists. eexists.
  split; [vm_compute; reflexivity |].
  split; [vm_compute; reflexivity |].
  split; [vm_compute; reflexivity |].
  split; [cbn; auto 20 |].
  repeat split; reflexivity.
Qed.

(** *** Integer parameters: every number is finite *)

Lemma py_binop_is_int iop fop a b c :
  is_int a = true -> is_int b = true ->
  py_binop iop fop a b = Ok c -> is_int c = true.
Proof.
  intros Ha Hb H. rewrite (py_binop_int _ _ _ _ Ha Hb) in H.
  injection H as <-. reflexivity.
Qed.

Lemma to_float_int_finite a f :
  is_int a = true -> to_float a = Ok f -> is_finite f = true.
Proof.
  destruct a as [z |]; [| discriminate]. intros _.
  cbn [to_float]. unfold float_of_int.
  destruct (is_finite (b64 z 0)) eqn:E; [| discriminate].
  intros H. injection H as <-. exact E.
Qed.

Lemma mapM_to_float_int xs : forall fs f,
  forallb is_int xs = true -> mapM to_float xs = Ok fs ->
  In f fs -> is_finite f = true.
Proof.
  induction xs as [| x xs IH]; intros fs f Hint Hm Hin.
  - cbn in Hm. injection Hm as <-. destruct Hin.
  - cbn [forallb] in Hint. apply andb_prop in Hint as [Hx Hxs].
    apply mapM_cons_inv in Hm as (y & ys & Hy & Hys & ->).
    destruct Hin as [<- | Hin].
    + apply (to_float_int_finite _ _ Hx Hy).
    + apply (IH _ _ Hxs Hys Hin).
Qed.

Section IntPath.

Variable p : params.
Variable l : layout.
Hypothesis HR : is_int (R p) = true.
Hypothesis Huw : is_int (u_width p) = true.
Hypothesis Hud : is_int (u_depth p) = true.
Hypothesis Hm : is_int (margin p) = true.
Hypothesis Hb : is_int (baseline l) = true.
Hypothesis Htp : is_int (top_y l) = true.

Lemma reps_int n x body x' :
  reps p l n x body x' -> is_int x = true ->
  Forall (fun c => int_cmd c = true) body /\ is_int x' = true.
Proof.
  induction 1 as [| n x down x1 r2 x2 body x' Hd Hx Hr Hx2 _ IH];
    intros Hix; [split; [constructor | exact Hix] |].
  pose proof (py_binop_is_int _ _ _ _ _ Hb Hud Hd) as Hid.
  pose proof (py_binop_is_int _ _ _ _ _ Hix Huw Hx) as Hi1.
  pose proof (py_binop_is_int _ _ (PInt 2) _ _ eq_refl HR Hr) as Hi2.
  pose proof (py_binop_is_int _ _ _ _ _ Hi1 Hi2 Hx2) as Hi3.
  destruct (IH Hi3) as [Hbody Hix'].
  split; [| exact Hix'].
  repeat constructor; try assumption; unfold int_cmd; cbn [coords forallb];
    rewrite ?Hid, ?Hi1, ?Hi3, ?HR, ?Hb; reflexivity.
Qed.

Lemma shape_int cs :
  path_shape p l cs -> Forall (fun c => int_cmd c = true) cs.
Proof.
  intros (body & xe & down & xf & Hr & Hd & Hx & ->).
  destruct (reps_int _ _ _ _ Hr Hm) as [Hbody Hxe].
  pose proof (py_binop_is_int _ _ _ _ _ Hb Hud Hd) as Hid.
  pose proof (py_binop_is_int _ _ _ _ _ Hxe Huw Hx) as Hif.
  apply Forall_app. split; [| apply Forall_app; split; [exact Hbody |]];
    repeat constructor; unfold int_cmd; cbn [coords forallb];
    rewrite ?Hid, ?Hif, ?Hm, ?Hb, ?Htp; reflexivity.
Qed.

End IntPath.

(** With integer parameters the layout is made of integers. *)
Lemma compute_layout_int p l :
  int_params p = true -> compute_layout p = Ok l ->
  is_int (top_y l) = true /\ is_int (baseline l) = true /\
  is_int (total_width l) = true /\ is_int (total_height l) = true.
Proof.
  unfold int_params. intros H Hl. repeat (apply andb_prop in H as [H ?]).
  apply compute_layout_inv in Hl.
  destruct Hl as (_ & _ & Htop & Hb & _ & _ & Hpw & Htw & Hth).
  unfold lift2 in Hb, Hpw, Htw, Hth. cbn [bind] in Hb, Hpw, Htw, Hth.
  unfold py_add, py_mul in Hb, Hpw, Htw, Hth.
  repeat (rewrite py_binop_int in Hb by (cbn; auto); cbn [bind] in Hb).
  injection Hb as Hb.
  repeat (rewrite py_binop_int in Hpw by (cbn; auto); cbn [bind] in Hpw).
  injection Hpw as Hpw.
  rewrite <- Hb in Hth. rewrite <- Hpw in Htw.
  repeat (rewrite py_binop_int in Htw by (cbn; auto); cbn [bind] in Htw).
  repeat (rewrite py_binop_int in Hth by (cbn; auto); cbn [bind] in Hth).
  injection Htw as Htw. injection Hth as Hth.
  rewrite Htop, <- Hb, <- Htw, <- Hth. auto.
Qed.

(** C9, amended: in a returned document every number of every path
    command is formatted from its float value with [.2f], and the width
    and height with [.0f].  A finite value comes out in fixed notation,
    with exactly two decimals for a coordinate and as an integer for the
    width and height, rounded to the nearest, ties to even; a value that
    is not finite comes out as [inf], [-inf] or [nan].  With integer
    parameters every value is finite. *)
Theorem C9_number_formats p doc :
  arc_shape_svg p = Ok doc ->
  exists t, emitted p doc t /\
    (forall c, In c (t_cmds t) ->
       exists fs,
         mapM to_float (coords c) = Ok fs /\
         In (cmd_text c (map (format_float_f 2) fs)) (t_texts t) /\
         forall f, In f fs ->
           (is_finite f = true ->
            is_fixed 2 (format_float_f 2 f) = true /\
            fixed_text_of 2 f (format_float_f 2 f)) /\
           (is_finite f = false ->
            format_float_f 2 f = "inf" \/ format_float_f 2 f = "-inf" \/
            format_float_f 2 f = "nan") /\
           (int_params p = true -> is_finite f = true)) /\
    (exists fw fh,
       to_float (total_width (t_layout t)) = Ok fw /\
       to_float (total_height (t_layout t)) = Ok fh /\
       t_width t = format_float_f 0 fw /\
       t_height t = format_float_f 0 fh /\
       (is_finite fw = true ->
        is_fixed 0 (t_width t) = true /\ fixed_text_of 0 fw (t_width t)) /\
       (is_finite fh = true ->
        is_fixed 0 (t_height t) = true /\ fixed_text_of 0 fh (t_height t)) /\
       (int_params p = true -> is_finite fw = true /\ is_finite fh = true)).
Proof.
  intros H. apply arc_shape_svg_emitted in H as (t & Ht).
  exists t. split; [exact Ht |].
  pose proof (emitted_shape _ _ _ Ht) as Hs.
  destruct Ht as (Hl & _ & _ & Hm & Hw & Hh & _). split.
  - intros c Hc.
    destruct (mapM_In _ _ _ _ Hm Hc) as (s & Hs' & Hin).
    apply fmt_cmd_text in Hs' as (fs & Hfs & ->).
    exists fs. split; [exact Hfs |]. split; [exact Hin |].
    intros f Hf. split; [| split].
    + apply format_float_f_fixed.
    + apply format_float_f_not_finite.
    + intros Hint.
      destruct (compute_layout_int _ _ Hint Hl) as (Htp & Hb & _).
      unfold int_params in Hint.
      repeat (apply andb_prop in Hint as [Hint ?]).
      assert (Hall : Forall (fun c => int_cmd c = true) (t_cmds t))
        by (apply (shape_int p (t_layout t)); assumption).
      rewrite Forall_forall in Hall.
      apply (mapM_to_float_int (coords c) fs f (Hall c Hc) Hfs Hf).
  - unfold format_f in Hw, Hh.
    apply bind_Ok_inv in Hw as (fw & Hfw & Hw).
    apply bind_Ok_inv in Hh as (fh & Hfh & Hh).
    injection Hw as Hw. injection Hh as Hh.
    exists fw, fh. rewrite <- Hw, <- Hh.
    split; [exact Hfw |]. split; [exact Hfh |].
    split; [reflexivity |]. split; [reflexivity |].
    split; [apply format_float_f_fixed |].
    split; [apply format_float_f_fixed |].
    intros Hint.
    destruct (compute_layout_int _ _ Hint Hl) as (_ & _ & Hiw & Hih).
    split; [apply (to_float_int_finite _ _ Hiw Hfw)
           | apply (to_float_int_finite _ _ Hih Hfh)].
Qed.

Lemma C9_number_formats_witness :
  exists t, emitted (default_params 1) doc_1 t /\
    (forall c, In c (t_cmds t) ->
       exists fs,
         mapM to_float (coords c) = Ok fs /\
         In (cmd_text c (map (format_float_f 2) fs)) (t_texts t) /\
         forall f, In f fs ->
           (is_finite f = true ->
            is_fixed 2 (format_float_f 2 f) = true /\
            fixed_text_of 2 f (format_float_f 2 f)) /\
           (is_finite f = false ->
            format_float_f 2 f = "inf" \/ format_float_f 2 f = "-inf" \/
            format_float_f 2 f = "nan") /\
           (int_params (default_params 1) = true -> is_finite f = true)) /\
    (exists fw fh,
       to_float (total_width (t_layout t)) = Ok fw /\
       to_float (total_height (t_layout t)) = Ok fh /\
       t_width t = format_float_f 0 fw /\
       t_height t = format_float_f 0 fh /\
       (is_finite fw = true ->
        is_fixed 0 (t_width t) = true /\ fixed_text_of 0 fw (t_width t)) /\
       (is_finite fh = true ->
        is_fixed 0 (t_height t) = true /\ fixed_text_of 0 fh (t_height t)) /\
       (int_params (default_params 1) = true ->
        is_finite fw = true /\ is_finite fh = true)).
Proof.
  apply (C9_number_formats (default_params 1) doc_1).
  vm_compute. reflexivity.
Defined.

(** ** Integers in fixed notation *)

Lemma pos_iter_xO m k : Zpos (Pos.iter xO m k) = Zpos m * 2 ^ Zpos k.
Proof.
  induction k using Pos.peano_ind.
  - cbn [Pos.iter]. rewrite Pos2Z.inj_xO. change (2 ^ 1) with 2. lia.
  - rewrite Pos.iter_succ, Pos2Z.inj_xO, IHk, Pos2Z.inj_succ, Z.pow_succ_r by lia.
    lia.
Qed.

(** Below [2^53] an integer is its own float: mantissa times power of two
    is the integer. *)
Lemma b64_small_value sx m :
  Zpos m < 2 ^ 53 ->
  exists mz ez,
    binary_round prec emax sx m 0 = S754_finite sx mz ez /\
    ez <= 0 /\ Zpos m = Zpos mz / 2 ^ (- ez) /\ Zpos mz = Zpos m * 2 ^ (- ez).
Proof.
  intros Hm. pose proof (digits2_pos_le m Hm) as Hd.
  unfold binary_round.
  replace (fexp prec emax (Zpos (digits2_pos m) + 0))
    with (Zpos (digits2_pos m) - 53)
    by (unfold fexp, emin, prec, emax; lia).
  unfold shl_align.
  destruct (Zpos (digits2_pos m) - 53 - 0) as [| k | k] eqn:E; [| lia |].
  - exists m, 0. rewrite binary_round_aux_exact by lia.
    repeat split; try lia. cbn. rewrite Z.div_1_r. reflexivity.
  - assert (Hdz : Zpos (digits2_pos (Pos.iter xO m k)) = 53)
      by (rewrite digits2_pos_iter; lia).
    exists (Pos.iter xO m k), (Zpos (digits2_pos m) - 53).
    rewrite binary_round_aux_exact by (auto; lia).
    assert (He : - (Zpos (digits2_pos m) - 53) = Zpos k) by lia.
    rewrite He, pos_iter_xO.
    repeat split; try lia.
    rewrite Z.div_mul; [reflexivity |].
    apply Z.pow_nonzero; lia.
Qed.

Lemma zeros_snoc n : zeros n ++ "0" = zeros (S n).
Proof. induction n as [| n IH]; cbn; [| cbn in IH; rewrite IH]; reflexivity. Qed.

Lemma frac_digits_zeros d : forall v,
  frac_digits d (v * 10 ^ Z.of_nat d) = zeros d.
Proof.
  induction d as [| d IH]; intros v; [reflexivity |].
  cbn [frac_digits].
  rewrite Nat2Z.inj_succ, Z.pow_succ_r by lia.
  replace (v * (10 * 10 ^ Z.of_nat d)) with (v * 10 ^ Z.of_nat d * 10) by ring.
  rewrite Z.div_mul by lia. rewrite IH.
  unfold digit_char. rewrite Z.mod_mul by lia.
  change (String (ascii_of_N (48 + Z.to_N 0)) EmptyString) with "0".
  apply zeros_snoc.
Qed.

Lemma fixed_digits_int d v :
  0 <= v ->
  fixed_digits d (v * 10 ^ Z.of_nat d) = string_of_N (Z.to_N v) ++ decimals d.
Proof.
  intros Hv. unfold fixed_digits, decimals.
  rewrite Z.div_mul by (apply Z.pow_nonzero; lia).
  rewrite frac_digits_zeros. destruct d; reflexivity.
Qed.

Lemma round_scaled_int d mz ez m :
  ez <= 0 -> Zpos mz = Zpos m * 2 ^ (- ez) ->
  round_scaled d mz ez = Zpos m * 10 ^ Z.of_nat d.
Proof.
  intros He Hmz. unfold round_scaled. rewrite Hmz.
  destruct (0 <=? ez) eqn:Hle.
  - apply Z.leb_le in Hle. assert (ez = 0) by lia. subst ez.
    change (- 0) with 0. rewrite !Z.pow_0_r. ring.
  - unfold div_half_even.
    assert (Hpos : 0 < 2 ^ (- ez)) by (apply Z.pow_pos_nonneg; lia).
    replace (Zpos m * 2 ^ (- ez) * 10 ^ Z.of_nat d)
      with (Zpos m * 10 ^ Z.of_nat d * 2 ^ (- ez)) by ring.
    rewrite Z.mod_mul, Z.div_mul by lia.
    replace (2 * 0) with 0 by ring.
    destruct (0 ?= 2 ^ (- ez)) eqn:Hc; try reflexivity.
    + apply Z.compare_eq in Hc. lia.
    + apply Z.compare_gt_iff in Hc. lia.
Qed.

(** [format(z, '.<d>f')] of an integer below [2^53] is the integer itself
    followed by [d] zeros. *)
Lemma format_f_int d z :
  Z.abs z < 2 ^ 53 ->
  format_f d (PInt z) = Ok (string_of_Z z ++ decimals d).
Proof.
  intros Hz. unfold format_f. cbn [to_float].
  unfold float_of_int, b64, binary_normalize.
  destruct z as [| m | m].
  - cbn [is_finite bind format_float_f sign_string].
    change 0 with (0 * 10 ^ Z.of_nat d).
    rewrite fixed_digits_int by lia. reflexivity.
  - destruct (b64_small_value false m) as (mz & ez & -> & He & _ & Hmz); [lia |].
    cbn [is_finite bind format_float_f sign_string].
    rewrite (round_scaled_int d mz ez m He Hmz), fixed_digits_int by lia.
    reflexivity.
  - destruct (b64_small_value true m) as (mz & ez & -> & He & _ & Hmz); [lia |].
    cbn [is_finite bind format_float_f sign_string].
    rewrite (round_scaled_int d mz ez m He Hmz), fixed_digits_int by lia.
    reflexivity.
Qed.

(** ** Integer parameters: the path in closed form *)

Lemma compute_layout_int_closed p :
  int_params p = true ->
  1 <= n_semicircles p ->
  py_gt (ext_above p) (PInt 0) = true ->
  compute_layout p = Ok (int_layout p).
Proof.
  unfold int_params, int_layout, int_total_width, int_total_height,
    int_pattern_width, int_baseline.
  intros H Hn He. repeat (apply andb_prop in H as [H ?]).
  destruct (R p) as [r |] eqn:ER; [| discriminate].
  destruct (u_width p) as [uw |] eqn:Euw; [| discriminate].
  destruct (u_depth p) as [ud |] eqn:Eud; [| discriminate].
  destruct (ext_above p) as [ex |] eqn:Eex; [| discriminate].
  destruct (margin p) as [m |] eqn:Em; [| discriminate].
  pose proof (py_gt_int _ He) as Hex.
  unfold compute_layout.
  rewrite (proj2 (Z.leb_le _ _) Hn), ER, Euw, Eud, Eex, Em, He.
  cbn [py_assert py_add py_sub py_mul py_binop bind int_of].
  rewrite (py_lt_int m (m + r + ex - r)) by lia.
  cbn [py_assert bind].
  replace (m + r + ex - r) with (m + ex) by lia. reflexivity.
Qed.

Lemma flat_map_ext_in {A B : Type} (f g : A -> list B) xs :
  (forall x, In x xs -> f x = g x) -> flat_map f xs = flat_map g xs.
Proof.
  induction xs as [| x xs IH]; intros H; [reflexivity |].
  cbn. rewrite (H x (or_introl eq_refl)), IH; [reflexivity |].
  intros y Hy. apply H. right. exact Hy.
Qed.

Lemma indices_S n : indices (S n) = 0 :: map (fun k => k + 1) (indices n).
Proof.
  unfold indices. cbn [seq map]. f_equal.
  rewrite <- seq_shift, !map_map. apply map_ext.
  intros k. lia.
Qed.

Lemma flat_map_map {A B C : Type} (f : A -> B) (g : B -> list C) xs :
  flat_map g (map f xs) = flat_map (fun x => g (f x)) xs.
Proof. induction xs as [| x xs IH]; cbn; [| rewrite IH]; reflexivity. Qed.

Section IntClosed.

Variable p : params.
Variable l : layout.
Hypothesis Hint : int_params p = true.
Hypothesis Hb : baseline l = PInt (int_baseline p).

Lemma int_params_inv :
  R p = PInt (int_of (R p)) /\ u_width p = PInt (int_of (u_width p)) /\
  u_depth p = PInt (int_of (u_depth p)) /\
  ext_above p = PInt (int_of (ext_above p)) /\
  margin p = PInt (int_of (margin p)).
Proof.
  unfold int_params in Hint.
  repeat (apply andb_prop in Hint as [Hint ?]).
  repeat split;
    match goal with
    | |- ?a = _ => destruct a; [reflexivity | discriminate]
    end.
Qed.

(** The repetitions from an integer cursor are the closed form, and end
    [n] periods further. *)
Lemma reps_int_closed n : forall x body x',
  reps p l n (PInt x) body x' ->
  x' = PInt (x + Z.of_nat n * int_period p) /\
  body = flat_map (int_unit_from p x) (indices n).
Proof.
  destruct int_params_inv as (HR & Huw & Hud & _ & _).
  induction n as [| n IH]; intros x body x' H.
  - inversion H; subst. split; [f_equal; lia | reflexivity].
  - inversion H as [| n0 x0 down x1 r2 x2 body0 x0' Hd Hx1 Hr2 Hx2 Hrest];
      subst.
    rewrite Hb, Hud in Hd. rewrite Huw in Hx1. rewrite HR in Hr2.
    assert (Ed : down = PInt (int_baseline p + int_of (u_depth p)))
      by (unfold py_add, py_binop in Hd; congruence).
    assert (E1 : x1 = PInt (x + int_of (u_width p)))
      by (unfold py_add, py_binop in Hx1; congruence).
    assert (E2 : r2 = PInt (2 * int_of (R p)))
      by (unfold py_mul, py_binop in Hr2; congruence).
    subst down x1 r2.
    assert (E3 : x2 = PInt (x + int_of (u_width p) + 2 * int_of (R p)))
      by (unfold py_add, py_binop in Hx2; congruence).
    subst x2. clear Hd Hx1 Hr2 Hx2.
    apply IH in Hrest as [-> ->].
    split.
    + f_equal. rewrite Nat2Z.inj_succ, Z.mul_succ_l.
      generalize (Z.of_nat n * int_period p). intros q.
      unfold int_period. lia.
    + rewrite indices_S. cbn [flat_map]. rewrite flat_map_map.
      unfold int_unit_from at 2. unfold int_U, int_down. cbn [app].
      rewrite Hb, HR. cbn [int_of].
      replace (x + 0 * int_period p) with x by lia.
      replace (x + (0 + 1) * int_period p)
        with (x + int_of (u_width p) + 2 * int_of (R p))
        by (unfold int_period; lia).
      do 4 f_equal.
      apply flat_map_ext_in. intros k _.
      unfold int_unit_from, int_U.
      replace (x + int_of (u_width p) + 2 * int_of (R p) + k * int_period p)
        with (x + (k + 1) * int_period p) by (unfold int_period; lia).
      replace (x + int_of (u_width p) + 2 * int_of (R p)
               + (k + 1) * int_period p)
        with (x + (k + 1 + 1) * int_period p) by (unfold int_period; lia).
      reflexivity.
Qed.

Lemma int_unit_from_S x n :
  flat_map (int_unit_from p x) (indices (S n)) =
  (VLine (PInt (int_down p)) :: HLine (PInt (x + int_of (u_width p))) ::
   VLine (PInt (int_baseline p)) ::
   Arc (PInt (int_of (R p))) (PInt (int_of (R p))) 0 false true
     (PInt (x + int_of (u_width p) + 2 * int_of (R p)))
     (PInt (int_baseline p)) ::
   flat_map
     (int_unit_from p (x + int_of (u_width p) + 2 * int_of (R p)))
     (indices n))%list.
Proof.
  rewrite indices_S. cbn [flat_map]. rewrite flat_map_map.
  unfold int_unit_from at 1. unfold int_U. cbn [app].
  replace (x + 0 * int_period p) with x by lia.
  replace (x + (0 + 1) * int_period p)
    with (x + int_of (u_width p) + 2 * int_of (R p))
    by (unfold int_period; lia).
  do 4 f_equal.
  apply flat_map_ext_in. intros k _.
  unfold int_unit_from, int_U.
  replace (x + int_of (u_width p) + 2 * int_of (R p) + k * int_period p)
    with (x + (k + 1) * int_period p) by (unfold int_period; lia).
  replace (x + int_of (u_width p) + 2 * int_of (R p)
           + (k + 1) * int_period p)
    with (x + (k + 1 + 1) * int_period p) by (unfold int_period; lia).
  reflexivity.
Qed.

(** Integer arithmetic never fails: the repetitions exist from every
    integer cursor. *)
Lemma reps_int_total n : forall x,
  reps p l n (PInt x) (flat_map (int_unit_from p x) (indices n))
    (PInt (x + Z.of_nat n * int_period p)).
Proof.
  destruct int_params_inv as (HR & Huw & Hud & _ & _).
  induction n as [| n IH]; intros x.
  - replace (x + Z.of_nat 0 * int_period p) with x by lia. constructor.
  - rewrite int_unit_from_S.
    replace (x + Z.of_nat (S n) * int_period p)
      with (x + int_of (u_width p) + 2 * int_of (R p)
            + Z.of_nat n * int_period p).
    2:{ rewrite Nat2Z.inj_succ, Z.mul_succ_l.
        generalize (Z.of_nat n * int_period p). intros q.
        unfold int_period. lia. }
    rewrite <- Hb, <- HR.
    apply reps_S with (r2 := PInt (2 * int_of (R p))).
    + rewrite Hb, Hud. reflexivity.
    + rewrite Huw. reflexivity.
    + rewrite HR. reflexivity.
    + reflexivity.
    + rewrite HR at 1. rewrite HR at 1. apply IH.
Qed.

Hypothesis Htop : top_y l = PInt (int_of (margin p)).
Hypothesis Hn : 0 <= n_semicircles p.

(** The commands of integer parameters are the closed form. *)
Lemma path_shape_int cs : path_shape p l cs <-> cs = int_path p.
Proof.
  destruct int_params_inv as (HR & Huw & Hud & _ & Hm).
  assert (Hnn : Z.of_nat (Z.to_nat (n_semicircles p)) = n_semicircles p)
    by (apply Z2Nat.id; exact Hn).
  unfold path_shape, int_path. cbn zeta. split.
  - intros (body & xe & down & xf & Hr & Hd & Hx & ->).
    rewrite Hm in Hr. apply reps_int_closed in Hr as [-> ->].
    assert (Ed : down = PInt (int_down p))
      by (rewrite Hb, Hud in Hd; unfold py_add, py_binop in Hd;
          unfold int_down; congruence).
    rewrite Huw in Hx.
    assert (Ef : xf = PInt (int_of (margin p)
                          + Z.of_nat (Z.to_nat (n_semicircles p))
                            * int_period p + int_of (u_width p)))
      by (unfold py_add, py_binop in Hx; congruence).
    subst down xf. rewrite Hnn, Hm, Hb, Htop. reflexivity.
  - intros ->.
    exists (flat_map (int_unit_from p (int_of (margin p)))
              (indices (Z.to_nat (n_semicircles p)))),
      (PInt (int_of (margin p) + n_semicircles p * int_period p)),
      (PInt (int_down p)),
      (PInt (int_of (margin p) + n_semicircles p * int_period p
             + int_of (u_width p))).
    repeat split.
    + pose proof (reps_int_total (Z.to_nat (n_semicircles p))
                    (int_of (margin p))) as Hr.
      rewrite Hnn in Hr. rewrite Hm. exact Hr.
    + rewrite Hb, Hud. reflexivity.
    + rewrite Huw. reflexivity.
    + rewrite Hm, Hb, Htop. reflexivity.
Qed.

End IntClosed.

(** X1: with integer parameters the layout step succeeds exactly when the
    repetition count is at least 1 and the extension is positive, and the
    layout is then exact: the top is the margin, the arc apex is
    [margin + ext_above], and the baseline is [R] below the apex.  The end
    extensions rise exactly [ext_above] above the apex, as the comment of
    lines 41-44 intends; the geometry assertion never fails. *)
Theorem X1_int_layout p l :
  int_params p = true ->
  (compute_layout p = Ok l <->
   1 <= n_semicircles p /\ 0 < int_of (ext_above p) /\ l = int_layout p) /\
  (compute_layout p = Ok l ->
   int_of (arc_apex_y l) - int_of (top_y l) = int_of (ext_above p) /\
   int_of (baseline l) - int_of (arc_apex_y l) = int_of (R p)).
Proof.
  intros Hint.
  assert (Hfwd : compute_layout p = Ok l ->
                 1 <= n_semicircles p /\ 0 < int_of (ext_above p) /\
                 l = int_layout p).
  { intros Hl. pose proof (compute_layout_inv _ _ Hl) as (Hn & He & _).
    assert (Hex : ext_above p = PInt (int_of (ext_above p))).
    { unfold int_params in Hint.
      repeat (apply andb_prop in Hint as [Hint ?]).
      destruct (ext_above p); [reflexivity | discriminate]. }
    split; [exact Hn |]. split.
    - apply py_gt_int. rewrite <- Hex. exact He.
    - rewrite (compute_layout_int_closed p Hint Hn He) in Hl. congruence. }
  split; [split; [exact Hfwd |] |].
  - intros (Hn & He & ->). apply compute_layout_int_closed; try assumption.
    unfold int_params in Hint.
    repeat (apply andb_prop in Hint as [Hint ?]).
    destruct (ext_above p) as [e |]; [| discriminate].
    cbn [int_of] in He. unfold py_gt. cbn [py_compare].
    apply Z.lt_gt in He. unfold Z.gt in He. rewrite He. reflexivity.
  - intros Hl. destruct (Hfwd Hl) as (_ & _ & ->).
    unfold int_layout, int_baseline. cbn [arc_apex_y top_y baseline int_of].
    lia.
Qed.

Lemma X1_int_layout_witness :
  (compute_layout scenario_int = Ok (int_layout scenario_int) <->
   1 <= 1 /\ 0 < 12 /\ int_layout scenario_int = int_layout scenario_int) /\
  (compute_layout scenario_int = Ok (int_layout scenario_int) ->
   int_of (arc_apex_y (int_layout scenario_int))
     - int_of (top_y (int_layout scenario_int)) = 12 /\
   int_of (baseline (int_layout scenario_int))
     - int_of (arc_apex_y (int_layout scenario_int)) = 24).
Proof.
  apply (X1_int_layout scenario_int (int_layout scenario_int)).
  reflexivity.
Defined.

Lemma int_layout_of p l :
  int_params p = true -> compute_layout p = Ok l ->
  l = int_layout p /\ 1 <= n_semicircles p /\
  py_gt (ext_above p) (PInt 0) = true.
Proof.
  intros Hint Hl. pose proof (compute_layout_inv _ _ Hl) as (Hn & He & _).
  rewrite (compute_layout_int_closed p Hint Hn He) in Hl.
  repeat split; [congruence | assumption | assumption].
Qed.

Lemma path_cmds_int p :
  int_params p = true -> 0 <= n_semicircles p ->
  path_cmds p (int_layout p) = Ok (int_path p).
Proof.
  intros Hint Hn. apply path_cmds_shape.
  apply (path_shape_int p (int_layout p) Hint eq_refl eq_refl Hn).
  reflexivity.
Qed.

(** X2: with integer parameters the emitted commands are a closed form of
    the parameters: the [k]-th U starts at the cursor
    [margin + k * (u_width + 2 * R)], its semicircle ends where the next U
    starts, and the final U starts at [margin + n * (u_width + 2 * R)].
    Integer arithmetic never fails, so the commands exist whenever the
    layout does. *)
Theorem X2_int_path p l :
  int_params p = true ->
  compute_layout p = Ok l ->
  path_cmds p l = Ok (int_path p).
Proof.
  intros Hint Hl.
  destruct (int_layout_of p l Hint Hl) as (-> & Hn & _).
  apply path_cmds_int; [exact Hint | lia].
Qed.

Lemma X2_int_path_witness :
  path_cmds scenario_int (int_layout scenario_int) =
    Ok (int_path scenario_int).
Proof.
  apply (X2_int_path scenario_int (int_layout scenario_int)).
  - reflexivity.
  - reflexivity.
Defined.

(** ** Integer parameters: the document in closed form *)

Lemma fmt_cmd_small_text c :
  small_cmd c = true -> fmt_cmd c = Ok (int_cmd_text c).
Proof.
  unfold small_cmd, int_cmd_text, int_text.
  assert (Hf : forall a, small a = true ->
                 format_f 2 a = Ok (string_of_Z (int_of a) ++ decimals 2)).
  { intros a Ha. unfold small in Ha. apply andb_prop in Ha as [Hi Hs].
    destruct a as [z |]; [| discriminate]. cbn [int_of] in Hs |- *.
    apply format_f_int. apply Z.ltb_lt. exact Hs. }
  destruct c; cbn [coords forallb fmt_cmd map cmd_text]; intros H;
    repeat (apply andb_prop in H as [? H]);
    repeat match goal with
    | Hs : small ?a = true |- context [format_f 2 ?a] =>
        rewrite (Hf a Hs); cbn [bind]; clear Hs
    end; reflexivity.
Qed.

Lemma mapM_fmt_cmd_small_text cs :
  Forall (fun c => small_cmd c = true) cs ->
  mapM fmt_cmd cs = Ok (map int_cmd_text cs).
Proof.
  induction 1 as [| c cs Hc _ IH]; [reflexivity |].
  cbn [mapM map]. rewrite (fmt_cmd_small_text c Hc), IH. reflexivity.
Qed.

Lemma int_path_small p :
  int_params p = true -> 0 <= n_semicircles p ->
  width_bound p < 2 ^ 53 -> height_bound p < 2 ^ 53 ->
  Forall (fun c => small_cmd c = true) (int_path p).
Proof.
  intros Hint Hn Hw Hh.
  destruct (int_params_inv p Hint) as (HR & Huw & Hud & Hex & Hm).
  unfold width_bound, height_bound in Hw, Hh.
  set (r := int_of (R p)) in *. set (uw := int_of (u_width p)) in *.
  set (ud := int_of (u_depth p)) in *. set (ex := int_of (ext_above p)) in *.
  set (m := int_of (margin p)) in *.
  assert (Hnw : 0 <= n_semicircles p * (Z.abs uw + 2 * Z.abs r)) by nia.
  assert (Hnn : Z.of_nat (Z.to_nat (n_semicircles p)) = n_semicircles p)
    by (apply Z2Nat.id; exact Hn).
  destruct (reps_int_exists p (int_layout p) r uw ud (int_baseline p) m
              HR Huw Hud eq_refl) with (n := Z.to_nat (n_semicircles p))
                                       (x := m)
    as (body & Hreps & Hsmall).
  - unfold r, uw. lia.
  - unfold int_baseline. fold m r ex. lia.
  - unfold int_baseline. fold m r ex ud. lia.
  - rewrite Hnn. lia.
  - apply (reps_int_closed p (int_layout p) Hint eq_refl) in Hreps
      as [_ ->].
    unfold int_path. cbn zeta. fold m.
    apply Forall_app. split; [| apply Forall_app; split; [exact Hsmall |]];
      repeat constructor; unfold small_cmd, int_U, int_down, int_baseline;
      cbn [coords forallb app]; fold m r ex ud uw;
      rewrite ?small_PInt; try reflexivity; try lia.
    all: unfold int_period; fold uw r; nia.
Qed.

Lemma append_empty_r s : s ++ EmptyString = s.
Proof. induction s as [| c s IH]; cbn; [| rewrite IH]; reflexivity. Qed.

(** A call with integer parameters of small reach has the outcome of
    printing the stroke width: the closed-form document around its text,
    or its [ValueError]. *)
Lemma int_document_outcome p :
  int_params p = true ->
  1 <= n_semicircles p ->
  py_gt (ext_above p) (PInt 0) = true ->
  width_bound p < 2 ^ 53 ->
  height_bound p < 2 ^ 53 ->
  arc_shape_svg p =
    (sw <- py_str (stroke_width p) ;; Ok (int_document p sw)).
Proof.
  intros Hint Hn He Hw Hh.
  unfold arc_shape_svg, int_document.
  rewrite (compute_layout_int_closed p Hint Hn He). cbn [bind].
  assert (Hss : path_strings p (int_layout p) =
                Ok (map int_cmd_text (int_path p))).
  { unfold path_strings. apply build_path_spec. exists (int_path p). split.
    - apply path_cmds_shape. apply path_cmds_int; [exact Hint | lia].
    - apply mapM_fmt_cmd_small_text.
      apply int_path_small; try assumption. lia. }
  rewrite Hss. cbn [bind int_layout total_width total_height].
  unfold width_bound, height_bound in Hw, Hh.
  assert (Hnw : 0 <= n_semicircles p
                     * (Z.abs (int_of (u_width p))
                        + 2 * Z.abs (int_of (R p)))) by nia.
  rewrite !format_f_int.
  - unfold decimals. rewrite !append_empty_r. reflexivity.
  - unfold int_total_height, int_baseline. lia.
  - unfold int_total_width, int_pattern_width. nia.
Qed.

Lemma int_document_Ok p sw :
  int_params p = true ->
  1 <= n_semicircles p ->
  py_gt (ext_above p) (PInt 0) = true ->
  width_bound p < 2 ^ 53 ->
  height_bound p < 2 ^ 53 ->
  py_str (stroke_width p) = Ok sw ->
  arc_shape_svg p = Ok (int_document p sw).
Proof.
  intros Hint Hn He Hw Hh Hsw.
  rewrite int_document_outcome, Hsw by assumption. reflexivity.
Qed.

(** X3: with integer parameters whose reach stays below [2^53], a call
    that passes the two parameter checks and whose stroke width prints
    as [sw] returns exactly the closed-form document: the width and
    height attributes are the decimal integers
    [n * (u_width + 2 * R) + u_width + 2 * margin] and
    [2 * margin + R + ext_above + u_depth], every coordinate of the path
    is printed as its integer value followed by [.00], and the stroke
    width attribute is [sw].  A stroke width that does not print, an int
    of more than 4300 digits, makes the call raise the [ValueError]
    instead. *)
Theorem X3_int_document p :
  int_params p = true ->
  1 <= n_semicircles p ->
  py_gt (ext_above p) (PInt 0) = true ->
  width_bound p < 2 ^ 53 ->
  height_bound p < 2 ^ 53 ->
  (forall sw, py_str (stroke_width p) = Ok sw ->
     arc_shape_svg p = Ok (int_document p sw)) /\
  (~ printable (stroke_width p) -> arc_shape_svg p = Raise too_long).
Proof.
  intros Hint Hn He Hw Hh. split.
  - intros sw Hsw. apply int_document_Ok; assumption.
  - intros Hsw. rewrite int_document_outcome by assumption.
    destruct (py_str (stroke_width p)) as [sw | e] eqn:E.
    + apply py_str_Ok in E. contradiction.
    + apply py_str_Raise in E as [-> _]. reflexivity.
Qed.

Lemma X3_int_document_witness :
  ((forall sw, py_str (stroke_width scenario_int) = Ok sw ->
      arc_shape_svg scenario_int = Ok (int_document scenario_int sw)) /\
   (~ printable (stroke_width scenario_int) ->
    arc_shape_svg scenario_int = Raise too_long)) /\
  py_str (stroke_width scenario_int) = Ok "2.5" /\
  int_document scenario_int "2.5" =
    svg_document scenario_int "112" "96" path_1 "2.5".
Proof.
  split; [| split].
  - apply (X3_int_document scenario_int).
    + reflexivity.
    + cbn. lia.
    + reflexivity.
    + vm_compute. reflexivity.
    + vm_compute. reflexivity.
  - vm_compute. reflexivity.
  - vm_compute. reflexivity.
Defined.

(** A stroke width of 5001 digits: the layout is that of the scenario, and
    formatting the stroke width raises. *)
Lemma huge_stroke_width_raises :
  compute_layout huge_stroke_params = compute_layout scenario_int /\
  ~ printable (stroke_width huge_stroke_params) /\
  arc_shape_svg huge_stroke_params = Raise too_long.
Proof.
  assert (Hle : 10 ^ max_str_digits <= Z.abs (10 ^ 5000)).
  { rewrite Z.abs_eq by (apply Z.pow_nonneg; lia).
    apply Z.pow_le_mono_r; [lia | unfold max_str_digits; lia]. }
  split; [reflexivity | split].
  - unfold printable, huge_stroke_params, stroke_width. intros H.
    apply (Z.lt_irrefl (10 ^ max_str_digits)).
    apply (Z.le_lt_trans _ _ _ Hle H).
  - rewrite int_document_outcome;
      [| reflexivity | unfold huge_stroke_params, n_semicircles; lia
       | reflexivity | reflexivity | reflexivity].
    unfold py_str, huge_stroke_params, stroke_width.
    rewrite (proj2 (Z.leb_le _ _) Hle). reflexivity.
Qed.

(** ** Integer parameters: where the path goes *)

Lemma vertices_app pn cs1 cs2 :
  vertices pn (cs1 ++ cs2) =
  (vertices pn cs1 ++ vertices (run_pen pn cs1) cs2)%list.
Proof.
  revert pn. induction cs1 as [| c cs1 IH]; intros pn; [reflexivity |].
  cbn [app vertices]. rewrite IH. reflexivity.
Qed.

Lemma run_pen_units p x n :
  int_params p = true ->
  run_pen (PInt x, PInt (int_baseline p))
    (flat_map (int_unit_from p x) (indices n)) =
  (PInt (x + Z.of_nat n * int_period p), PInt (int_baseline p)).
Proof.
  intros Hint.
  apply (reps_run_pen p (int_layout p) n (PInt x) _ _
           (reps_int_total p (int_layout p) Hint eq_refl n x)).
Qed.

(** X4: with integer parameters the closing line is drawn from
    [x = margin + pattern_width], the top of the right end-cap, back to
    [x = margin]: it spans exactly the pattern width, and the right end-cap
    stands [margin] before the right edge [total_width]. *)
Theorem X4_closing_line p l cs :
  int_params p = true ->
  compute_layout p = Ok l ->
  path_cmds p l = Ok cs ->
  exists front,
    cs = (front ++ [HLine (margin p)])%list /\
    run_pen origin front =
      (PInt (int_of (margin p) + int_pattern_width p), top_y l) /\
    int_of (margin p) + int_pattern_width p
      = int_of (total_width l) - int_of (margin p).
Proof.
  intros Hint Hl Hcs.
  destruct (int_layout_of p l Hint Hl) as (-> & Hn & _).
  rewrite (path_cmds_int p Hint) in Hcs by lia. injection Hcs as <-.
  destruct (int_params_inv p Hint) as (_ & _ & _ & _ & Hm).
  set (m := int_of (margin p)) in *.
  exists ([MoveTo (PInt m) (PInt (int_baseline p)); VLine (PInt m);
           VLine (PInt (int_baseline p))] ++
          flat_map (int_unit_from p m) (indices (Z.to_nat (n_semicircles p)))
          ++ int_U p (m + n_semicircles p * int_period p) ++
          [VLine (PInt m)])%list.
  repeat split.
  - unfold int_path. cbn zeta. fold m. rewrite Hm.
    rewrite <- !app_assoc. reflexivity.
  - rewrite run_pen_app. cbn [run_pen fold_left step_pen origin fst snd].
    fold (run_pen (PInt m, PInt (int_baseline p))
            (flat_map (int_unit_from p m)
               (indices (Z.to_nat (n_semicircles p))) ++
             int_U p (m + n_semicircles p * int_period p) ++
             [VLine (PInt m)])).
    rewrite run_pen_app, run_pen_units by exact Hint.
    cbn [int_U app run_pen fold_left step_pen fst snd int_layout top_y].
    rewrite ?Z2Nat.id by lia. fold m.
    do 2 f_equal. unfold int_pattern_width, int_period. lia.
  - cbn [int_layout total_width int_of]. unfold int_total_width. lia.
Qed.

Lemma X4_closing_line_witness :
  exists front,
    int_path scenario_int = (front ++ [HLine (PInt 16)])%list /\
    run_pen origin front =
      (PInt (16 + int_pattern_width scenario_int),
       top_y (int_layout scenario_int)) /\
    16 + int_pattern_width scenario_int
      = int_of (total_width (int_layout scenario_int)) - 16.
Proof.
  apply (X4_closing_line scenario_int (int_layout scenario_int)
           (int_path scenario_int)).
  - reflexivity.
  - reflexivity.
  - reflexivity.
Defined.

Ltac box_tac :=
  match goal with
  | |- in_box _ _ _ _ (PInt ?x, PInt ?y) =>
      exists x, y; split; [reflexivity |]
  end.

Section IntBox.

Variable p : params.
Hypothesis Hint : int_params p = true.
Hypothesis Hn : 1 <= n_semicircles p.
Hypothesis He : 0 < int_of (ext_above p).
Hypothesis HR0 : 0 <= int_of (R p).
Hypothesis Huw0 : 0 <= int_of (u_width p).
Hypothesis Hud0 : 0 <= int_of (u_depth p).

Lemma units_in_box n : forall x,
  int_of (margin p) <= x ->
  x + Z.of_nat n * int_period p
    <= int_of (margin p) + n_semicircles p * int_period p ->
  Forall (in_box (int_of (margin p))
            (int_of (margin p) + int_pattern_width p)
            (int_of (margin p)) (int_down p))
    (vertices (PInt x, PInt (int_baseline p))
       (flat_map (int_unit_from p x) (indices n))).
Proof.
  assert (Hper : int_period p = int_of (u_width p) + 2 * int_of (R p))
    by reflexivity.
  assert (Hpw : int_pattern_width p
                = n_semicircles p * int_period p + int_of (u_width p))
    by reflexivity.
  induction n as [| n IH]; intros x Hx Hend; [constructor |].
  rewrite Nat2Z.inj_succ, Z.mul_succ_l in Hend.
  assert (Hnp : 0 <= Z.of_nat n * int_period p) by nia.
  rewrite int_unit_from_S by exact Hint.
  cbn [vertices step_pen fst snd].
  repeat apply Forall_cons.
  5: apply IH; lia.
  all: box_tac; rewrite Hpw; unfold int_down, int_baseline; lia.
Qed.

Lemma int_path_in_box :
  Forall (in_box (int_of (margin p))
            (int_of (margin p) + int_pattern_width p)
            (int_of (margin p)) (int_down p))
    (vertices origin (int_path p)).
Proof.
  assert (Hper : 0 <= int_period p) by (unfold int_period; lia).
  assert (HN : 0 <= n_semicircles p * int_period p) by nia.
  assert (Hpw : int_pattern_width p
                = n_semicircles p * int_period p + int_of (u_width p))
    by reflexivity.
  unfold int_path. cbn zeta.
  rewrite vertices_app. apply Forall_app. split.
  - cbn [vertices step_pen origin fst snd].
    repeat apply Forall_cons; try apply Forall_nil;
      box_tac; rewrite Hpw; unfold int_down, int_baseline; lia.
  - cbn [run_pen fold_left step_pen origin fst snd].
    rewrite vertices_app. apply Forall_app. split.
    + apply units_in_box; [lia |]. rewrite Z2Nat.id by lia. lia.
    + rewrite run_pen_units by exact Hint. rewrite Z2Nat.id by lia.
      cbn [int_U app vertices step_pen fst snd].
      repeat apply Forall_cons; try apply Forall_nil;
        box_tac; rewrite Hpw; unfold int_down, int_baseline; lia.
Qed.

End IntBox.

(** X5: with integer parameters and a radius, a U width and a U depth that
    are not negative, every point the path visits lies within the margin
    on all four sides of the canvas:
    [margin <= x <= total_width - margin] and
    [margin <= y <= total_height - margin]; the arcs rise to
    [margin + ext_above], within the same bounds. *)
Theorem X5_path_within_margins p l cs :
  int_params p = true ->
  0 <= int_of (R p) -> 0 <= int_of (u_width p) -> 0 <= int_of (u_depth p) ->
  compute_layout p = Ok l ->
  path_cmds p l = Ok cs ->
  Forall (in_box (int_of (margin p))
            (int_of (total_width l) - int_of (margin p))
            (int_of (margin p))
            (int_of (total_height l) - int_of (margin p)))
    (vertices origin cs) /\
  int_of (margin p) < int_of (arc_apex_y l)
    <= int_of (total_height l) - int_of (margin p).
Proof.
  intros Hint HR0 Huw0 Hud0 Hl Hcs.
  destruct (int_layout_of p l Hint Hl) as (-> & Hn & He).
  rewrite (path_cmds_int p Hint) in Hcs by lia. injection Hcs as <-.
  destruct (int_params_inv p Hint) as (_ & _ & _ & Hex & _).
  rewrite Hex in He. apply py_gt_int in He.
  cbn [int_layout total_width total_height arc_apex_y int_of].
  split.
  - replace (int_total_width p - int_of (margin p))
      with (int_of (margin p) + int_pattern_width p)
      by (unfold int_total_width; lia).
    replace (int_total_height p - int_of (margin p)) with (int_down p)
      by (unfold int_total_height, int_down; lia).
    apply int_path_in_box; assumption.
  - unfold int_total_height, int_baseline. lia.
Qed.

Lemma X5_path_within_margins_witness :
  Forall (in_box 16 (112 - 16) 16 (96 - 16))
    (vertices origin (int_path scenario_int)) /\
  16 < 28 <= 96 - 16.
Proof.
  apply (X5_path_within_margins scenario_int (int_layout scenario_int)
           (int_path scenario_int)).
  - reflexivity.
  - cbn. lia.
  - cbn. lia.
  - cbn. lia.
  - reflexivity.
  - reflexivity.
Defined.

(** ** Floats that are integers: rounding *)

Lemma iter_pos_comm {A : Type} (f : A -> A) n : forall x,
  iter_pos f n (f x) = f (iter_pos f n x).
Proof.
  induction n as [n IH | n IH |]; intros x; cbn [iter_pos].
  - rewrite !IH. reflexivity.
  - rewrite !IH. reflexivity.
  - reflexivity.
Qed.

Lemma iter_pos_iter {A : Type} (f : A -> A) n : forall x,
  iter_pos f n x = Pos.iter f x n.
Proof.
  induction n as [n IH | n IH |]; intros x; cbn [iter_pos Pos.iter].
  - rewrite !iter_pos_comm, !IH. reflexivity.
  - rewrite !IH. reflexivity.
  - reflexivity.
Qed.

(** Shifting out zero bits loses nothing. *)
Lemma shr_exact q k :
  iter_pos shr_1 k
    {| shr_m := Zpos (Pos.iter xO q k); shr_r := false; shr_s := false |} =
  {| shr_m := Zpos q; shr_r := false; shr_s := false |}.
Proof.
  rewrite iter_pos_iter.
  induction k using Pos.peano_ind.
  - reflexivity.
  - rewrite Pos.iter_succ_r, Pos.iter_succ. cbn [shr_1 orb]. exact IHk.
Qed.

Lemma canon_m_value z :
  Zpos z < 2 ^ 53 ->
  Zpos (canon_m z) = Zpos z * 2 ^ (53 - Zpos (digits2_pos z)) /\
  Zpos (digits2_pos (canon_m z)) = 53.
Proof.
  intros Hz. pose proof (digits2_pos_le z Hz) as Hd. unfold canon_m.
  destruct (Zpos (digits2_pos z) - 53) as [| k | k] eqn:E; [| lia |].
  - replace (53 - Zpos (digits2_pos z)) with 0 by lia.
    rewrite Z.pow_0_r. lia.
  - rewrite pos_iter_xO, digits2_pos_iter.
    replace (53 - Zpos (digits2_pos z)) with (Zpos k) by lia. lia.
Qed.

Lemma fexp_small d : 1 <= d <= 53 + 971 -> fexp prec emax d = d - 53.
Proof. intros H. unfold fexp, emin, prec, emax. lia. Qed.

(** A positive number of the form [z * 2^k]. *)
Lemma shifted_pos m z k :
  Zpos m = Zpos z * 2 ^ Zpos k -> m = Pos.iter xO z k.
Proof.
  intros H. apply Pos2Z.inj. rewrite pos_iter_xO. exact H.
Qed.

Lemma digits2_shifted m z k :
  0 <= k -> Zpos m = Zpos z * 2 ^ k ->
  Zpos (digits2_pos m) = Zpos (digits2_pos z) + k.
Proof.
  intros Hk H. destruct k as [| k | k]; [| | lia].
  - rewrite Z.pow_0_r, Z.mul_1_r in H. injection H as ->. lia.
  - rewrite (shifted_pos m z k H). apply digits2_pos_iter.
Qed.

(** A mantissa of at least 53 bits whose value is an integer below [2^53]
    is rounded to that integer. *)
Lemma binary_round_aux_value s m e z :
  Zpos z < 2 ^ 53 ->
  e <= Zpos (digits2_pos z) - 53 ->
  Zpos m = Zpos z * 2 ^ (- e) ->
  binary_round_aux prec emax s (Zpos m) e loc_Exact =
    S754_finite s (canon_m z) (Zpos (digits2_pos z) - 53).
Proof.
  intros Hz He Hm.
  pose proof (digits2_pos_le z Hz) as Hd.
  destruct (canon_m_value z Hz) as (Hc & Hdc).
  assert (Hdm : Zpos (digits2_pos m) = Zpos (digits2_pos z) + - e)
    by (apply digits2_shifted; [lia | exact Hm]).
  set (t := Zpos (digits2_pos z) - 53) in *.
  assert (Hmc : Zpos m = Zpos (canon_m z) * 2 ^ (t - e)).
  { rewrite Hc, Hm, <- Z.mul_assoc, <- Z.pow_add_r by (unfold t; lia).
    do 2 f_equal. unfold t. lia. }
  destruct (t - e) as [| n | n] eqn:En; [| | lia].
  - rewrite Z.pow_0_r, Z.mul_1_r in Hmc. injection Hmc as ->.
    replace e with t by lia.
    apply binary_round_aux_exact; [exact Hdc | unfold t; lia].
  - unfold binary_round_aux, shr_fexp. cbn [Zdigits2].
    rewrite Hdm.
    replace (Zpos (digits2_pos z) + - e + e) with (Zpos (digits2_pos z))
      by lia.
    rewrite fexp_small by lia. fold t. rewrite En.
    cbn [shr shr_record_of_loc].
    rewrite (shifted_pos m (canon_m z) n Hmc), shr_exact.
    cbn [shr_m loc_of_shr_record round_nearest_even Zdigits2].
    rewrite Hdc.
    replace (e + Zpos n) with t by lia.
    rewrite fexp_small by (unfold t; lia).
    replace (53 + t - 53 - t) with 0 by lia.
    cbn [shr shr_record_of_loc shr_m].
    destruct (t <=? emax - prec) eqn:Hle; [reflexivity |].
    apply Z.leb_gt in Hle. unfold emax, prec, t in Hle. lia.
Qed.

(** Rounding depends on the value only: [m * 2^e] with [e <= 0] that is an
    integer [z] below [2^53] is rounded to the float of [z]. *)
Lemma binary_round_value s m e z :
  Zpos z < 2 ^ 53 -> e <= 0 ->
  Zpos m = Zpos z * 2 ^ (- e) ->
  binary_round prec emax s m e =
    S754_finite s (canon_m z) (Zpos (digits2_pos z) - 53).
Proof.
  intros Hz He Hm.
  pose proof (digits2_pos_le z Hz) as Hd.
  destruct (canon_m_value z Hz) as (Hc & Hdc).
  assert (Hdm : Zpos (digits2_pos m) = Zpos (digits2_pos z) + - e)
    by (apply digits2_shifted; [lia | exact Hm]).
  unfold binary_round. rewrite Hdm.
  replace (Zpos (digits2_pos z) + - e + e) with (Zpos (digits2_pos z))
    by lia.
  rewrite fexp_small by lia.
  set (t := Zpos (digits2_pos z) - 53) in *.
  unfold shl_align.
  destruct (t - e) as [| n | n] eqn:En.
  - apply binary_round_aux_value; [exact Hz | fold t; lia | exact Hm].
  - apply binary_round_aux_value; [exact Hz | fold t; lia | exact Hm].
  - assert (Hmc : Pos.iter xO m n = canon_m z).
    { apply Pos2Z.inj. rewrite pos_iter_xO, Hc, Hm, <- Z.mul_assoc.
      rewrite <- Z.pow_add_r by lia. do 2 f_equal. unfold t in En. lia. }
    rewrite Hmc.
    apply binary_round_aux_exact; [exact Hdc | unfold t; lia].
Qed.

Lemma binary_round_int s z :
  Zpos z < 2 ^ 53 ->
  binary_round prec emax s z 0 =
    S754_finite s (canon_m z) (Zpos (digits2_pos z) - 53).
Proof.
  intros Hz. apply binary_round_value; [exact Hz | lia |].
  change (- 0) with 0. rewrite Z.pow_0_r. lia.
Qed.

(** [S = z * 2^-e] is normalised to the float of the integer [z]. *)
Lemma binary_normalize_value S e z :
  Z.abs z < 2 ^ 53 -> e <= 0 -> S = z * 2 ^ (- e) ->
  binary_normalize prec emax S e false = b64 z 0.
Proof.
  intros Hz He HS.
  assert (Hp : 0 < 2 ^ (- e)) by (apply Z.pow_pos_nonneg; lia).
  unfold b64, binary_normalize.
  destruct z as [| z | z].
  - rewrite Z.mul_0_l in HS. subst S. reflexivity.
  - destruct S as [| m | m]; try lia.
    rewrite binary_round_int by lia.
    apply binary_round_value; [lia | exact He | exact HS].
  - destruct S as [| m | m]; try lia.
    rewrite binary_round_int by lia.
    apply binary_round_value; [lia | exact He |]. lia.
Qed.

Lemma b64_int z :
  Z.abs z < 2 ^ 53 -> z <> 0 ->
  b64 z 0 = S754_finite (z <? 0) (int_m z) (int_e z).
Proof.
  intros Hz Hnz. unfold b64, binary_normalize, int_m, int_e.
  destruct z as [| m | m]; [congruence | |];
    rewrite binary_round_int by lia; reflexivity.
Qed.

Lemma int_m_value z :
  Z.abs z < 2 ^ 53 -> z <> 0 ->
  Zpos (int_m z) = Z.abs z * 2 ^ (- int_e z) /\
  -52 <= int_e z <= 0 /\
  Zpos (digits2_pos (int_m z)) = 53.
Proof.
  intros Hz Hnz. unfold int_m, int_e.
  assert (Hp : Zpos (Z.to_pos (Z.abs z)) = Z.abs z)
    by (apply Z2Pos.id; lia).
  assert (Hlt : Zpos (Z.to_pos (Z.abs z)) < 2 ^ 53) by lia.
  destruct (canon_m_value _ Hlt) as (Hc & Hd).
  pose proof (digits2_pos_le _ Hlt) as Hle.
  rewrite Hc, Hp. repeat split; try lia.
  do 2 f_equal. lia.
Qed.

Lemma b64_zero : b64 0 0 = S754_zero false.
Proof. reflexivity. Qed.

Lemma shl_align_fst m e e' :
  e' <= e -> Zpos (fst (shl_align m e e')) = Zpos m * 2 ^ (e - e').
Proof.
  intros H. unfold shl_align.
  destruct (e' - e) as [| d | d] eqn:E; [| lia |]; cbn [fst].
  - replace (e - e') with 0 by lia. rewrite Z.pow_0_r. lia.
  - rewrite pos_iter_xO. do 2 f_equal. lia.
Qed.

Lemma cond_Zopp_abs z : cond_Zopp (z <? 0) (Z.abs z) = z.
Proof.
  unfold cond_Zopp. destruct (z <? 0) eqn:E.
  - apply Z.ltb_lt in E. lia.
  - apply Z.ltb_ge in E. lia.
Qed.

(** The mantissa of an integer, aligned to a smaller exponent. *)
Lemma aligned z ez :
  Z.abs z < 2 ^ 53 -> z <> 0 -> ez <= int_e z ->
  cond_Zopp (z <? 0) (Zpos (fst (shl_align (int_m z) (int_e z) ez))) =
    z * 2 ^ (- ez).
Proof.
  intros Hz Hnz He.
  destruct (int_m_value z Hz Hnz) as (Hm & Hr & _).
  rewrite shl_align_fst by exact He. rewrite Hm.
  rewrite <- Z.mul_assoc, <- Z.pow_add_r by lia.
  replace (- int_e z + (int_e z - ez)) with (- ez) by lia.
  assert (Hp : 0 < 2 ^ (- ez)) by (apply Z.pow_pos_nonneg; lia).
  unfold cond_Zopp. destruct (z <? 0) eqn:E.
  - apply Z.ltb_lt in E. rewrite Z.abs_neq by lia. ring.
  - apply Z.ltb_ge in E. rewrite Z.abs_eq by lia. reflexivity.
Qed.

(** Sums of integers are exact below [2^53]. *)
Lemma fadd_int a b :
  Z.abs a < 2 ^ 53 -> Z.abs b < 2 ^ 53 -> Z.abs (a + b) < 2 ^ 53 ->
  fadd (b64 a 0) (b64 b 0) = b64 (a + b) 0.
Proof.
  intros Ha Hb Hab.
  destruct (Z.eq_dec a 0) as [-> | Hna]; destruct (Z.eq_dec b 0) as [-> | Hnb].
  - reflexivity.
  - rewrite b64_zero, Z.add_0_l, (b64_int b Hb Hnb). reflexivity.
  - rewrite b64_zero, Z.add_0_r, (b64_int a Ha Hna). reflexivity.
  - rewrite (b64_int a Ha Hna), (b64_int b Hb Hnb).
    destruct (int_m_value a Ha Hna) as (_ & Hra & _).
    destruct (int_m_value b Hb Hnb) as (_ & Hrb & _).
    unfold fadd, SFadd.
    apply binary_normalize_value; [exact Hab | lia |].
    rewrite !aligned by (try assumption; lia). ring.
Qed.

(** Differences too. *)
Lemma fsub_int a b :
  Z.abs a < 2 ^ 53 -> Z.abs b < 2 ^ 53 -> Z.abs (a - b) < 2 ^ 53 ->
  fsub (b64 a 0) (b64 b 0) = b64 (a - b) 0.
Proof.
  intros Ha Hb Hab.
  destruct (Z.eq_dec a 0) as [-> | Hna]; destruct (Z.eq_dec b 0) as [-> | Hnb].
  - reflexivity.
  - rewrite b64_zero, Z.sub_0_l, (b64_int b Hb Hnb).
    rewrite (b64_int (- b)) by lia.
    unfold fsub, SFsub, int_m, int_e. rewrite Z.abs_opp.
    f_equal. destruct (b <? 0) eqn:E1, (- b <? 0) eqn:E2; try reflexivity;
      rewrite ?Z.ltb_lt, ?Z.ltb_ge in *; lia.
  - rewrite b64_zero, Z.sub_0_r, (b64_int a Ha Hna). reflexivity.
  - rewrite (b64_int a Ha Hna), (b64_int b Hb Hnb).
    destruct (int_m_value a Ha Hna) as (_ & Hra & _).
    destruct (int_m_value b Hb Hnb) as (_ & Hrb & _).
    unfold fsub, SFsub.
    apply binary_normalize_value; [exact Hab | lia |].
    rewrite !aligned by (try assumption; lia). ring.
Qed.

Lemma digits2_pos_ge m : 2 ^ 52 <= Zpos m -> 53 <= Zpos (digits2_pos m).
Proof.
  intros H. rewrite digits2_pos_size.
  pose proof (Pos.size_gt m) as Hgt.
  assert (H2 : Zpos m < 2 ^ Zpos (Pos.size m)).
  { rewrite <- Pos2Z.inj_pow. lia. }
  destruct (Z_lt_le_dec (Zpos (Pos.size m)) 53) as [Hs | Hs]; [| exact Hs].
  exfalso.
  assert (H52 : 2 ^ Zpos (Pos.size m) <= 2 ^ 52)
    by (apply Z.pow_le_mono_r; lia).
  lia.
Qed.

(** Products of integers are exact below [2^53]; the first factor is
    positive, as [2] and the repetition count are. *)
Lemma fmul_int a b :
  0 < a < 2 ^ 53 -> Z.abs b < 2 ^ 53 -> Z.abs (a * b) < 2 ^ 53 ->
  fmul (b64 a 0) (b64 b 0) = b64 (a * b) 0.
Proof.
  intros Ha Hb Hab.
  assert (Ha' : Z.abs a < 2 ^ 53) by lia.
  assert (Hna : a <> 0) by lia.
  rewrite (b64_int a Ha' Hna).
  assert (Hsa : (a <? 0) = false) by (apply Z.ltb_ge; lia).
  destruct (Z.eq_dec b 0) as [-> | Hnb].
  - rewrite b64_zero, Z.mul_0_r, b64_zero, Hsa. reflexivity.
  - assert (Hnab : a * b <> 0) by nia.
    rewrite (b64_int b Hb Hnb), (b64_int (a * b) Hab Hnab).
    destruct (int_m_value a Ha' Hna) as (Hma & Hra & Hda).
    destruct (int_m_value b Hb Hnb) as (Hmb & Hrb & Hdb).
    unfold fmul, SFmul.
    assert (Hs : xorb (a <? 0) (b <? 0) = (a * b <? 0)).
    { rewrite Hsa. cbn [xorb]. destruct (b <? 0) eqn:E1, (a * b <? 0) eqn:E2;
        try reflexivity; rewrite ?Z.ltb_lt, ?Z.ltb_ge in *; nia. }
    rewrite Hs.
    assert (Hp : Zpos (Z.to_pos (Z.abs (a * b))) = Z.abs (a * b))
      by (apply Z2Pos.id; lia).
    assert (Hval : Zpos (int_m a * int_m b) =
                   Zpos (Z.to_pos (Z.abs (a * b)))
                   * 2 ^ (- (int_e a + int_e b))).
    { rewrite Pos2Z.inj_mul, Hma, Hmb, Hp, Z.abs_mul.
      replace (- (int_e a + int_e b)) with (- int_e a + - int_e b) by lia.
      rewrite Z.pow_add_r by lia. ring. }
    unfold int_m at 3. unfold int_e at 3.
    apply binary_round_aux_value; [lia | | exact Hval].
    assert (Hd : Zpos (digits2_pos (int_m a * int_m b)) =
                 Zpos (digits2_pos (Z.to_pos (Z.abs (a * b))))
                 + - (int_e a + int_e b))
      by (apply digits2_shifted; [lia | exact Hval]).
    assert (Hge : 53 <= Zpos (digits2_pos (int_m a * int_m b))).
    { apply digits2_pos_ge. rewrite Pos2Z.inj_mul.
      assert (2 ^ 52 <= Zpos (int_m a)).
      { destruct (Z_lt_le_dec (Zpos (int_m a)) (2 ^ 52)) as [Hlt | Hle];
          [| exact Hle].
        exfalso. pose proof (Pos.size_le (int_m a)) as Hsz.
        rewrite <- digits2_pos_size in Hsz.
        assert (H2 : 2 ^ Zpos (digits2_pos (int_m a)) <= 2 * Zpos (int_m a)).
        { rewrite <- Pos2Z.inj_pow.
          change (2 * Z.pos (int_m a)) with (Z.pos (int_m a)~0). lia. }
        rewrite Hda in H2. change (2 ^ 53) with (2 * 2 ^ 52) in H2. lia. }
      nia. }
    lia.
Qed.

Lemma digits2_pos_bounds z :
  2 ^ (Zpos (digits2_pos z) - 1) <= Zpos z < 2 ^ Zpos (digits2_pos z).
Proof.
  rewrite digits2_pos_size.
  pose proof (Pos.size_gt z) as Hgt. pose proof (Pos.size_le z) as Hle.
  assert (H1 : Zpos z < 2 ^ Zpos (Pos.size z))
    by (rewrite <- Pos2Z.inj_pow; lia).
  assert (H2 : 2 ^ Zpos (Pos.size z) <= 2 * Zpos z).
  { rewrite <- Pos2Z.inj_pow. change (2 * Z.pos z) with (Z.pos z~0). lia. }
  split; [| exact H1].
  replace (Zpos (Pos.size z)) with (Z.succ (Zpos (Pos.size z) - 1)) in H2
    by lia.
  rewrite Z.pow_succ_r in H2 by lia. lia.
Qed.

(** Floats of positive integers compare as the integers do. *)
Lemma compare_canon x y :
  Zpos x < 2 ^ 53 -> Zpos y < 2 ^ 53 ->
  match Zpos (digits2_pos x) - 53 ?= Zpos (digits2_pos y) - 53 with
  | Lt => Lt
  | Gt => Gt
  | Eq => Pos.compare_cont Eq (canon_m x) (canon_m y)
  end = (Zpos x ?= Zpos y).
Proof.
  intros Hx Hy.
  destruct (canon_m_value x Hx) as (Hcx & _).
  destruct (canon_m_value y Hy) as (Hcy & _).
  pose proof (digits2_pos_bounds x) as (Hlx & Hux).
  pose proof (digits2_pos_bounds y) as (Hly & Huy).
  pose proof (digits2_pos_le x Hx) as Hdx.
  pose proof (digits2_pos_le y Hy) as Hdy.
  destruct (Z.compare_spec (Zpos (digits2_pos x) - 53)
              (Zpos (digits2_pos y) - 53)) as [E | E | E].
  - change (Pos.compare_cont Eq (canon_m x) (canon_m y))
      with (Zpos (canon_m x) ?= Zpos (canon_m y)).
    rewrite Hcx, Hcy.
    replace (Zpos (digits2_pos y)) with (Zpos (digits2_pos x)) by lia.
    assert (Hp : 0 < 2 ^ (53 - Zpos (digits2_pos x)))
      by (apply Z.pow_pos_nonneg; lia).
    destruct (Z.compare_spec (Zpos x) (Zpos y)) as [C | C | C];
      [apply Z.compare_eq_iff | apply Z.compare_lt_iff
       | apply Z.compare_gt_iff]; nia.
  - symmetry. apply Z.compare_lt_iff.
    assert (H : 2 ^ Zpos (digits2_pos x) <= 2 ^ (Zpos (digits2_pos y) - 1))
      by (apply Z.pow_le_mono_r; lia).
    lia.
  - symmetry. apply Z.compare_gt_iff.
    assert (H : 2 ^ Zpos (digits2_pos y) <= 2 ^ (Zpos (digits2_pos x) - 1))
      by (apply Z.pow_le_mono_r; lia).
    lia.
Qed.

(** Floats of integers below [2^53] compare as the integers do. *)
Lemma SFcompare_int a b :
  Z.abs a < 2 ^ 53 -> Z.abs b < 2 ^ 53 ->
  SFcompare (b64 a 0) (b64 b 0) = Some (a ?= b).
Proof.
  intros Ha Hb.
  destruct (Z.eq_dec a 0) as [-> | Hna]; destruct (Z.eq_dec b 0) as [-> | Hnb].
  - reflexivity.
  - rewrite b64_zero, (b64_int b Hb Hnb). cbn [SFcompare].
    destruct b; cbn; congruence.
  - rewrite b64_zero, (b64_int a Ha Hna). cbn [SFcompare].
    destruct a; cbn; congruence.
  - rewrite (b64_int a Ha Hna), (b64_int b Hb Hnb).
    unfold int_m, int_e.
    destruct a as [| x | x]; destruct b as [| y | y]; try congruence;
      cbn [SFcompare Z.ltb Z.compare Z.abs Z.to_pos]; try reflexivity.
    + rewrite compare_canon by (cbn in Ha, Hb; lia). reflexivity.
    + pose proof (compare_canon x y ltac:(cbn in Ha; lia)
                    ltac:(cbn in Hb; lia)) as H.
      cbn [Z.compare] in H. rewrite <- H.
      destruct (Zpos (digits2_pos x) - 53 ?= Zpos (digits2_pos y) - 53);
        reflexivity.
Qed.

Lemma py_lt_float_int a b :
  Z.abs a < 2 ^ 53 -> Z.abs b < 2 ^ 53 ->
  py_lt (PFloat (b64 a 0)) (PFloat (b64 b 0)) = py_lt (PInt a) (PInt b).
Proof.
  intros Ha Hb. unfold py_lt. cbn [py_compare].
  rewrite SFcompare_int by assumption. reflexivity.
Qed.

(** [float(e) > 0] as [e > 0]. *)
Lemma py_gt_float_int e :
  Z.abs e < 2 ^ 53 ->
  py_gt (PFloat (b64 e 0)) (PInt 0) = py_gt (PInt e) (PInt 0).
Proof.
  intros He. unfold py_gt. cbn [py_compare].
  destruct (Z.eq_dec e 0) as [-> | Hne]; [reflexivity |].
  rewrite (b64_int e He Hne).
  destruct (int_m_value e He Hne) as (_ & Hr & _).
  unfold cmp_int_float. cbn [option_map].
  assert (Hv : forall k, 0 < k ->
            CompOpp (0 ?= cond_Zopp (e <? 0) (Zpos (int_m e)) * k)
              = (e ?= 0)).
  { intros k Hk. rewrite <- Z.compare_antisym.
    unfold cond_Zopp. destruct (e <? 0) eqn:E.
    - apply Z.ltb_lt in E.
      transitivity Lt; [apply Z.compare_lt_iff; nia |].
      symmetry. apply Z.compare_lt_iff. exact E.
    - apply Z.ltb_ge in E.
      transitivity Gt; [apply Z.compare_gt_iff; nia |].
      symmetry. apply Z.compare_gt_iff. lia. }
  destruct (0 <=? int_e e) eqn:E0.
  - rewrite Hv by (apply Z.pow_pos_nonneg; lia). reflexivity.
  - cbn [Z.mul]. specialize (Hv 1 ltac:(lia)). rewrite Z.mul_1_r in Hv.
    rewrite Hv. reflexivity.
Qed.

Lemma is_finite_b64_int z : Z.abs z < 2 ^ 53 -> is_finite (b64 z 0) = true.
Proof.
  intros Hz. destruct (Z.eq_dec z 0) as [-> | Hnz]; [reflexivity |].
  rewrite (b64_int z Hz Hnz). reflexivity.
Qed.

Lemma float_of_int_exact z :
  Z.abs z < 2 ^ 53 -> float_of_int z = Ok (b64 z 0).
Proof.
  intros Hz. unfold float_of_int. cbn zeta.
  rewrite is_finite_b64_int by exact Hz. reflexivity.
Qed.

(** ** Integer-valued float arguments *)

Lemma py_add_as_float a b :
  Z.abs a < 2 ^ 53 -> Z.abs b < 2 ^ 53 -> Z.abs (a + b) < 2 ^ 53 ->
  py_add (PFloat (b64 a 0)) (PFloat (b64 b 0)) = Ok (PFloat (b64 (a + b) 0)).
Proof.
  intros Ha Hb Hab. rewrite py_add_float, fadd_int by assumption.
  reflexivity.
Qed.

Lemma py_sub_as_float a b :
  Z.abs a < 2 ^ 53 -> Z.abs b < 2 ^ 53 -> Z.abs (a - b) < 2 ^ 53 ->
  py_sub (PFloat (b64 a 0)) (PFloat (b64 b 0)) = Ok (PFloat (b64 (a - b) 0)).
Proof.
  intros Ha Hb Hab. rewrite py_sub_float, fsub_int by assumption.
  reflexivity.
Qed.

(** [k * b] for an [int] [k] and a float [b]. *)
Lemma py_mul_as_float k b :
  0 < k < 2 ^ 53 -> Z.abs b < 2 ^ 53 -> Z.abs (k * b) < 2 ^ 53 ->
  py_mul (PInt k) (PFloat (b64 b 0)) = Ok (PFloat (b64 (k * b) 0)).
Proof.
  intros Hk Hb Hkb. unfold py_mul, py_binop. cbn [to_float].
  rewrite float_of_int_exact by lia. cbn [bind].
  rewrite fmul_int by assumption. reflexivity.
Qed.

Lemma format_f_as_float d z :
  Z.abs z < 2 ^ 53 -> format_f d (PFloat (b64 z 0)) = format_f d (PInt z).
Proof.
  intros Hz. unfold format_f. cbn [to_float].
  rewrite float_of_int_exact by exact Hz. reflexivity.
Qed.

Lemma fmt_cmd_as_float c :
  small_cmd c = true -> fmt_cmd (as_float_cmd c) = fmt_cmd c.
Proof.
  unfold small_cmd.
  assert (Hf : forall a, small a = true ->
                 format_f 2 (as_float a) = format_f 2 a).
  { intros a Ha. unfold small in Ha. apply andb_prop in Ha as [Hi Hs].
    destruct a as [z |]; [| discriminate]. cbn [int_of] in Hs.
    apply format_f_as_float. apply Z.ltb_lt. exact Hs. }
  destruct c; cbn [coords forallb fmt_cmd as_float_cmd]; intros H;
    repeat (apply andb_prop in H as [? H]);
    repeat match goal with
    | Hs : small ?a = true |- _ => rewrite (Hf a Hs); clear Hs
    end; reflexivity.
Qed.

Lemma mapM_fmt_cmd_as_float cs :
  Forall (fun c => small_cmd c = true) cs ->
  mapM fmt_cmd (map as_float_cmd cs) = mapM fmt_cmd cs.
Proof.
  induction 1 as [| c cs Hc _ IH]; [reflexivity |].
  cbn [mapM map]. rewrite (fmt_cmd_as_float c Hc), IH. reflexivity.
Qed.

Section FloatArguments.

Variable p : params.
Hypothesis Hint : int_params p = true.
Hypothesis Hn : 1 <= n_semicircles p < 2 ^ 53.
Hypothesis Hw : width_bound p < 2 ^ 53.
Hypothesis Hh : height_bound p < 2 ^ 53.

Lemma reach_nonneg :
  0 <= n_semicircles p
       * (Z.abs (int_of (u_width p)) + 2 * Z.abs (int_of (R p))).
Proof. nia. Qed.

Lemma period_le_reach :
  Z.abs (int_of (u_width p)) + 2 * Z.abs (int_of (R p))
  <= n_semicircles p
     * (Z.abs (int_of (u_width p)) + 2 * Z.abs (int_of (R p))).
Proof. nia. Qed.

(** The layout of the float call is the layout of the integer call. *)
Lemma compute_layout_as_floats :
  py_gt (ext_above p) (PInt 0) = true ->
  compute_layout (as_floats p) = Ok (as_float_layout (int_layout p)).
Proof.
  intros He.
  destruct (int_params_inv p Hint) as (HR & Huw & Hud & Hex & Hm).
  pose proof reach_nonneg as Hr0. pose proof period_le_reach as Hr1.
  unfold width_bound in Hw. unfold height_bound in Hh.
  assert (Hnp : Z.abs (n_semicircles p * int_period p)
                <= n_semicircles p
                   * (Z.abs (int_of (u_width p))
                      + 2 * Z.abs (int_of (R p)))).
  { rewrite Z.abs_mul, (Z.abs_eq (n_semicircles p)) by lia.
    apply Z.mul_le_mono_nonneg_l; [lia |]. unfold int_period. lia. }
  unfold compute_layout, as_floats.
  cbn [n_semicircles R u_width u_depth ext_above margin].
  rewrite (proj2 (Z.leb_le _ _) (proj1 Hn)).
  rewrite HR, Huw, Hud, Hex, Hm. cbn [as_float py_assert bind].
  rewrite py_gt_float_int by lia. rewrite Hex in He. rewrite He.
  apply py_gt_int in He.
  cbn [py_assert bind].
  rewrite py_add_as_float by lia. cbn [bind].
  rewrite py_add_as_float by lia. cbn [bind].
  rewrite py_sub_as_float by lia. cbn [bind].
  rewrite py_lt_float_int by lia.
  rewrite py_lt_int by lia. cbn [py_assert bind].
  rewrite py_mul_as_float by lia. cbn [bind].
  rewrite py_add_as_float by lia. cbn [bind].
  fold (int_period p).
  rewrite py_mul_as_float by (fold (int_period p); lia). cbn [bind].
  rewrite py_add_as_float by lia. cbn [bind].
  rewrite py_mul_as_float by lia. cbn [bind].
  rewrite py_add_as_float by lia. cbn [bind].
  rewrite py_add_as_float by lia. cbn [bind].
  rewrite py_add_as_float by lia. cbn [bind].
  unfold as_float_layout, int_layout, int_total_width, int_total_height,
    int_pattern_width, int_baseline, int_period.
  cbn [top_y baseline arc_apex_y pattern_width total_width total_height
       as_float int_of].
  replace (int_of (margin p) + int_of (R p) + int_of (ext_above p)
           - int_of (R p))
    with (int_of (margin p) + int_of (ext_above p)) by lia.
  reflexivity.
Qed.

(** The repetitions of the float call, from a cursor that leaves room for
    them. *)
Lemma reps_as_floats n : forall x,
  Z.abs x + Z.of_nat n
            * (Z.abs (int_of (u_width p)) + 2 * Z.abs (int_of (R p)))
    < 2 ^ 53 ->
  reps (as_floats p) (as_float_layout (int_layout p)) n (PFloat (b64 x 0))
    (map as_float_cmd (flat_map (int_unit_from p x) (indices n)))
    (PFloat (b64 (x + Z.of_nat n * int_period p) 0)).
Proof.
  destruct (int_params_inv p Hint) as (HR & Huw & Hud & Hex & Hm).
  pose proof reach_nonneg as Hr0. pose proof period_le_reach as Hr1.
  unfold width_bound in Hw. unfold height_bound in Hh.
  induction n as [| n IH]; intros x Hx.
  - replace (x + Z.of_nat 0 * int_period p) with x by lia. constructor.
  - rewrite Nat2Z.inj_succ, Z.mul_succ_l in Hx.
    assert (Hq : 0 <= Z.of_nat n
                      * (Z.abs (int_of (u_width p))
                         + 2 * Z.abs (int_of (R p)))) by nia.
    rewrite int_unit_from_S by exact Hint.
    replace (x + Z.of_nat (S n) * int_period p)
      with (x + int_of (u_width p) + 2 * int_of (R p)
            + Z.of_nat n * int_period p).
    2:{ rewrite Nat2Z.inj_succ, Z.mul_succ_l.
        generalize (Z.of_nat n * int_period p). intros q.
        unfold int_period. lia. }
    cbn [map as_float_cmd as_float].
    change (PFloat (b64 (int_baseline p) 0))
      with (baseline (as_float_layout (int_layout p))).
    replace (PFloat (b64 (int_of (R p)) 0)) with (R (as_floats p))
      by (cbn [as_floats R]; rewrite HR; reflexivity).
    apply reps_S with (r2 := PFloat (b64 (2 * int_of (R p)) 0)).
    + cbn [as_float_layout int_layout baseline as_floats u_depth as_float].
      rewrite Hud. cbn [as_float int_of].
      apply py_add_as_float; unfold int_baseline; lia.
    + cbn [as_floats u_width]. rewrite Huw. cbn [as_float int_of].
      apply py_add_as_float; lia.
    + cbn [as_floats R]. rewrite HR. cbn [as_float int_of].
      apply py_mul_as_float; lia.
    + apply py_add_as_float; lia.
    + apply IH. lia.
Qed.

Lemma path_shape_as_floats :
  path_shape (as_floats p) (as_float_layout (int_layout p))
    (map as_float_cmd (int_path p)).
Proof.
  destruct (int_params_inv p Hint) as (HR & Huw & Hud & Hex & Hm).
  pose proof reach_nonneg as Hr0. pose proof period_le_reach as Hr1.
  unfold width_bound in Hw. unfold height_bound in Hh.
  assert (Hnn : Z.of_nat (Z.to_nat (n_semicircles p)) = n_semicircles p)
    by (apply Z2Nat.id; lia).
  assert (Hnp : Z.abs (n_semicircles p * int_period p)
                <= n_semicircles p
                   * (Z.abs (int_of (u_width p))
                      + 2 * Z.abs (int_of (R p)))).
  { rewrite Z.abs_mul, (Z.abs_eq (n_semicircles p)) by lia.
    apply Z.mul_le_mono_nonneg_l; [lia |]. unfold int_period. lia. }
  unfold path_shape.
  exists (map as_float_cmd
            (flat_map (int_unit_from p (int_of (margin p)))
               (indices (Z.to_nat (n_semicircles p))))),
    (PFloat (b64 (int_of (margin p) + n_semicircles p * int_period p) 0)),
    (PFloat (b64 (int_down p) 0)),
    (PFloat (b64 (int_of (margin p) + n_semicircles p * int_period p
                  + int_of (u_width p)) 0)).
  repeat split.
  - pose proof (reps_as_floats (Z.to_nat (n_semicircles p))
                  (int_of (margin p))) as Hr.
    rewrite Hnn in Hr. cbn [as_floats margin]. rewrite Hm. cbn [as_float int_of].
    apply Hr. lia.
  - cbn [as_float_layout int_layout baseline as_floats u_depth as_float].
    rewrite Hud. cbn [as_float int_of].
    apply py_add_as_float; unfold int_baseline; lia.
  - cbn [as_floats u_width]. rewrite Huw. cbn [as_float int_of].
    apply py_add_as_float; lia.
  - unfold int_path. cbn zeta. rewrite !map_app.
    cbn [as_floats margin as_float_layout int_layout baseline top_y].
    rewrite Hm. reflexivity.
Qed.

End FloatArguments.

Lemma as_floats_document p w h d sw :
  svg_document (as_floats p) w h d sw = svg_document p w h d sw.
Proof. reflexivity. Qed.

Lemma arc_shape_svg_as_floats p :
  int_params p = true ->
  n_semicircles p < 2 ^ 53 ->
  width_bound p < 2 ^ 53 ->
  height_bound p < 2 ^ 53 ->
  arc_shape_svg (as_floats p) = arc_shape_svg p.
Proof.
  intros Hint Hn Hw Hh.
  destruct (int_params_inv p Hint) as (HR & Huw & Hud & Hex & Hm).
  destruct (1 <=? n_semicircles p) eqn:E1.
  - apply Z.leb_le in E1.
    destruct (py_gt (ext_above p) (PInt 0)) eqn:E2.
    + rewrite (int_document_outcome p Hint E1 E2 Hw Hh).
      unfold arc_shape_svg.
      rewrite (compute_layout_as_floats p Hint (conj E1 Hn) Hw Hh E2).
      cbn [bind].
      assert (Hsmall : Forall (fun c => small_cmd c = true) (int_path p))
        by (apply int_path_small; try assumption; lia).
      assert (Hss : path_strings (as_floats p)
                      (as_float_layout (int_layout p))
                    = Ok (map int_cmd_text (int_path p))).
      { unfold path_strings. apply build_path_spec.
        exists (map as_float_cmd (int_path p)). split.
        - apply path_shape_as_floats; try assumption. lia.
        - rewrite mapM_fmt_cmd_as_float by exact Hsmall.
          apply mapM_fmt_cmd_small_text. exact Hsmall. }
      rewrite Hss.
      cbn [bind as_float_layout int_layout total_width total_height
           as_float].
      unfold width_bound, height_bound in Hw, Hh.
      assert (Hnw : 0 <= n_semicircles p
                         * (Z.abs (int_of (u_width p))
                            + 2 * Z.abs (int_of (R p)))) by nia.
      assert (HW : Z.abs (int_total_width p) < 2 ^ 53)
        by (unfold int_total_width, int_pattern_width; nia).
      assert (HH : Z.abs (int_total_height p) < 2 ^ 53)
        by (unfold int_total_height, int_baseline; lia).
      rewrite !format_f_as_float, !format_f_int by assumption.
      cbn [bind as_floats stroke_width]. unfold int_document, decimals.
      rewrite !append_empty_r. reflexivity.
    + unfold height_bound in Hh.
      unfold arc_shape_svg, compute_layout, as_floats.
      cbn [n_semicircles ext_above].
      rewrite (proj2 (Z.leb_le _ _) E1). cbn [py_assert bind].
      rewrite Hex in E2 |- *. cbn [as_float].
      rewrite py_gt_float_int by lia. rewrite E2. reflexivity.
  - unfold arc_shape_svg, compute_layout, as_floats.
    cbn [n_semicircles]. rewrite E1. reflexivity.
Qed.

(** ** The number of commands *)

Lemma mapM_length {A B : Type} (f : A -> result B) (xs : list A) : forall ys,
  mapM f xs = Ok ys -> List.length ys = List.length xs.
Proof.
  induction xs as [| x xs IH]; intros ys H.
  - cbn in H. injection H as <-. reflexivity.
  - apply mapM_cons_inv in H as (y & ys' & _ & Hys & ->).
    cbn [List.length]. rewrite (IH _ Hys). reflexivity.
Qed.

Lemma reps_length p l n x body x' :
  reps p l n x body x' ->
  List.length body = (4 * n)%nat /\ Forall (fun c => is_move c = false) body.
Proof.
  induction 1 as [| n x down x1 r2 x2 body x' _ _ _ _ _ [IHl IHm]].
  - split; [reflexivity | constructor].
  - split; [cbn [List.length]; lia | repeat constructor; exact IHm].
Qed.

Lemma count_no_move cs :
  Forall (fun c => is_move c = false) cs ->
  count_letter "M" (map cmd_letter cs) = 0%nat.
Proof.
  unfold count_letter.
  induction 1 as [| c cs Hc _ IH]; [reflexivity |].
  destruct c; try discriminate; cbn in *; exact IH.
Qed.

Lemma count_move_cons x y rest :
  count_letter "M" (map cmd_letter (MoveTo x y :: rest)) =
  S (count_letter "M" (map cmd_letter rest)).
Proof. reflexivity. Qed.

(** X6: the output is a single continuous path, as the module says: a
    call with repetition count [n] that returns emitted [4 * n + 8]
    commands, the first is the only move-to, and the list [cmds] of the
    source holds as many texts, one of them starting with [M]. *)
Theorem X6_single_continuous_path p doc :
  arc_shape_svg p = Ok doc ->
  exists t, emitted p doc t /\
    Z.of_nat (List.length (t_cmds t)) = 4 * n_semicircles p + 8 /\
    Z.of_nat (List.length (t_texts t)) = 4 * n_semicircles p + 8 /\
    (exists x y rest,
       t_cmds t = MoveTo x y :: rest /\
       Forall (fun c => is_move c = false) rest) /\
    count_letter "M" (map head_char (t_texts t)) = 1%nat.
Proof.
  intros H. apply arc_shape_svg_emitted in H as (t & Ht).
  exists t. split; [exact Ht |].
  pose proof (emitted_shape _ _ _ Ht) as Hs.
  pose proof (emitted_n _ _ _ Ht) as Hn.
  assert (Hletters : map head_char (t_texts t) = map cmd_letter (t_cmds t))
    by (apply mapM_fmt_cmd_letters; apply Ht).
  assert (Hlen : List.length (t_texts t) = List.length (t_cmds t))
    by (apply (mapM_length fmt_cmd); apply Ht).
  destruct Hs as (body & xe & down & xf & Hr & _ & _ & Hcs).
  destruct (reps_length _ _ _ _ _ _ Hr) as (Hbl & Hbm).
  assert (Hrest : Forall (fun c => is_move c = false)
                    (VLine (top_y (t_layout t)) ::
                     VLine (baseline (t_layout t)) :: body ++
                     [VLine down; HLine xf; VLine (baseline (t_layout t));
                      VLine (top_y (t_layout t)); HLine (margin p)])%list).
  { do 2 (constructor; [reflexivity |]).
    apply Forall_app. split; [exact Hbm | repeat constructor]. }
  assert (Hl : Z.of_nat (List.length (t_cmds t)) = 4 * n_semicircles p + 8).
  { rewrite Hcs, !length_app, Hbl. cbn [List.length]. lia. }
  rewrite Hlen, Hletters.
  repeat split; try exact Hl.
  - do 3 eexists. split; [rewrite Hcs; reflexivity | exact Hrest].
  - rewrite Hcs. cbn [app].
    rewrite count_move_cons, (count_no_move _ Hrest). reflexivity.
Qed.

Lemma X6_single_continuous_path_witness :
  exists t, emitted (default_params 1) doc_1 t /\
    Z.of_nat (List.length (t_cmds t)) = 4 * 1 + 8 /\
    Z.of_nat (List.length (t_texts t)) = 4 * 1 + 8 /\
    (exists x y rest,
       t_cmds t = MoveTo x y :: rest /\
       Forall (fun c => is_move c = false) rest) /\
    count_letter "M" (map head_char (t_texts t)) = 1%nat.
Proof.
  apply (X6_single_continuous_path (default_params 1) doc_1).
  vm_compute. reflexivity.
Defined.

(** ** One more repetition *)

Lemma indices_snoc n : indices (S n) = (indices n ++ [Z.of_nat n])%list.
Proof.
  unfold indices. rewrite seq_S, map_app. reflexivity.
Qed.

Lemma int_path_one_more p :
  0 <= n_semicircles p ->
  let m := int_of (margin p) in
  let x := m + (n_semicircles p + 1) * int_period p in
  let front :=
    ([MoveTo (PInt m) (PInt (int_baseline p)); VLine (PInt m);
      VLine (PInt (int_baseline p))] ++
     flat_map (int_unit_from p m) (indices (Z.to_nat (n_semicircles p))) ++
     int_U p (m + n_semicircles p * int_period p))%list in
  int_path p = (front ++ [VLine (PInt m); HLine (PInt m)])%list /\
  int_path (with_repetitions p (n_semicircles p + 1)) =
    (front ++
     Arc (PInt (int_of (R p))) (PInt (int_of (R p))) 0 false true
       (PInt x) (PInt (int_baseline p)) ::
     int_U p x ++ [VLine (PInt m); HLine (PInt m)])%list.
Proof.
  intros Hn. cbn zeta. split.
  - unfold int_path. cbn zeta. rewrite <- !app_assoc. reflexivity.
  - unfold int_path. cbn zeta.
    cbn [with_repetitions n_semicircles margin].
    change (int_unit_from (with_repetitions p (n_semicircles p + 1)))
      with (int_unit_from p).
    change (int_U (with_repetitions p (n_semicircles p + 1)))
      with (int_U p).
    change (int_period (with_repetitions p (n_semicircles p + 1)))
      with (int_period p).
    change (int_baseline (with_repetitions p (n_semicircles p + 1)))
      with (int_baseline p).
    replace (Z.to_nat (n_semicircles p + 1))
      with (S (Z.to_nat (n_semicircles p))) by lia.
    rewrite indices_snoc, flat_map_app. cbn [flat_map].
    rewrite Z2Nat.id by exact Hn.
    unfold int_unit_from at 2.
    rewrite app_nil_r, <- !app_assoc. reflexivity.
Qed.

(** X7: with integer parameters one more repetition extends the drawing:
    the commands up to the last U are the same, then come one semicircle
    and one U more before the same right end-cap and closing line; the
    document grows wider by exactly [u_width + 2 * R] and keeps its
    height. *)
Theorem X7_one_more_repetition p l cs :
  int_params p = true ->
  compute_layout p = Ok l ->
  path_cmds p l = Ok cs ->
  exists l' front x,
    compute_layout (with_repetitions p (n_semicircles p + 1)) = Ok l' /\
    cs = (front ++ [VLine (top_y l); HLine (margin p)])%list /\
    run_pen origin front = (PInt x, baseline l) /\
    path_cmds (with_repetitions p (n_semicircles p + 1)) l' =
      Ok (front ++
          Arc (R p) (R p) 0 false true
            (PInt (x + 2 * int_of (R p))) (baseline l) ::
          int_U p (x + 2 * int_of (R p)) ++
          [VLine (top_y l); HLine (margin p)])%list /\
    int_of (total_width l') = int_of (total_width l) + int_period p /\
    total_height l' = total_height l.
Proof.
  intros Hint Hl Hcs.
  destruct (int_layout_of p l Hint Hl) as (-> & Hn & He).
  rewrite (path_cmds_int p Hint) in Hcs by lia. injection Hcs as <-.
  destruct (int_params_inv p Hint) as (HR & _ & _ & _ & Hm).
  set (p' := with_repetitions p (n_semicircles p + 1)).
  assert (Hint' : int_params p' = true) by exact Hint.
  destruct (int_path_one_more p) as (Hp & Hp'); [lia |]. fold p' in Hp'.
  exists (int_layout p'). do 2 eexists.
  split; [apply compute_layout_int_closed;
          [exact Hint' | cbn [p' with_repetitions n_semicircles]; lia
           | exact He] |].
  split; [cbn [int_layout top_y]; rewrite Hm; exact Hp |].
  split.
  - rewrite !run_pen_app.
    cbn [run_pen fold_left step_pen origin fst snd].
    fold (run_pen (PInt (int_of (margin p)), PInt (int_baseline p))
            (flat_map (int_unit_from p (int_of (margin p)))
               (indices (Z.to_nat (n_semicircles p))))).
    rewrite run_pen_units by exact Hint.
    cbn [int_U run_pen fold_left step_pen fst snd int_layout baseline].
    reflexivity.
  - split.
    + rewrite (path_cmds_int p' Hint')
        by (cbn [p' with_repetitions n_semicircles]; lia).
      rewrite Hp'. cbn [int_layout top_y baseline]. rewrite Hm, HR.
      cbn [int_of].
      replace (int_of (margin p) + n_semicircles p * int_period p
               + int_of (u_width p) + 2 * int_of (R p))
        with (int_of (margin p) + (n_semicircles p + 1) * int_period p)
        by (unfold int_period; lia).
      reflexivity.
    + split; [| reflexivity].
      cbn [int_layout total_width int_of].
      unfold int_total_width, int_pattern_width, int_period.
      cbn [p' with_repetitions n_semicircles u_width R margin]. lia.
Qed.

Lemma X7_one_more_repetition_witness :
  exists l' front x,
    compute_layout (with_repetitions scenario_int (1 + 1)) = Ok l' /\
    int_path scenario_int =
      (front ++ [VLine (PInt 16); HLine (PInt 16)])%list /\
    run_pen origin front = (PInt x, PInt 52) /\
    path_cmds (with_repetitions scenario_int (1 + 1)) l' =
      Ok (front ++
          Arc (PInt 24) (PInt 24) 0 false true
            (PInt (x + 2 * 24)) (PInt 52) ::
          int_U scenario_int (x + 2 * 24) ++
          [VLine (PInt 16); HLine (PInt 16)])%list /\
    int_of (total_width l') = 112 + int_period scenario_int /\
    total_height l' = PInt 96.
Proof.
  apply (X7_one_more_repetition scenario_int (int_layout scenario_int)
           (int_path scenario_int)).
  - reflexivity.
  - reflexivity.
  - reflexivity.
Defined.

(** ** Infinities and NaN *)

(** When the margin or the radius is not finite, the apex is not above the
    top: it is a NaN, or the same infinity as the margin. *)
Lemma apex_not_finite m r e :
  is_finite m = false \/ is_finite r = false ->
  py_lt (PFloat m) (PFloat (fsub (fadd (fadd m r) e) r)) = false.
Proof.
  unfold py_lt, fsub, fadd. cbn [py_compare].
  intros [H | H].
  - destruct m as [sm | sm | | sm mm em]; try discriminate H;
      destruct r as [sr | sr | | sr mr er];
      destruct e as [se | se | | se me ee];
      repeat match goal with b : bool |- _ => destruct b end;
      reflexivity.
  - destruct r as [sr | sr | | sr mr er]; try discriminate H;
      destruct m as [sm | sm | | sm mm em];
      destruct e as [se | se | | se me ee];
      repeat match goal with b : bool |- _ => destruct b end;
      reflexivity.
Qed.

(** X9: a margin or a radius that is infinite or NaN is always rejected:
    with float arguments such a call raises an [AssertionError] and returns
    no document; when the two parameter checks pass it is the geometry
    assertion of line 48 that fails. *)
Theorem X9_non_finite_rejected p m r :
  margin p = PFloat m -> R p = PFloat r ->
  is_float (ext_above p) = true ->
  is_finite m = false \/ is_finite r = false ->
  exists msg,
    arc_shape_svg p = Raise (AssertionError msg) /\
    (1 <= n_semicircles p -> py_gt (ext_above p) (PInt 0) = true ->
     msg = msg_apex).
Proof.
  intros Hm HR He Hnf.
  destruct (ext_above p) as [| e] eqn:Ee; [discriminate |].
  unfold arc_shape_svg, compute_layout. rewrite Hm, HR, Ee.
  destruct (1 <=? n_semicircles p) eqn:E1.
  - destruct (py_gt (PFloat e) (PInt 0)) eqn:E2.
    + cbn [py_assert bind].
      rewrite !py_add_float. cbn [bind]. rewrite py_add_float. cbn [bind].
      rewrite py_sub_float. cbn [bind].
      rewrite (apex_not_finite m r e Hnf). cbn [py_assert bind].
      exists msg_apex. split; reflexivity.
    + exists msg_ext. split; [reflexivity |]. intros _ H. discriminate H.
  - exists msg_n. split; [reflexivity |].
    intros H. apply Z.leb_le in H. congruence.
Qed.

Lemma X9_non_finite_rejected_witness :
  exists msg,
    arc_shape_svg
      (call 1 (PFloat (S754_infinity false)) (fl 16 0) (fl 28 0) (fl 12 0)
         (fl 16 0))
      = Raise (AssertionError msg) /\
    (1 <= 1 -> py_gt (fl 12 0) (PInt 0) = true -> msg = msg_apex).
Proof.
  apply (X9_non_finite_rejected
           (call 1 (PFloat (S754_infinity false)) (fl 16 0) (fl 28 0)
              (fl 12 0) (fl 16 0))
           (b64 16 0) (S754_infinity false)).
  - reflexivity.
  - reflexivity.
  - reflexivity.
  - right. reflexivity.
Defined.

(** X8: writing the geometry arguments as floats changes nothing: for
    integers whose reach stays below [2^53], [arc_shape_svg(n, 24.0, ...)]
    and [arc_shape_svg(n, 24, ...)] have the same outcome, the same
    document or the same exception.  Every sum and product of the float
    call is exact, so the closed forms of the integer call describe it
    too.  The outcome is the closed-form document, an assertion error, or
    the [ValueError] of a stroke width that does not print. *)
Theorem X8_float_arguments p :
  int_params p = true ->
  n_semicircles p < 2 ^ 53 ->
  width_bound p < 2 ^ 53 ->
  height_bound p < 2 ^ 53 ->
  arc_shape_svg (as_floats p) = arc_shape_svg p /\
  ((exists sw, py_str (stroke_width p) = Ok sw /\
               arc_shape_svg p = Ok (int_document p sw)) \/
   (exists msg, arc_shape_svg p = Raise (AssertionError msg)) \/
   (~ printable (stroke_width p) /\ arc_shape_svg p = Raise too_long)).
Proof.
  intros Hint Hn Hw Hh.
  split; [apply arc_shape_svg_as_floats; assumption |].
  destruct (1 <=? n_semicircles p) eqn:E1.
  - apply Z.leb_le in E1.
    destruct (py_gt (ext_above p) (PInt 0)) eqn:E2.
    + rewrite (int_document_outcome p Hint E1 E2 Hw Hh).
      destruct (py_str (stroke_width p)) as [sw | e] eqn:E.
      * left. exists sw. split; reflexivity.
      * right. right. apply py_str_Raise in E as [-> Hsw].
        split; [exact Hsw | reflexivity].
    + right. left. exists msg_ext. unfold arc_shape_svg, compute_layout.
      rewrite (proj2 (Z.leb_le _ _) E1), E2. reflexivity.
  - right. left. exists msg_n. unfold arc_shape_svg, compute_layout.
    rewrite E1. reflexivity.
Qed.

Lemma X8_float_arguments_witness :
  arc_shape_svg (as_floats scenario_int) = arc_shape_svg scenario_int /\
  ((exists sw, py_str (stroke_width scenario_int) = Ok sw /\
               arc_shape_svg scenario_int
                 = Ok (int_document scenario_int sw)) \/
   (exists msg, arc_shape_svg scenario_int = Raise (AssertionError msg)) \/
   (~ printable (stroke_width scenario_int) /\
    arc_shape_svg scenario_int = Raise too_long)).
Proof.
  apply (X8_float_arguments scenario_int).
  - reflexivity.
  - vm_compute. reflexivity.
  - vm_compute. reflexivity.
  - vm_compute. reflexivity.
Defined.

(** A call with integer-valued float arguments returns the closed-form
    document of the integers. *)
Lemma float_call_document p sw :
  int_params p = true ->
  1 <= n_semicircles p < 2 ^ 53 ->
  py_gt (ext_above p) (PInt 0) = true ->
  width_bound p < 2 ^ 53 ->
  height_bound p < 2 ^ 53 ->
  py_str (stroke_width p) = Ok sw ->
  arc_shape_svg (as_floats p) = Ok (int_document p sw).
Proof.
  intros Hint Hn He Hw Hh Hsw.
  rewrite arc_shape_svg_as_floats by (try assumption; lia).
  apply int_document_Ok; try assumption. lia.
Qed.

(** The stroke width of [call], the default [2.5], prints as [2.5]. *)
Lemma py_str_call n r uw ud ex m :
  py_str (stroke_width (call n r uw ud ex m)) = Ok "2.5".
Proof. vm_compute. reflexivity. Qed.

(** X10: the call [arc_shape_svg(n)] with every default of the signature
    returns a document for each count from 1 (below [2^46]): it is
    [64 * n + 48] wide and [96] high, and its path is the closed form of
    radius 24, U width 16, U depth 28, extension 12 and margin 16. *)
Theorem X10_default_call n :
  1 <= n < 2 ^ 46 ->
  arc_shape_svg (default_params n)
    = Ok (int_document (default_ints n) "2.5") /\
  int_total_width (default_ints n) = 64 * n + 48 /\
  int_total_height (default_ints n) = 96.
Proof.
  intros Hn.
  change (2 ^ 46) with 70368744177664 in Hn.
  split.
  - change (default_params n) with (as_floats (default_ints n)).
    apply float_call_document;
      [reflexivity | | reflexivity | | reflexivity | apply py_str_call].
    + cbn [default_ints call n_semicircles].
      change (2 ^ 53) with 9007199254740992. lia.
    + unfold width_bound, default_ints, call.
      cbn [n_semicircles u_width R margin int_of].
      change (2 ^ 53) with 9007199254740992. lia.
  - unfold int_total_width, int_pattern_width, int_total_height,
      int_baseline, default_ints, call.
    cbn [n_semicircles u_width u_depth ext_above R margin int_of]. lia.
Qed.

Lemma X10_default_call_witness :
  arc_shape_svg (default_params 3)
    = Ok (int_document (default_ints 3) "2.5") /\
  int_total_width (default_ints 3) = 64 * 3 + 48 /\
  int_total_height (default_ints 3) = 96.
Proof.
  apply (X10_default_call 3). split; [lia | reflexivity].
Defined.

(** ** The driver *)

(** The call of the loop body returns the closed-form document for every
    count the floats carry exactly. *)
Lemma example_document n :
  1 <= n < 2 ^ 46 ->
  arc_shape_svg (example_params n)
    = Ok (int_document (example_ints n) "2.5").
Proof.
  intros Hn.
  change (2 ^ 46) with 70368744177664 in Hn.
  change (example_params n) with (as_floats (example_ints n)).
  apply float_call_document;
    [reflexivity | | reflexivity | | reflexivity | apply py_str_call].
  - cbn [example_ints call n_semicircles].
    change (2 ^ 53) with 9007199254740992. lia.
  - unfold width_bound, example_ints, call.
    cbn [n_semicircles u_width R margin int_of].
    change (2 ^ 53) with 9007199254740992. lia.
Qed.

Lemma example_raises n :
  n < 1 -> arc_shape_svg (example_params n) = Raise (AssertionError msg_n).
Proof.
  intros Hn. unfold arc_shape_svg, compute_layout.
  cbn [example_params call n_semicircles].
  rewrite (proj2 (Z.leb_gt _ _) Hn). reflexivity.
Qed.

Section DriverSpec.

Variable world : Type.
Variable E : Type.
Variable perform : effect -> world -> world * option E.

(** The loop over examples that succeed, followed by more. *)
Lemma write_examples_app good rest : forall w,
  Forall (fun ex => 1 <= snd ex < 2 ^ 46) good ->
  write_examples perform (good ++ rest) w =
    match perform_all perform (flat_map example_effects good) w with
    | (w', Finished) => write_examples perform rest w'
    | r => r
    end.
Proof.
  induction good as [| [fname n] good IH]; intros w Hgood; [reflexivity |].
  inversion Hgood as [| ex exs Hn Hrest]; subst. cbn [snd] in Hn.
  cbn [app write_examples]. rewrite (example_document n Hn).
  cbn [flat_map example_effects app perform_all fst snd].
  destruct (perform (WriteText out_dir fname
                       (int_document (example_ints n) "2.5")) w)
    as [w1 [x |]]; [reflexivity |].
  destruct (perform (Print ("Wrote " ++ fname)) w1) as [w2 [x |]];
    [reflexivity |].
  apply IH. exact Hrest.
Qed.

Lemma write_examples_all exs w :
  Forall (fun ex => 1 <= snd ex < 2 ^ 46) exs ->
  write_examples perform exs w =
    perform_all perform (flat_map example_effects exs) w.
Proof.
  intros H. rewrite <- (app_nil_r exs) at 1.
  rewrite write_examples_app by exact H.
  destruct (perform_all perform (flat_map example_effects exs) w)
    as [w' [| e | x]]; reflexivity.
Qed.

Lemma perform_all_cons e es w :
  perform_all perform (e :: es) w =
    match perform e w with
    | (w', Some x) => (w', Failed x)
    | (w', None) => perform_all perform es w'
    end.
Proof. reflexivity. Qed.

End DriverSpec.

(** X11: the loop of the driver, in any environment, for any list of
    examples whose counts are at least 1 (and below [2^46], so that the
    float arithmetic is exact): no call of [arc_shape_svg] raises, and
    for each example in order the driver asks to write the closed-form
    document to the file of that name and then to print [Wrote] and the
    name.  It asks for nothing else, and it stops at the first request
    the environment fails, with that failure. *)
Theorem X11_driver_writes_each_example (world E : Type)
    (perform : effect -> world -> world * option E) exs : forall w,
  Forall (fun ex => 1 <= snd ex < 2 ^ 46) exs ->
  write_examples perform exs w =
    perform_all perform (flat_map example_effects exs) w.
Proof.
  induction exs as [| [fname n] exs IH]; intros w Hexs; [reflexivity |].
  inversion Hexs as [| ex exs' Hn Hrest]; subst. cbn [snd] in Hn.
  cbn [write_examples]. rewrite (example_document n Hn).
  cbn [flat_map example_effects app perform_all fst snd].
  destruct (perform (WriteText out_dir fname
                       (int_document (example_ints n) "2.5")) w)
    as [w1 [x |]]; [reflexivity |].
  destruct (perform (Print ("Wrote " ++ fname)) w1) as [w2 [x |]];
    [reflexivity |].
  apply IH. exact Hrest.
Qed.

(** In the sample environment the empty file name fails the first write,
    and the second example is never asked for. *)
Lemma X11_driver_writes_each_example_witness :
  write_examples sample_perform [(EmptyString, 1); ("b.svg", 1)] [] =
    perform_all sample_perform
      (flat_map example_effects [(EmptyString, 1); ("b.svg", 1)]) [] /\
  write_examples sample_perform [(EmptyString, 1); ("b.svg", 1)] [] =
    ([], Failed "IsADirectoryError").
Proof.
  split.
  - apply (X11_driver_writes_each_example (list effect) string
             sample_perform [(EmptyString, 1); ("b.svg", 1)] []).
    repeat constructor; cbn; lia.
  - vm_compute. reflexivity.
Defined.

(** X12: an example whose count is below 1 stops the driver with the
    assertion error of [arc_shape_svg], unless the environment failed a
    request before: the examples before it have been written and
    announced, its own file and those of the examples after it are never
    asked for, and nothing is printed for them. *)
Theorem X12_driver_stops_at_failure (world E : Type)
    (perform : effect -> world -> world * option E) good fname n rest w :
  Forall (fun ex => 1 <= snd ex < 2 ^ 46) good ->
  n < 1 ->
  write_examples perform (good ++ (fname, n) :: rest) w =
    match perform_all perform (flat_map example_effects good) w with
    | (w', Finished) => (w', Raised (AssertionError msg_n))
    | r => r
    end.
Proof.
  intros Hgood Hn. rewrite (write_examples_app _ _ perform good _ w Hgood).
  destruct (perform_all perform (flat_map example_effects good) w)
    as [w' [| e | x]]; try reflexivity.
  cbn [write_examples]. rewrite (example_raises n Hn). reflexivity.
Qed.

Lemma X12_driver_stops_at_failure_witness :
  write_examples sample_perform
    ([("a.svg", 2)] ++ ("b.svg", 0) :: [("c.svg", 1)]) [] =
    match perform_all sample_perform
            (flat_map example_effects [("a.svg", 2)]) [] with
    | (w', Finished) => (w', Raised (AssertionError msg_n))
    | r => r
    end.
Proof.
  apply (X12_driver_stops_at_failure (list effect) string sample_perform
           [("a.svg", 2)] "b.svg" 0 [("c.svg", 1)] []).
  - repeat constructor; cbn; lia.
  - lia.
Defined.

(** X13: the driver as it is written, in any environment: it asks for
    the directory, then to write and to announce the three files in the
    order of the list, stops at the first request the environment fails,
    and raises nothing of its own; the documents are [124], [256] and
    [454] wide and [108] high, which is [66 * n + 58] for the count [n];
    the first one is written out. *)
Theorem X13_main_effects (world E : Type)
    (perform : effect -> world -> world * option E) w :
  main perform w =
    perform_all perform
      [Mkdir ".";
       WriteText "." "arc_out_1.svg" (int_document (example_ints 1) "2.5");
       Print "Wrote arc_out_1.svg";
       WriteText "." "arc_out_3.svg" (int_document (example_ints 3) "2.5");
       Print "Wrote arc_out_3.svg";
       WriteText "." "arc_out_6.svg" (int_document (example_ints 6) "2.5");
       Print "Wrote arc_out_6.svg"] w /\
  Forall (fun ex =>
            int_total_width (example_ints (snd ex)) = 66 * snd ex + 58 /\
            int_total_height (example_ints (snd ex)) = 108) examples /\
  int_document (example_ints 1) "2.5" =
    svg_document (example_params 1) "124" "108"
      ("M 20.00,58.00 V 20.00 V 58.00 V 88.00 H 38.00 V 58.00 " ++
       "A 24.00,24.00 0 0 1 86.00,58.00 V 88.00 H 104.00 V 58.00 " ++
       "V 20.00 H 20.00") "2.5".
Proof.
  split; [| split].
  - unfold main. rewrite perform_all_cons.
    change (Mkdir ".") with (Mkdir out_dir).
    destruct (perform (Mkdir out_dir) w) as [w0 [x |]]; [reflexivity |].
    rewrite write_examples_all by (repeat constructor; cbn; lia).
    reflexivity.
  - repeat constructor.
  - vm_compute. reflexivity.
Qed.
